(** * Visitor log: the CSV codec, the file upsert, the batch import and the search

    A shallow embedding of [main.js] (Electron main process) and [script.js]
    (renderer) of the visitor-profile application, and the properties of the
    CSV-backed record synchronisation that hold of them. *)

From Stdlib Require Import String Ascii DecimalString HexadecimalString.
From Stdlib Require Import List NArith ZArith Bool Lia Arith.
Import ListNotations.

(** ** JavaScript strings

    A JavaScript string is a sequence of UTF-16 code units; a code unit is a
    number.  String literals of the sources are written [js "..."].

    Texts leave the JavaScript heap at two places, both in UTF-8: the files
    [fs] reads and writes, and the columns the database engine stores.  They
    are taken to be well-formed UTF-16 there (no surrogate without its
    partner), which is what UTF-8 carries without loss. *)

Module Js.

Definition char := N.
Definition jsstring := list char.

Definition js (s : string) : jsstring :=
  map N_of_ascii (list_ascii_of_string s).
Arguments js s%_string.

Definition COMMA : char := 44%N.
Definition DQUOTE : char := 34%N.
Definition BACKSLASH : char := 92%N.
Definition LF : char := 10%N.
Definition CR : char := 13%N.
Definition SPACE : char := 32%N.

(** [===] on two strings. *)
Fixpoint str_eqb (a b : jsstring) : bool :=
  match a, b with
  | [], [] => true
  | x :: a', y :: b' => N.eqb x y && str_eqb a' b'
  | _, _ => false
  end.

(** White space and line terminators of ECMAScript: what [trim] strips and
    what [\s] matches. *)
Definition is_ws (c : char) : bool :=
  ((9 <=? c) && (c <=? 13) || (c =? 32) || (c =? 160) || (c =? 5760)
   || (8192 <=? c) && (c <=? 8202) || (c =? 8232) || (c =? 8233)
   || (c =? 8239) || (c =? 8287) || (c =? 12288) || (c =? 65279))%N.

Fixpoint trimStart (s : jsstring) : jsstring :=
  match s with
  | [] => []
  | c :: t => if is_ws c then trimStart t else s
  end.

Definition trimEnd (s : jsstring) : jsstring := rev (trimStart (rev s)).

(** [s.trim()] *)
Definition trim (s : jsstring) : jsstring := trimEnd (trimStart s).

(** [s.startsWith(p)] *)
Fixpoint startsWith (p s : jsstring) : bool :=
  match p, s with
  | [], _ => true
  | x :: p', y :: s' => N.eqb x y && startsWith p' s'
  | _ :: _, [] => false
  end.

(** [s.endsWith(p)] *)
Definition endsWith (p s : jsstring) : bool := startsWith (rev p) (rev s).

(** [s.includes(p)] *)
Fixpoint includes (p s : jsstring) : bool :=
  startsWith p s || match s with [] => false | _ :: t => includes p t end.

(** [s.substring(a, b)]: both indices are clamped to the length and swapped
    when [a > b]. *)
Definition substring (a b : nat) (s : jsstring) : jsstring :=
  let lo := Nat.min (Nat.min a b) (length s) in
  let hi := Nat.min (Nat.max a b) (length s) in
  firstn (hi - lo) (skipn lo s).

(** [s.split(sep)] for a one-character separator: never the empty array. *)
Fixpoint split_on (sep : char) (s : jsstring) : list jsstring :=
  match s with
  | [] => [[]]
  | c :: t =>
      if N.eqb c sep then [] :: split_on sep t
      else match split_on sep t with
           | h :: r => (c :: h) :: r
           | [] => [[c]]
           end
  end.

(** [parts.join(sep)] for an array of strings. *)
Fixpoint join (sep : char) (parts : list jsstring) : jsstring :=
  match parts with
  | [] => []
  | [p] => p
  | p :: rest => p ++ sep :: join sep rest
  end.

(** [s.replace(DQ DQ, DQ)] with the global flag, the call of lines 73 and 82:
    every doubled double quote becomes a single one, left to right, matches
    do not overlap. *)
Fixpoint unescape_quotes (s : jsstring) : jsstring :=
  match s with
  | [] => []
  | c1 :: r =>
      match r with
      | c2 :: t =>
          if N.eqb c1 DQUOTE && N.eqb c2 DQUOTE then DQUOTE :: unescape_quotes t
          else c1 :: unescape_quotes r
      | [] => [c1]
      end
  end.

(** [s.replace(DQ, DQ DQ)] with the global flag, the call of line 127: every
    double quote is doubled. *)
Definition escape_quotes (s : jsstring) : jsstring :=
  flat_map (fun c => if N.eqb c DQUOTE then [DQUOTE; DQUOTE] else [c]) s.

(** [s.split(/\r?\n/)]: a line ends at each LF, and a CR right before that LF
    belongs to the separator.  [cur] holds the current piece, last character
    first. *)
Definition strip_cr (cur : jsstring) : jsstring :=
  match cur with
  | c :: t => if N.eqb c CR then t else cur
  | [] => []
  end.

Fixpoint split_lines_from (cur : jsstring) (s : jsstring) : list jsstring :=
  match s with
  | [] => [rev cur]
  | c :: t =>
      if N.eqb c LF then rev (strip_cr cur) :: split_lines_from [] t
      else split_lines_from (c :: cur) t
  end.

Definition split_lines (s : jsstring) : list jsstring := split_lines_from [] s.

(** [s.toLowerCase()] for a string whose code units are all below 256
    (Basic Latin and Latin-1): the letters [A]-[Z] and U+00C0-U+00DE but the
    multiplication sign U+00D7 move up by 32, every other code unit stays.
    Above that range the function below leaves each code unit as it is,
    which is not what JavaScript does with the capital letters found there
    (Greek, Cyrillic, ...): statements about [toLowerCase] are made for
    strings of the range only, see [Terms.latin1]. *)
Definition lower_char (c : char) : char :=
  (if (65 <=? c) && (c <=? 90) then c + 32
   else if (192 <=? c) && (c <=? 222) && negb (c =? 215) then c + 32
   else c)%N.

Definition toLowerCase (s : jsstring) : jsstring := map lower_char s.

(** [n.toString()] for an integer number below [10^21] in absolute value,
    written in decimal digits (from [10^21] on JavaScript writes an
    exponent: no number of the application comes near). *)
Definition number_toString (z : Z) : jsstring :=
  js (DecimalString.NilZero.string_of_int (Z.to_int z)).

(** [n.toString(16)] for a non-negative integer. *)
Definition toString16 (n : N) : jsstring :=
  js (HexadecimalString.NilZero.string_of_uint (N.to_hex_uint n)).

(** ** JavaScript values and plain objects *)

Inductive JsVal : Type :=
| JUndef
| JNull
| JNum (z : Z)
| JStr (s : jsstring).

(** Truthiness, as [if (v)], [v && ...] and [v || ...] test it. *)
Definition truthy (v : JsVal) : bool :=
  match v with
  | JUndef | JNull => false
  | JNum z => negb (Z.eqb z 0)
  | JStr s => match s with [] => false | _ :: _ => true end
  end.

(** [v === w] *)
Definition strict_eqb (v w : JsVal) : bool :=
  match v, w with
  | JUndef, JUndef | JNull, JNull => true
  | JNum a, JNum b => Z.eqb a b
  | JStr a, JStr b => str_eqb a b
  | _, _ => false
  end.

(** A plain object created by [{}]: its own properties, listed in the order
    [Object.keys] reports them, array indices first in ascending order and
    then the other names in order of creation. *)
Definition Obj := list (jsstring * JsVal).

Definition is_digit (c : char) : bool := ((48 <=? c) && (c <=? 57))%N.

(** The value of a decimal numeral with one more digit. *)
Definition digit_step (acc d : N) : N := (acc * 10 + (d - 48))%N.

(** The array index a property name denotes, if any: a canonical decimal
    numeral below [2^32 - 1]. *)
Definition array_index (k : jsstring) : option N :=
  match k with
  | [] => None
  | c :: t =>
      if forallb is_digit k && (negb (N.eqb c 48) || match t with [] => true | _ => false end)
      then let n := fold_left digit_step k 0%N in
           if (n <=? 4294967294)%N then Some n else None
      else None
  end.

Definition has_key (k : jsstring) (o : Obj) : bool :=
  existsb (fun kv => str_eqb (fst kv) k) o.

Definition obj_update (k : jsstring) (v : JsVal) (o : Obj) : Obj :=
  map (fun kv => if str_eqb (fst kv) k then (fst kv, v) else kv) o.

Fixpoint obj_insert_index (n : N) (k : jsstring) (v : JsVal) (o : Obj) : Obj :=
  match o with
  | [] => [(k, v)]
  | kv :: t =>
      match array_index (fst kv) with
      | Some m => if (m <? n)%N then kv :: obj_insert_index n k v t
                  else (k, v) :: o
      | None => (k, v) :: o
      end
  end.

Definition PROTO : jsstring := js "__proto__".

(** [o[k] = v] for a primitive [v]: an existing property keeps its place, a
    new one is created; assigning to [__proto__] creates no property. *)
Definition obj_set (k : jsstring) (v : JsVal) (o : Obj) : Obj :=
  if str_eqb k PROTO then o
  else if has_key k o then obj_update k v o
  else match array_index k with
       | Some n => obj_insert_index n k v o
       | None => o ++ [(k, v)]
       end.

(** [o[k]] where [k] is an own property of [o] or no member of
    [Object.prototype], so that a name the object does not own reads as
    [undefined].  This covers the reads of the sources under the names they
    spell out ([id], [firstName], ...); the one read under a name that comes
    from a file, [visitor[header]] at line 120 of main.js, goes through
    [inherited_text] below. *)
Definition obj_get (k : jsstring) (o : Obj) : JsVal :=
  match find (fun kv => str_eqb (fst kv) k) o with
  | Some kv => snd kv
  | None => JUndef
  end.

(** The text of a built-in function, as [toString()] gives it. *)
Definition native_function (name : jsstring) : jsstring :=
  js "function " ++ name ++ js "() { [native code] }".

(** The members a plain object inherits from [Object.prototype], each with
    the text its [toString()] gives: the built-in methods, the constructor
    [Object], and under [__proto__] the prototype itself. *)
Definition INHERITED : list (jsstring * jsstring) :=
  (js "constructor", native_function (js "Object"))
  :: (PROTO, js "[object Object]")
  :: map (fun name => (name, native_function name))
       [js "__defineGetter__"; js "__defineSetter__"; js "hasOwnProperty";
        js "__lookupGetter__"; js "__lookupSetter__"; js "isPrototypeOf";
        js "propertyIsEnumerable"; js "toString"; js "valueOf";
        js "toLocaleString"].

Definition inherited_text (k : jsstring) : option jsstring :=
  option_map snd (find (fun member => str_eqb (fst member) k) INHERITED).

(** [Object.keys(o)] *)
Definition obj_keys (o : Obj) : list jsstring := map fst o.

(** Exceptions the modelled code can meet, and the outcome of a call that
    may throw. *)
Inductive Exn : Type :=
| TypeError
| FileError
| BindError
| TransactionError
| ConstraintError
| EngineFault.

Inductive res (A : Type) : Type :=
| Ok (a : A)
| Throw (e : Exn).
Arguments Ok {A} a.
Arguments Throw {A} e.

(** [headers.forEach((header, index) => ...)] visits these pairs. *)
Definition indexed {A : Type} (l : list A) : list (A * nat) :=
  combine l (seq 0 (length l)).

End Js.

(** ** main.js: the quote-aware CSV codec and the file upsert *)

Module Main.
Import Js.

Definition ID : jsstring := js "id".
Definition VISITOR_ID : jsstring := js "visitorId".

(** Lines 72-74 and 81-83: a value that starts and ends with a double quote
    loses them, and its doubled quotes become single ones. *)
Definition unquote (value : jsstring) : jsstring :=
  if startsWith [DQUOTE] value && endsWith [DQUOTE] value
  then unescape_quotes (substring 1 (length value - 1) value)
  else value.

(** Lines 58-84, the scan of one line.  [prev] is [line[j - 1]] ([None] when
    [j === 0]); [cur] holds [line.substring(start, j)], last character first;
    [values] is the array built so far. *)
Fixpoint scan (line : jsstring) (prev : option char) (inQuote : bool)
  (cur : jsstring) (values : list jsstring) : list jsstring :=
  match line with
  | [] => values ++ [unquote (trim (rev cur))]
  | c :: rest =>
      if N.eqb c DQUOTE
         && match prev with None => true | Some p => negb (N.eqb p BACKSLASH) end
      then scan rest (Some c) (negb inQuote) (c :: cur) values
      else if N.eqb c COMMA && negb inQuote
      then scan rest (Some c) inQuote [] (values ++ [unquote (trim (rev cur))])
      else scan rest (Some c) inQuote (c :: cur) values
  end.

Definition tokenize (line : jsstring) : list jsstring :=
  scan line None false [] [].

(** Line 91: [values[index] ? values[index].trim() : ''] *)
Definition cell (values : list jsstring) (index : nat) : jsstring :=
  match nth_error values index with
  | Some s => if truthy (JStr s) then trim s else []
  | None => []
  end.

(** Lines 88-95, the body of [headers.forEach]. *)
Definition row_step (values : list jsstring) (st : Obj * bool)
  (hi : jsstring * nat) : Obj * bool :=
  let '(row, hasId) := st in
  let '(header, index) := hi in
  let key := if str_eqb header VISITOR_ID then ID else header in
  let row' := obj_set key (JStr (cell values index)) row in
  (row', if str_eqb key ID && truthy (obj_get key row') then true else hasId).

Definition build_row (headers : list jsstring) (values : list jsstring)
  : Obj * bool :=
  fold_left (row_step values) (indexed headers) ([], false).

(** Lines 56-101, one iteration of the loop over the data lines: the rows it
    pushes. *)
Definition parse_line (headers : list jsstring) (line : jsstring) : list Obj :=
  let '(row, hasId) := build_row headers (tokenize line) in
  if hasId then [row] else [].

Definition nonblank (line : jsstring) : bool :=
  negb (str_eqb (trim line) []).

(** [parseCsv], lines 47-103. *)
Definition parseCsv (csvText : jsstring) : list Obj :=
  let lines := filter nonblank (split_lines csvText) in
  match lines with
  | [] => []
  | first :: rest =>
      let headers := map trim (split_on COMMA first) in
      flat_map (parse_line headers) rest
  end.

(** Lines 122-129: the field written for a value that is a string, a
    number, [null] or [undefined]. *)
Definition format_value (value : JsVal) : jsstring :=
  let needsQuotes :=
    match value with
    | JStr s => includes [COMMA] s || includes [DQUOTE] s
    | _ => false
    end in
  let formattedValue :=
    match value with
    | JNull | JUndef => []
    | JNum z => number_toString z
    | JStr s => s
    end in
  if needsQuotes then DQUOTE :: escape_quotes formattedValue ++ [DQUOTE]
  else formattedValue.

(** Lines 120-129: one field of a row.  [visitor[header]] is the visitor's
    own property of that name; a visitor that has none reads the member it
    inherits, if [header] names one: a function or the prototype object,
    which is no string and is written as the text of its [toString()],
    without quotes. *)
Definition format_field (header : jsstring) (visitor : Obj) : jsstring :=
  if has_key header visitor then format_value (obj_get header visitor)
  else match inherited_text header with
       | Some text => text
       | None => format_value JUndef
       end.

(** [stringifyCsv], lines 111-135. *)
Definition stringifyCsv (visitors : list Obj) : jsstring :=
  match visitors with
  | [] => []
  | first :: _ =>
      let headers := obj_keys first in
      let headerRow := join COMMA headers in
      let rows :=
        map (fun visitor =>
               join COMMA (map (fun header => format_field header visitor) headers))
            visitors in
      join LF (headerRow :: rows)
  end.

(** *** The handler of [dialog:updateAndSaveCsvFile], lines 162-194 *)

Inductive FsEvent : Type :=
| FsRead (path : jsstring)
| FsWrite (path content : jsstring).

(** What a call of [fs.writeFileSync] comes to: it returns, the file then
    holding the content, or it throws, and the path is left with [remains]
    (the old content, a part of the new one, nothing at all; [None] when
    there is no readable file). *)
Inductive WriteOutcome : Type :=
| Written
| WriteFails (remains : option jsstring).

(** The state the handler works on: the module variable [lastUsedFilePath]
    ([None] is [null]); the files as [fs.readFileSync] reads them, [None]
    for a path it throws on; the calls of [fs.readFileSync] and
    [fs.writeFileSync] made so far, oldest first; and what the file system
    makes of a call of [fs.writeFileSync] with a path and a content. *)
Record MainState : Type := mkMainState {
  lastUsedFilePath : option jsstring;
  files : jsstring -> option jsstring;
  fsLog : list FsEvent;
  writeOutcome : jsstring -> jsstring -> WriteOutcome
}.

Inductive ErrorText : Type :=
| Message (text : jsstring)
| MessageOf (e : Exn).

(** The object the handler returns: [{ success, error }]. *)
Record Reply : Type := mkReply {
  success : bool;
  error : option ErrorText
}.

Definition NO_FILE_SELECTED : jsstring :=
  js "No file has been selected for saving yet.".

(** Line 174, the test of [findIndex]:
    [v.id && updatedVisitor.id && v.id.trim() === updatedVisitor.id.trim()].
    [trim] exists on strings only. *)
Definition same_id (updatedVisitor v : Obj) : res bool :=
  if truthy (obj_get ID v) then
    if truthy (obj_get ID updatedVisitor) then
      match obj_get ID v, obj_get ID updatedVisitor with
      | JStr a, JStr b => Ok (str_eqb (trim a) (trim b))
      | _, _ => Throw TypeError
      end
    else Ok false
  else Ok false.

(** [visitors.findIndex(test)], counting from [i]; [None] is [-1]. *)
Fixpoint findIndex {A : Type} (test : A -> res bool) (l : list A) (i : nat)
  : res (option nat) :=
  match l with
  | [] => Ok None
  | v :: t =>
      match test v with
      | Throw e => Throw e
      | Ok true => Ok (Some i)
      | Ok false => findIndex test t (S i)
      end
  end.

(** [visitors[i] = x] for [i] inside the array. *)
Fixpoint replace_at {A : Type} (i : nat) (x : A) (l : list A) : list A :=
  match l, i with
  | [], _ => []
  | _ :: t, O => x :: t
  | y :: t, S j => y :: replace_at j x t
  end.

(** Lines 173-182: the array handed to [stringifyCsv]. *)
Definition upsert (visitors : list Obj) (updatedVisitor : Obj)
  : res (list Obj) :=
  match findIndex (same_id updatedVisitor) visitors 0 with
  | Throw e => Throw e
  | Ok (Some visitorIndex) => Ok (replace_at visitorIndex updatedVisitor visitors)
  | Ok None => Ok (visitors ++ [updatedVisitor])
  end.

Definition write_file (path content : jsstring)
  (fs : jsstring -> option jsstring) : jsstring -> option jsstring :=
  fun p => if str_eqb p path then Some content else fs p.

(** The files after a call of [fs.writeFileSync] that threw. *)
Definition leave_file (path : jsstring) (remains : option jsstring)
  (fs : jsstring -> option jsstring) : jsstring -> option jsstring :=
  fun p => if str_eqb p path then remains else fs p.

(** The handler.  Everything from the read of line 169 to the write of line
    187 stands in the [try]: a read, an upsert or a write that throws is
    answered by line 192. *)
Definition updateAndSaveCsvFile (st : MainState) (updatedVisitor : Obj)
  : Reply * MainState :=
  match lastUsedFilePath st with
  | None | Some [] =>
      (mkReply false (Some (Message NO_FILE_SELECTED)), st)
  | Some path =>
      let st1 := mkMainState (lastUsedFilePath st) (files st)
                   (fsLog st ++ [FsRead path]) (writeOutcome st) in
      match files st path with
      | None => (mkReply false (Some (MessageOf FileError)), st1)
      | Some fileContent =>
          match upsert (parseCsv fileContent) updatedVisitor with
          | Throw e => (mkReply false (Some (MessageOf e)), st1)
          | Ok visitors =>
              let newCsvContent := stringifyCsv visitors in
              let log := fsLog st1 ++ [FsWrite path newCsvContent] in
              match writeOutcome st path newCsvContent with
              | Written =>
                  (mkReply true None,
                   mkMainState (lastUsedFilePath st)
                     (write_file path newCsvContent (files st))
                     log (writeOutcome st))
              | WriteFails remains =>
                  (mkReply false (Some (MessageOf FileError)),
                   mkMainState (lastUsedFilePath st)
                     (leave_file path remains (files st))
                     log (writeOutcome st))
              end
          end
      end
  end.

End Main.

(** ** script.js: the renderer's store, batch import and search *)

Module Renderer.
Import Js.

(** *** The database collaborator

    [db] is an sql.js database holding the one table [visitors] that
    [initializeDb] creates (lines 516-529).  The library is not part of the
    repository; the model below covers the statements [script.js] sends. *)

Inductive SqlVal : Type :=
| SNull
| SInt (z : Z)
| SText (s : jsstring).

(** A row of [visitors], columns in the order of [CREATE TABLE]. *)
Record Row : Type := mkRow {
  id : SqlVal;
  firstName : SqlVal;
  lastName : SqlVal;
  flatNumber : SqlVal;
  phoneNumber : SqlVal;
  dateOfBirth : SqlVal;
  scannedIdPicUrl : SqlVal;
  isBanned : SqlVal;
  notes : SqlVal;
  generalNotes : SqlVal
}.

(** The statements with parameters that [handleImport] sends. *)
Inductive Stmt : Type :=
| SelectVisitor (params : list JsVal)
| UpdateVisitor (params : list JsVal)
| InsertVisitor (params : list JsVal).

Inductive Message : Type :=
| MsgImported (importedCount : nat)
| MsgImportFailed.

Inductive View : Type :=
| ViewNone
| ViewProfile (visitor : Row)
| ViewResults (visitors : list Row).

(** The renderer's state: the table of [db] and, while a transaction is
    open, the table as it was at [BEGIN]; the globals [visitorsList] and
    [selectedVisitorId]; the database saved under [sqliteDb] in local
    storage; how often [Math.random] was called; the last message box; what
    the search shows. *)
Record State : Type := mkState {
  table : list Row;
  txn : option (list Row);
  visitorsList : list Row;
  localStorage : option (list Row);
  randomCalls : nat;
  messageBox : option Message;
  selectedVisitorId : SqlVal;
  view : View
}.

Definition set_db (t : list Row) (x : option (list Row)) (s : State) : State :=
  mkState t x (visitorsList s) (localStorage s) (randomCalls s)
    (messageBox s) (selectedVisitorId s) (view s).

Definition set_visitorsList (l : list Row) (s : State) : State :=
  mkState (table s) (txn s) l (localStorage s) (randomCalls s)
    (messageBox s) (selectedVisitorId s) (view s).

Definition set_localStorage (l : option (list Row)) (s : State) : State :=
  mkState (table s) (txn s) (visitorsList s) l (randomCalls s)
    (messageBox s) (selectedVisitorId s) (view s).

Definition set_randomCalls (n : nat) (s : State) : State :=
  mkState (table s) (txn s) (visitorsList s) (localStorage s) n
    (messageBox s) (selectedVisitorId s) (view s).

Definition set_messageBox (m : option Message) (s : State) : State :=
  mkState (table s) (txn s) (visitorsList s) (localStorage s) (randomCalls s)
    m (selectedVisitorId s) (view s).

Definition set_search (sel : SqlVal) (v : View) (s : State) : State :=
  mkState (table s) (txn s) (visitorsList s) (localStorage s) (randomCalls s)
    (messageBox s) sel v.

(** Code that reads and writes the state and may throw. *)
Definition M (A : Type) : Type := State -> res A * State.

Definition ret {A : Type} (a : A) : M A := fun s => (Ok a, s).

Definition throw {A : Type} (e : Exn) : M A := fun s => (Throw e, s).

Definition bind {A B : Type} (m : M A) (k : A -> M B) : M B :=
  fun s => match m s with
           | (Ok a, s') => k a s'
           | (Throw e, s') => (Throw e, s')
           end.

(** [try { body } catch (error) { handler }] *)
Definition try_catch {A : Type} (body : M A) (handler : Exn -> M A) : M A :=
  fun s => match body s with
           | (Ok a, s') => (Ok a, s')
           | (Throw e, s') => handler e s'
           end.

Notation "x <- m ;; k" := (bind m (fun x => k))
  (at level 61, m at next level, right associativity).
Notation "m ;;; k" := (bind m (fun _ => k))
  (at level 61, right associativity).

(** How sql.js binds a parameter: strings, numbers and [null] have an SQL
    value, [undefined] has none and the call throws. *)
Definition bind_value (v : JsVal) : res SqlVal :=
  match v with
  | JStr s => Ok (SText s)
  | JNum z => Ok (SInt z)
  | JNull => Ok SNull
  | JUndef => Throw BindError
  end.

Fixpoint bind_all (params : list JsVal) : res (list SqlVal) :=
  match params with
  | [] => Ok []
  | v :: rest =>
      match bind_value v with
      | Throw e => Throw e
      | Ok x => match bind_all rest with
                | Throw e => Throw e
                | Ok xs => Ok (x :: xs)
                end
      end
  end.

(** A column declared [TEXT] stores an integer as its decimal text. *)
Definition text_affinity (v : SqlVal) : SqlVal :=
  match v with
  | SInt z => SText (number_toString z)
  | _ => v
  end.

(** [column = value] in a [WHERE] clause: never true of [NULL]. *)
Definition sql_eqb (a b : SqlVal) : bool :=
  match a, b with
  | SText x, SText y => str_eqb x y
  | SInt x, SInt y => Z.eqb x y
  | _, _ => false
  end.

Section Engine.

(** [fault stmt] holds when the database engine throws on [stmt] for a
    reason of its own, before the statement has any effect. *)
Variable fault : Stmt -> bool.

(** [random16 n] is the value of [Math.random() * 16 | 0] at the call number
    [n] of [Math.random], read modulo 16. *)
Variable random16 : nat -> N.

(** [db.run("BEGIN TRANSACTION;")] *)
Definition run_begin : M unit :=
  fun s => match txn s with
           | Some _ => (Throw TransactionError, s)
           | None => (Ok tt, set_db (table s) (Some (table s)) s)
           end.

(** [db.run("COMMIT;")] *)
Definition run_commit : M unit :=
  fun s => match txn s with
           | None => (Throw TransactionError, s)
           | Some _ => (Ok tt, set_db (table s) None s)
           end.

(** [db.run("ROLLBACK;")] *)
Definition run_rollback : M unit :=
  fun s => match txn s with
           | None => (Throw TransactionError, s)
           | Some saved => (Ok tt, set_db saved None s)
           end.

(** [db.exec("SELECT * FROM visitors WHERE id = ?", params)]: the rows
    found. *)
Definition exec_select (params : list JsVal) : M (list Row) :=
  fun s =>
    if fault (SelectVisitor params) then (Throw EngineFault, s)
    else match bind_all params with
         | Throw e => (Throw e, s)
         | Ok [key] =>
             (Ok (filter (fun r => sql_eqb (id r) (text_affinity key)) (table s)), s)
         | Ok _ => (Throw BindError, s)
         end.

(** [db.run("UPDATE visitors SET firstName = ?, ..., notes = ? WHERE id = ?",
    params)], lines 406-419. *)
Definition run_update (params : list JsVal) : M unit :=
  fun s =>
    if fault (UpdateVisitor params) then (Throw EngineFault, s)
    else match bind_all params with
         | Throw e => (Throw e, s)
         | Ok [fn; ln; flat; phone; dob; pic; banned; nts; key] =>
             (Ok tt,
              set_db
                (map (fun r =>
                        if sql_eqb (id r) (text_affinity key)
                        then mkRow (id r) (text_affinity fn) (text_affinity ln)
                               (text_affinity flat) (text_affinity phone)
                               (text_affinity dob) (text_affinity pic)
                               banned (text_affinity nts) (generalNotes r)
                        else r)
                     (table s))
                (txn s) s)
         | Ok _ => (Throw BindError, s)
         end.

(** [db.run("INSERT INTO visitors (id, ..., generalNotes) VALUES (?, ...)",
    params)], lines 422-436.  [id] is the primary key: a second row with
    the same key is refused. *)
Definition run_insert (params : list JsVal) : M unit :=
  fun s =>
    if fault (InsertVisitor params) then (Throw EngineFault, s)
    else match bind_all params with
         | Throw e => (Throw e, s)
         | Ok [key; fn; ln; flat; phone; dob; pic; banned; nts; gnotes] =>
             if existsb (fun r => sql_eqb (id r) (text_affinity key)) (table s)
             then (Throw ConstraintError, s)
             else
               (Ok tt,
                set_db
                  (table s ++
                   [mkRow (text_affinity key) (text_affinity fn) (text_affinity ln)
                      (text_affinity flat) (text_affinity phone)
                      (text_affinity dob) (text_affinity pic)
                      banned (text_affinity nts) (text_affinity gnotes)])
                  (txn s) s)
         | Ok _ => (Throw BindError, s)
         end.

(** [saveDbToLocalStorage], lines 50-55, with room left in the local
    storage: [localStorage.setItem] returns.  (A store that is full makes it
    throw; that failure is not part of the model.) *)
Definition saveDbToLocalStorage : M unit :=
  fun s => (Ok tt, set_localStorage (Some (table s)) s).

(** A text as sql.js hands it back to JavaScript: the engine keeps every
    code unit, but the conversion of the stored bytes to a string stops at
    the first U+0000. *)
Fixpoint read_text (s : jsstring) : jsstring :=
  match s with
  | [] => []
  | c :: t => if N.eqb c 0 then [] else c :: read_text t
  end.

Definition read_value (v : SqlVal) : SqlVal :=
  match v with
  | SText s => SText (read_text s)
  | _ => v
  end.

(** A row of the result of [db.exec("SELECT * FROM visitors")]. *)
Definition read_row (r : Row) : Row :=
  mkRow (read_value (id r)) (read_value (firstName r)) (read_value (lastName r))
    (read_value (flatNumber r)) (read_value (phoneNumber r))
    (read_value (dateOfBirth r)) (read_value (scannedIdPicUrl r))
    (read_value (isBanned r)) (read_value (notes r))
    (read_value (generalNotes r)).

(** [loadVisitorsFromDb], lines 39-43: [visitorsList] holds the rows of the
    table as they are read back. *)
Definition loadVisitorsFromDb : M unit :=
  fun s => (Ok tt, set_visitorsList (map read_row (table s)) s).

Definition showMessageBox (m : Message) : M unit :=
  fun s => (Ok tt, set_messageBox (Some m) s).

(** *** [uuidv4], lines 577-582 *)

Definition UUID_TEMPLATE : jsstring := js "xxxxxxxx-xxxx-4xxx-yxxx-xxxxxxxxxxxx".

Definition CHAR_x : char := 120%N.
Definition CHAR_y : char := 121%N.

(** The replacement of one [x] or [y]: [r & 0x3 | 0x8] is [(r & 3) | 8]. *)
Definition uuid_digit (c : char) (calls : nat) : jsstring :=
  let r := (random16 calls mod 16)%N in
  let v := if N.eqb c CHAR_x then r else N.lor (N.land r 3) 8 in
  toString16 v.

(** [template.replace(/[xy]/g, ...)], one call of [Math.random] for each
    match. *)
Fixpoint uuid_replace (template : jsstring) (calls : nat) : jsstring * nat :=
  match template with
  | [] => ([], calls)
  | c :: t =>
      if N.eqb c CHAR_x || N.eqb c CHAR_y
      then let '(rest, calls') := uuid_replace t (S calls) in
           (uuid_digit c calls ++ rest, calls')
      else let '(rest, calls') := uuid_replace t calls in
           (c :: rest, calls')
  end.

Definition uuidv4 : M jsstring :=
  fun s => let '(u, calls') := uuid_replace UUID_TEMPLATE (randomCalls s) in
           (Ok u, set_randomCalls calls' s).

(** *** The renderer's [parseCsv], lines 348-360 *)

Definition parse_row (headers : list jsstring) (line : jsstring) : Obj :=
  let values := map trim (split_on COMMA line) in
  fold_left
    (fun visitor hi =>
       obj_set (fst hi)
         (match nth_error values (snd hi) with
          | Some value => JStr value
          | None => JUndef
          end)
         visitor)
    (indexed headers) [].

Definition parseCsv (csvText : jsstring) : list Obj :=
  let lines := split_on LF (trim csvText) in
  let headers := map trim (split_on COMMA (hd [] lines)) in
  map (parse_row headers) (tl lines).

(** *** [handleImport], lines 386-450 *)

Definition field (name : string) (visitor : Obj) : JsVal :=
  obj_get (js name) visitor.

(** Line 400: [visitor.id || uuidv4()] *)
Definition resolve_id (visitor : Obj) : M JsVal :=
  if truthy (field "id" visitor) then ret (field "id" visitor)
  else u <- uuidv4 ;; ret (JStr u).

(** Line 401 *)
Definition resolve_isBanned (visitor : Obj) : JsVal :=
  if strict_eqb (field "isBanned" visitor) (JStr (js "true"))
     || strict_eqb (field "isBanned" visitor) (JStr (js "1"))
  then JNum 1 else JNum 0.

(** Lines 396-438, the body of the loop: [false] when the row is skipped by
    [continue], [true] when [importedCount] is incremented. *)
Definition import_visitor (visitor : Obj) : M bool :=
  if negb (truthy (field "firstName" visitor))
     || negb (truthy (field "lastName" visitor))
  then ret false
  else
    visitorId <- resolve_id visitor ;;
    let isBanned := resolve_isBanned visitor in
    existingVisitor <- exec_select [visitorId] ;;
    (if (0 <? length existingVisitor)%nat
     then run_update
            [field "firstName" visitor; field "lastName" visitor;
             field "flatNumber" visitor; field "phoneNumber" visitor;
             field "dateOfBirth" visitor; field "scannedIdPicUrl" visitor;
             isBanned; field "notes" visitor; visitorId]
     else run_insert
            [visitorId; field "firstName" visitor; field "lastName" visitor;
             field "flatNumber" visitor; field "phoneNumber" visitor;
             field "dateOfBirth" visitor; field "scannedIdPicUrl" visitor;
             isBanned; field "notes" visitor; JStr []]) ;;;
    ret true.

(** Lines 395-439, [for (const visitor of importedVisitors)]. *)
Fixpoint import_loop (importedVisitors : list Obj) (importedCount : nat)
  : M nat :=
  match importedVisitors with
  | [] => ret importedCount
  | visitor :: rest =>
      accepted <- import_visitor visitor ;;
      import_loop rest (if accepted then S importedCount else importedCount)
  end.

Definition handleImport (csvData : jsstring) : M unit :=
  if negb (truthy (JStr csvData)) then ret tt
  else
    let importedVisitors := parseCsv csvData in
    try_catch
      (run_begin ;;;
       importedCount <- import_loop importedVisitors 0 ;;
       run_commit ;;;
       saveDbToLocalStorage ;;;
       loadVisitorsFromDb ;;;
       showMessageBox (MsgImported importedCount))
      (fun _ => run_rollback ;;; showMessageBox MsgImportFailed).

End Engine.

(** *** [handleSearch], lines 228-261 *)

(** [text.split(/\s+/)]: the pieces between the runs of white space. [cur]
    holds the current piece, last character first; [inSep] tells that the
    previous character was white space. *)
Fixpoint split_ws_from (cur : jsstring) (inSep : bool) (s : jsstring)
  : list jsstring :=
  match s with
  | [] => [rev cur]
  | c :: t =>
      if is_ws c
      then if inSep then split_ws_from [] true t
           else rev cur :: split_ws_from [] true t
      else split_ws_from (c :: cur) false t
  end.

Definition split_ws (s : jsstring) : list jsstring := split_ws_from [] false s.

(** Lines 245-246: [name && name.toLowerCase().includes(term)] for a column
    value read back from the database. *)
Definition name_includes (name : SqlVal) (term : jsstring) : res bool :=
  match name with
  | SNull => Ok false
  | SText [] => Ok false
  | SText s => Ok (includes term (toLowerCase s))
  | SInt z => if Z.eqb z 0 then Ok false else Throw TypeError
  end.

Definition matches_term (visitor : Row) (term : jsstring) : res bool :=
  match name_includes (firstName visitor) term with
  | Throw e => Throw e
  | Ok true => Ok true
  | Ok false => name_includes (lastName visitor) term
  end.

(** [terms.every(test)] *)
Fixpoint every {A : Type} (test : A -> res bool) (l : list A) : res bool :=
  match l with
  | [] => Ok true
  | x :: t =>
      match test x with
      | Throw e => Throw e
      | Ok false => Ok false
      | Ok true => every test t
      end
  end.

(** [list.filter(test)] *)
Fixpoint filter_res {A : Type} (test : A -> res bool) (l : list A)
  : res (list A) :=
  match l with
  | [] => Ok []
  | x :: t =>
      match test x with
      | Throw e => Throw e
      | Ok b =>
          match filter_res test t with
          | Throw e => Throw e
          | Ok r => Ok (if b then x :: r else r)
          end
      end
  end.

(** [list.find(test)]; [None] is [undefined]. *)
Fixpoint find_res {A : Type} (test : A -> res bool) (l : list A)
  : res (option A) :=
  match l with
  | [] => Ok None
  | x :: t =>
      match test x with
      | Throw e => Throw e
      | Ok true => Ok (Some x)
      | Ok false => find_res test t
      end
  end.

(** Line 251: the template literal compared with [searchTerm]; [toLowerCase]
    exists on strings only. *)
Definition is_exact (searchTerm : jsstring) (v : Row) : res bool :=
  match firstName v, lastName v with
  | SText f, SText l =>
      Ok (str_eqb (toLowerCase f ++ SPACE :: toLowerCase l) searchTerm)
  | _, _ => Throw TypeError
  end.

(** [handleSearch(e)], where [value] is [e.target.value]. *)
Definition handleSearch (value : jsstring) : M unit :=
  let searchTerm := trim (toLowerCase value) in
  if (length searchTerm =? 0)%nat
  then fun s => (Ok tt, set_search SNull ViewNone s)
  else
    let searchTerms :=
      filter (fun term => (0 <? length term)%nat) (split_ws searchTerm) in
    fun s =>
      match filter_res (fun visitor => every (matches_term visitor) searchTerms)
              (visitorsList s) with
      | Throw e => (Throw e, s)
      | Ok foundVisitors =>
          match find_res (is_exact searchTerm) foundVisitors with
          | Throw e => (Throw e, s)
          | Ok (Some exactMatch) =>
              (Ok tt, set_search (id exactMatch) (ViewProfile exactMatch) s)
          | Ok None =>
              (Ok tt, set_search (selectedVisitorId s) (ViewResults foundVisitors) s)
          end
      end.

End Renderer.

(** ** Vocabulary of the statements *)

Module Spec.
Import Js.

(** The double quote as a one-character string, for the texts below (written
    by concatenation). *)
Definition dq : jsstring := [DQUOTE].

(** The header and the data line of the quoting example. *)
Definition quoting_line : jsstring :=
  js "1," ++ dq ++ js "x" ++ dq ++ dq ++ js "y" ++ dq ++ js ",2".

Definition quoting_text (header : string) : jsstring :=
  js header ++ [LF] ++ quoting_line.

(** The line of the same example whose second field holds a comma. *)
Definition comma_line : jsstring :=
  js "a," ++ dq ++ js "b,c" ++ dq ++ js ",d".

(** Two rows of the file carry the same id as far as line 174 of main.js can
    tell: both ids are non-empty strings, equal once trimmed. *)
Definition ids_match (a b : Obj) : bool :=
  match obj_get Main.ID a, obj_get Main.ID b with
  | JStr x, JStr y =>
      truthy (JStr x) && truthy (JStr y) && str_eqb (trim x) (trim y)
  | _, _ => false
  end.

(** No two rows carry the same id. *)
Definition distinct_ids (rows : list Obj) : Prop :=
  ForallOrdPairs (fun a b => ids_match a b = false) rows.

(** No file path is remembered: [lastUsedFilePath] is [null] (or the empty
    string, which line 163 cannot tell from it). *)
Definition no_path_remembered (st : Main.MainState) : Prop :=
  Main.lastUsedFilePath st = None \/ Main.lastUsedFilePath st = Some [].

(** A file of two rows, the state of the main process that remembers (or
    not) its path, and a record for the second row. *)
Definition example_path : jsstring := js "visitors.csv".

Definition example_file : jsstring :=
  js "id,firstName" ++ [LF] ++ js "1,Ann" ++ [LF] ++ js "2,Bob".

Definition example_main_state (remembered : option jsstring) : Main.MainState :=
  Main.mkMainState remembered
    (fun p => if str_eqb p example_path then Some example_file else None) []
    (fun _ _ => Main.Written).

Definition example_update : Obj :=
  [(js "id", JStr (js "2")); (js "firstName", JStr (js "Rob"))].

(** *** The round trip of the codec *)

(** A backslash stands right before a double quote somewhere in [s]. *)
Fixpoint backslash_before_quote (s : jsstring) : bool :=
  match s with
  | [] => false
  | c1 :: r =>
      match r with
      | c2 :: _ =>
          (N.eqb c1 BACKSLASH && N.eqb c2 DQUOTE) || backslash_before_quote r
      | [] => false
      end
  end.

(** No field of the record, as [stringifyCsv] writes it, has a backslash
    right before a double quote: no value has a backslash right before a
    double quote of its own, and no value that is written in quotes ends
    with a backslash. *)
Definition written_safely (r : Obj) : Prop :=
  forall k v, In (k, v) r -> backslash_before_quote (Main.format_value v) = false.

(** The record has a non-empty id. *)
Definition has_own_id (r : Obj) : Prop := truthy (obj_get Main.ID r) = true.

(** A string that [trim] leaves as it is: [trimStart] takes nothing from it
    nor from its mirror image. *)
Definition tight (s : jsstring) : Prop :=
  trimStart s = s /\ trimStart (rev s) = rev s.

(** The flag [inQuote] after the scan of [w], every double quote of [w]
    toggling it. *)
Fixpoint toggles (q : bool) (w : jsstring) : bool :=
  match w with
  | [] => q
  | c :: t => toggles (if N.eqb c DQUOTE then negb q else q) t
  end.

(** Every comma of [w] is met with [inQuote] set. *)
Fixpoint commas_protected (q : bool) (w : jsstring) : bool :=
  match w with
  | [] => true
  | c :: t =>
      if N.eqb c DQUOTE then commas_protected (negb q) t
      else if N.eqb c COMMA then q && commas_protected q t
      else commas_protected q t
  end.

(** [line[j - 1]] after the scan of [w]. *)
Definition prev_after (prev : option char) (w : jsstring) : option char :=
  fold_left (fun _ c => Some c) w prev.

(** No double quote of [w] is taken for an escaped one, [prev] being the
    character before [w]. *)
Definition quotes_count (prev : option char) (w : jsstring) : Prop :=
  backslash_before_quote (match prev with Some p => p :: w | None => w end) = false.

(** A field of a line that the scan of lines 63-78 reads as one value. *)
Definition field_ok (f : jsstring) : Prop :=
  backslash_before_quote f = false
  /\ commas_protected false f = true /\ toggles false f = false.

(** The last character of [s], if any, is no carriage return. *)
Definition ends_ok (s : jsstring) : Prop :=
  match rev s with
  | c :: _ => c <> CR
  | [] => True
  end.

(** The strings a parsed record holds, in the order of its names. *)
Definition texts (r : Obj) : list jsstring :=
  map (fun kv => match snd kv with JStr s => s | _ => [] end) r.

(** Some row of the list carries a non-empty string under [id]. *)
Definition brings_id (r : Obj) : bool :=
  existsb (fun kv => str_eqb (fst kv) Main.ID && truthy (snd kv)) r.

(** A new property [k] is created after the property [p]. *)
Definition stays_before (p k : jsstring) : bool :=
  match array_index k with
  | None => true
  | Some n => match array_index p with
              | Some m => (m <? n)%N
              | None => false
              end
  end.

(** The order [Object.keys] keeps: no name twice, no [__proto__], and each
    name after those it is created after. *)
Definition key_order (keys : list jsstring) : Prop :=
  NoDup keys /\ ~ In PROTO keys
  /\ ForallOrdPairs (fun p k => stays_before p k = true) keys.

(** The values a parsed record holds: strings without line feed that [trim]
    leaves as they are. *)
Definition parsed_value (v : JsVal) : Prop :=
  exists s, v = JStr s /\ tight s /\ Forall (fun c => c <> LF) s.

(** The names a parsed record has: without comma or line feed, left as they
    are by [trim], and never [visitorId]. *)
Definition parsed_key (k : jsstring) : Prop :=
  Forall (fun c => c <> COMMA /\ c <> LF) k /\ tight k /\ k <> Main.VISITOR_ID.

(** A header as [parseCsv] of main.js holds it after line 53. *)
Definition parsed_header (h : jsstring) : Prop :=
  Forall (fun c => c <> COMMA /\ c <> LF) h /\ tight h.

(** Line 90: the property name for a header. *)
Definition key_of_header (header : jsstring) : jsstring :=
  if str_eqb header Main.VISITOR_ID then Main.ID else header.

(** How many headers line 90 maps to [id]. *)
Definition id_columns (headers : list jsstring) : nat :=
  length (filter (fun h => str_eqb (key_of_header h) Main.ID) headers).

(** A record of a parsed file whose records have the names [keys]. *)
Definition parsed_record (keys : list jsstring) (r : Obj) : Prop :=
  map fst r = keys /\ Forall (fun kv => parsed_value (snd kv)) r.

(** A file whose second field holds a backslash right before a double
    quote. *)
Definition escaped_quote_text : jsstring :=
  js "id,x,y" ++ [LF] ++ js "1," ++ [BACKSLASH] ++ dq ++ js ",c".

(** A legacy file that has both a [visitorId] and an [id] column, and a row
    that fills only the first of them. *)
Definition two_id_columns : jsstring :=
  js "visitorId,id,firstName,lastName" ++ [LF] ++ js "v1,,Jane,Doe".

(** A file whose row has no id. *)
Definition row_without_id : jsstring :=
  js "id,firstName,lastName" ++ [LF] ++ js ",Jane,Doe".

End Spec.

(** ** Vocabulary of the statements about the batch import *)

Module ImportSpec.
Import Js Renderer.

(** The SQL value a bound parameter has ([undefined] has none: [SNull] is
    a placeholder that no statement ever sees). *)
Definition sql_of (v : JsVal) : SqlVal :=
  match v with
  | JStr s => SText s
  | JNum z => SInt z
  | JNull | JUndef => SNull
  end.

(** The key a statement looks up for the id [visitorId]. *)
Definition key_of (visitorId : JsVal) : SqlVal := text_affinity (sql_of visitorId).

(** The row that holds the columns of [visitor] under the given [id] and
    [generalNotes]: what lines 406-419 leave in place of a row found, and
    what lines 422-436 add. *)
Definition imported_row (key gnotes : SqlVal) (visitor : Obj) : Row :=
  mkRow key
    (text_affinity (sql_of (field "firstName" visitor)))
    (text_affinity (sql_of (field "lastName" visitor)))
    (text_affinity (sql_of (field "flatNumber" visitor)))
    (text_affinity (sql_of (field "phoneNumber" visitor)))
    (text_affinity (sql_of (field "dateOfBirth" visitor)))
    (text_affinity (sql_of (field "scannedIdPicUrl" visitor)))
    (sql_of (resolve_isBanned visitor))
    (text_affinity (sql_of (field "notes" visitor)))
    gnotes.

Definition has_id (key : SqlVal) (t : list Row) : bool :=
  existsb (fun r => sql_eqb (id r) key) t.

(** The table after the upsert of [visitor] under [key]. *)
Definition upsert_row (key : SqlVal) (visitor : Obj) (t : list Row) : list Row :=
  if has_id key t
  then map (fun r => if sql_eqb (id r) key
                     then imported_row (id r) (generalNotes r) visitor
                     else r) t
  else t ++ [imported_row key (SText []) visitor].

(** Line 396 lets the row through. *)
Definition accepted (visitor : Obj) : bool :=
  truthy (field "firstName" visitor) && truthy (field "lastName" visitor).

(** One turn of the loop on a row that brings its own id, as a function of
    the table. *)
Definition import_step (t : list Row) (visitor : Obj) : list Row :=
  if accepted visitor
  then upsert_row (key_of (field "id" visitor)) visitor t
  else t.

(** What such a turn does to one row of a table that holds the id. *)
Definition reapply (r : Row) (visitor : Obj) : Row :=
  if accepted visitor && sql_eqb (id r) (key_of (field "id" visitor))
  then imported_row (id r) (generalNotes r) visitor
  else r.

(** Every row of the batch that line 396 lets through brings its id. *)
Definition rows_bring_ids (visitors : list Obj) : Prop :=
  forall visitor, In visitor visitors -> accepted visitor = true ->
                  truthy (field "id" visitor) = true.

(** A cell of the renderer's [parseCsv] is a string or [undefined]. *)
Definition string_or_undefined (v : JsVal) : Prop :=
  v = JUndef \/ exists s, v = JStr s.

(** The part of the state the import does not touch before its commit. *)
Definition same_frame (s s' : State) : Prop :=
  txn s' = txn s /\ visitorsList s' = visitorsList s
  /\ localStorage s' = localStorage s /\ messageBox s' = messageBox s
  /\ selectedVisitorId s' = selectedVisitorId s /\ view s' = view s.

(** The shape of a version 4 UUID: the characters of the template, a
    hexadecimal digit for each [x] and one of [8], [9], [a], [b] for [y]. *)
Definition is_hex (c : char) : bool :=
  ((48 <=? c) && (c <=? 57) || (97 <=? c) && (c <=? 102))%N.

Definition is_variant (c : char) : bool :=
  ((c =? 56) || (c =? 57) || (c =? 97) || (c =? 98))%N.

Fixpoint fits_template (template s : jsstring) : bool :=
  match template, s with
  | [], [] => true
  | c :: t, d :: s' =>
      (if N.eqb c CHAR_x then is_hex d
       else if N.eqb c CHAR_y then is_variant d
       else N.eqb c d)
      && fits_template t s'
  | _, _ => false
  end.

Definition is_uuid_v4 (s : jsstring) : bool := fits_template UUID_TEMPLATE s.

(** Example data: a full header, rows with and without an id, an engine
    without faults, a source of random digits, an empty renderer. *)
Definition HEADER : jsstring :=
  js "id,firstName,lastName,flatNumber,phoneNumber,dateOfBirth,scannedIdPicUrl,isBanned,notes".

Definition no_fault (stmt : Stmt) : bool := false.

Definition counting (n : nat) : N := N.of_nat n.

Definition empty_state : State :=
  mkState [] None [] None 0 None SNull ViewNone.

Definition csv_without_id : jsstring :=
  HEADER ++ [LF] ++ js ",Jane,Doe,12,555,1990-01-01,jane.png,0,none".

Definition csv_with_ids : jsstring :=
  HEADER ++ [LF] ++ js "v1,Jane,Doe,12,555,1990-01-01,jane.png,0,none"
         ++ [LF] ++ js "v2,,Smith,7,556,1991-01-01,x.png,0,none"
         ++ [LF] ++ js "v3,Janet,Smith,7,556,1991-01-01,janet.png,1,late".

(** The same rows, the last one cut short: its cells from [flatNumber] on
    are [undefined]. *)
Definition csv_short_row : jsstring :=
  HEADER ++ [LF] ++ js "v1,Jane,Doe,12,555,1990-01-01,jane.png,0,none"
         ++ [LF] ++ js "v2,,Smith,7,556,1991-01-01,x.png,0,none"
         ++ [LF] ++ js "v3,Janet,Smith".

(** A file with a [generalNotes] column: its first row names the id [v1],
    its second row an id of its own. *)
Definition csv_with_general_notes : jsstring :=
  HEADER ++ js ",generalNotes"
    ++ [LF] ++ js "v1,Jane,Doe,12,555,1990-01-01,jane.png,0,none,from the file"
    ++ [LF] ++ js "v4,Nora,New,3,557,1992-01-01,nora.png,0,none,from the file too".

(** A file whose first row brings the id [v1] and whose second row brings
    none. *)
Definition csv_one_without_id : jsstring :=
  HEADER ++ [LF] ++ js "v1,Jane,Doe,12,555,1990-01-01,jane.png,0,none"
         ++ [LF] ++ js ",Nora,New,3,557,1992-01-01,nora.png,0,none".

Definition jane_doe (other : SqlVal) : Row :=
  mkRow (SText (js "v1")) (SText (js "Jane")) (SText (js "Doe"))
    other other other other (SInt 0) other other.

Definition janet_smith (other : SqlVal) : Row :=
  mkRow (SText (js "v3")) (SText (js "Janet")) (SText (js "Smith"))
    other other other other (SInt 0) other other.

(** A store that holds the visitor [v1] with general notes. *)
Definition store_with_notes : State :=
  mkState [jane_doe (SText (js "keep me"))] None [jane_doe (SText (js "keep me"))]
    None 0 None SNull ViewNone.

End ImportSpec.

(** ** main.js: the handler of [dialog:readCsvFile] *)

Module Dialog.
Import Js Main.

(** What [dialog.showOpenDialog] resolves to. *)
Record OpenDialogReturn : Type := mkOpenDialogReturn {
  canceled : bool;
  filePaths : list jsstring
}.

(** The handler, lines 139-158.  [picked] is the outcome of the call of
    [dialog.showOpenDialog]; the handler answers the content of the file, or
    [null] (here [None]). *)
Definition readCsvFile (st : MainState) (picked : res OpenDialogReturn)
  : option jsstring * MainState :=
  match picked with
  | Throw _ => (None, st)
  | Ok d =>
      if canceled d || (length (filePaths d) =? 0)%nat then (None, st)
      else
        let filePath := hd [] (filePaths d) in
        let st1 := mkMainState (Some filePath) (files st)
                     (fsLog st ++ [FsRead filePath]) (writeOutcome st) in
        match files st filePath with
        | Some fileContent => (Some fileContent, st1)
        | None => (None, st1)
        end
  end.

End Dialog.

(** ** script.js: the objects of [visitorsList] and the export format *)

Module Records.
Import Js Renderer.

(** The JavaScript value sql.js hands back for a column value. *)
Definition js_of (v : SqlVal) : JsVal :=
  match v with
  | SNull => JNull
  | SInt z => JNum z
  | SText s => JStr s
  end.

(** One element of the array [db.exec] returns. *)
Record QueryResult : Type := mkQueryResult {
  columns : list jsstring;
  values : list (list JsVal)
}.

(** Lines 27-31: the object built for one row; [row[index]] is [undefined]
    past the end of the row. *)
Definition row_object (columns : list jsstring) (row : list JsVal) : Obj :=
  fold_left (fun obj ci => obj_set (fst ci) (nth (snd ci) row JUndef) obj)
    (indexed columns) [].

(** [sqlQueryToObjects], lines 22-33; [None] is a [res] that is [null] or
    [undefined]. *)
Definition sqlQueryToObjects (res : option (list QueryResult)) : list Obj :=
  match res with
  | None | Some [] => []
  | Some (first :: _) => map (row_object (columns first)) (values first)
  end.

(** Line 370 *)
Definition EXPORT_HEADERS : list jsstring :=
  [js "id"; js "firstName"; js "lastName"; js "flatNumber"; js "phoneNumber";
   js "dateOfBirth"; js "scannedIdPicUrl"; js "isBanned"; js "notes";
   js "generalNotes"].

(** Line 375: every value is written between double quotes, its own double
    quotes doubled. *)
Definition quoted (value : JsVal) : jsstring :=
  DQUOTE ::
  match value with
  | JNull | JUndef => []
  | JNum z => escape_quotes (number_toString z)
  | JStr s => escape_quotes s
  end ++ [DQUOTE].

(** [generateCsv], lines 368-379; [None] is an argument that is [null] or
    [undefined]. *)
Definition generateCsv (visitorsToExport : option (list Obj)) : jsstring :=
  match visitorsToExport with
  | None | Some [] => []
  | Some visitors =>
      let headers := EXPORT_HEADERS in
      let headerRow := join COMMA headers in
      let rows :=
        map (fun visitor =>
               join COMMA (map (fun header => quoted (obj_get header visitor)) headers))
            visitors in
      join LF (headerRow :: rows)
  end.

End Records.

(** ** script.js: ban, unban, general notes and the export of one visitor *)

Module Actions.
Import Js Renderer Records.

(** The statements with parameters that [updateVisitorStatus] and
    [updateGeneralNotes] send. *)
Inductive StoreStmt : Type :=
| UpdateStatus (isBanned : Z) (notes visitorId : JsVal)
| UpdateGeneralNotes (notes visitorId : JsVal).

(** The text of a message box: a literal of the source, or the template of
    line 487 around the error the main process answered. *)
Inductive Shown : Type :=
| Literal (text : jsstring)
| ExportFailed (error : option Main.ErrorText).

Inductive Kind : Type :=
| KSuccess
| KError.

(** The calls into the page that show data: [showMessageBox(message, type)]
    and [renderFoundProfile(visitor)], [None] being [undefined].  The modals
    and their inputs are not part of the model: the functions that open and
    hide them leave no trace here. *)
Inductive PageCall : Type :=
| ShowMessageBox (message : Shown) (type : Kind)
| RenderFoundProfile (visitor : option Row).

(** Line 9 *)
Definition UNBAN_PASSWORD : jsstring := [].

(** [isVisitorBanned], lines 66-68, as a condition. *)
Definition isVisitorBanned (visitor : option Row) : bool :=
  match visitor with
  | None => false
  | Some v => strict_eqb (js_of (isBanned v)) (JNum 1)
  end.

(** [visitorsList.find(v => v.id === visitorId)] *)
Definition find_visitor (visitorId : JsVal) (l : list Row) : option Row :=
  find (fun v => strict_eqb (js_of (id v)) visitorId) l.

Section Engine.

(** [fault stmt] holds when the database engine throws on [stmt] for a
    reason of its own, before the statement has any effect. *)
Variable fault : StoreStmt -> bool.

(** [db.run("UPDATE visitors SET isBanned = ?, notes = ? WHERE id = ?",
    [isBanned, notes, visitorId])], line 275; [isBanned] is a number. *)
Definition run_update_status (isBanned : Z) (notes visitorId : JsVal) : M unit :=
  fun s =>
    if fault (UpdateStatus isBanned notes visitorId) then (Throw EngineFault, s)
    else match bind_all [notes; visitorId] with
         | Throw e => (Throw e, s)
         | Ok [nts; key] =>
             (Ok tt,
              set_db
                (map (fun r =>
                        if sql_eqb (id r) (text_affinity key)
                        then mkRow (id r) (firstName r) (lastName r)
                               (flatNumber r) (phoneNumber r) (dateOfBirth r)
                               (scannedIdPicUrl r)
                               (SInt isBanned) (text_affinity nts) (generalNotes r)
                        else r)
                     (table s))
                (txn s) s)
         | Ok _ => (Throw BindError, s)
         end.

(** [db.run("UPDATE visitors SET generalNotes = ? WHERE id = ?",
    [notes, visitorId])], line 300. *)
Definition run_update_generalNotes (notes visitorId : JsVal) : M unit :=
  fun s =>
    if fault (UpdateGeneralNotes notes visitorId) then (Throw EngineFault, s)
    else match bind_all [notes; visitorId] with
         | Throw e => (Throw e, s)
         | Ok [nts; key] =>
             (Ok tt,
              set_db
                (map (fun r =>
                        if sql_eqb (id r) (text_affinity key)
                        then mkRow (id r) (firstName r) (lastName r)
                               (flatNumber r) (phoneNumber r) (dateOfBirth r)
                               (scannedIdPicUrl r)
                               (Renderer.isBanned r) (Renderer.notes r) (text_affinity nts)
                        else r)
                     (table s))
                (txn s) s)
         | Ok _ => (Throw BindError, s)
         end.

(** [updateVisitorStatus(visitorId, newStatus)], lines 269-286; [isBanned]
    tells whether [newStatus.isBanned] is truthy, [notes] is
    [newStatus.notes].  The result lists the calls into the page, oldest
    first. *)
Definition updateVisitorStatus (visitorId : JsVal) (isBanned : bool)
  (notes : JsVal) (s : State) : list PageCall * State :=
  if negb (truthy visitorId) then ([], s)
  else
    let isBanned' := if isBanned then 1%Z else 0%Z in
    let notes' := if truthy notes then notes else JStr [] in
    match (run_update_status isBanned' notes' visitorId ;;;
           saveDbToLocalStorage ;;;
           loadVisitorsFromDb) s with
    | (Ok _, s') =>
        ([RenderFoundProfile (find_visitor visitorId (visitorsList s'));
          ShowMessageBox (Literal (js "Visitor status updated successfully!")) KSuccess],
         s')
    | (Throw _, s') =>
        ([ShowMessageBox (Literal (js "Failed to update visitor status.")) KError], s')
    end.

(** [updateGeneralNotes(visitorId, notes)], lines 294-311. *)
Definition updateGeneralNotes (visitorId notes : JsVal) (s : State)
  : list PageCall * State :=
  if negb (truthy visitorId)
  then ([ShowMessageBox (Literal (js "Please search for a visitor first.")) KError], s)
  else
    match (run_update_generalNotes notes visitorId ;;;
           saveDbToLocalStorage ;;;
           loadVisitorsFromDb) s with
    | (Ok _, s') =>
        ([RenderFoundProfile (find_visitor visitorId (visitorsList s'));
          ShowMessageBox (Literal (js "Notes saved successfully!")) KSuccess],
         s')
    | (Throw _, s') =>
        ([ShowMessageBox (Literal (js "Failed to save notes.")) KError], s')
    end.

(** [handleBanConfirm], lines 316-321; [modalNotes] is the value of the
    input of the modal.  The call of [updateVisitorStatus] is not awaited,
    and nothing after it shows data. *)
Definition handleBanConfirm (modalNotes : jsstring) (s : State)
  : list PageCall * State :=
  if negb (truthy (js_of (selectedVisitorId s))) then ([], s)
  else updateVisitorStatus (js_of (selectedVisitorId s)) true (JStr modalNotes) s.

(** [handleUnbanConfirm], lines 326-338; [enteredPassword] is the value of
    the password input. *)
Definition handleUnbanConfirm (enteredPassword : jsstring) (s : State)
  : list PageCall * State :=
  if str_eqb enteredPassword UNBAN_PASSWORD then
    if negb (truthy (js_of (selectedVisitorId s))) then ([], s)
    else
      let '(calls, s') :=
        updateVisitorStatus (js_of (selectedVisitorId s)) false (JStr []) s in
      (calls ++ [ShowMessageBox (Literal (js "Visitor has been unbanned.")) KSuccess],
       s')
  else ([ShowMessageBox (Literal (js "Incorrect password.")) KError], s).

End Engine.

(** Lines 467-478: the object sent to the main process. *)
Definition export_record (visitorToExport : Row) (generalNotesInput : jsstring)
  : Obj :=
  [(js "id", js_of (id visitorToExport));
   (js "firstName", js_of (firstName visitorToExport));
   (js "lastName", js_of (lastName visitorToExport));
   (js "flatNumber", js_of (flatNumber visitorToExport));
   (js "phoneNumber", js_of (phoneNumber visitorToExport));
   (js "dateOfBirth", js_of (dateOfBirth visitorToExport));
   (js "scannedIdPicUrl", js_of (scannedIdPicUrl visitorToExport));
   (js "isBanned", js_of (isBanned visitorToExport));
   (js "notes", js_of (notes visitorToExport));
   (js "generalNotes", JStr generalNotesInput)].

(** [handleExport], lines 456-496; [generalNotesInput] is the value of the
    notes input, [m] the state of the main process, which answers
    [window.electronAPI.updateAndSaveCsvFile] through its handler.  The
    handler catches what it throws, so the [catch] of line 489 has nothing
    to catch. *)
Definition handleExport (generalNotesInput : jsstring) (s : State)
  (m : Main.MainState) : list PageCall * Main.MainState :=
  if negb (truthy (js_of (selectedVisitorId s)))
  then ([ShowMessageBox
           (Literal (js "Please search for and select a visitor to export."))
           KError], m)
  else
    match find_visitor (js_of (selectedVisitorId s)) (visitorsList s) with
    | Some visitorToExport =>
        let updatedVisitorData := export_record visitorToExport generalNotesInput in
        let '(result, m') := Main.updateAndSaveCsvFile m updatedVisitorData in
        if Main.success result
        then ([ShowMessageBox
                 (Literal (js "Visitor data updated in CSV successfully!"))
                 KSuccess], m')
        else ([ShowMessageBox (ExportFailed (Main.error result)) KError], m')
    | None =>
        ([ShowMessageBox (Literal (js "Selected visitor not found.")) KError], m)
    end.

End Actions.

(** ** Vocabulary of the further statements *)

Module Terms.
Import Js Renderer Records Actions ImportSpec.

(** The lines of a text as a Windows editor ends them: a carriage return
    closes every line but the last. *)
Fixpoint with_cr (lines : list jsstring) : list jsstring :=
  match lines with
  | [] => []
  | [l] => [l]
  | l :: rest => (l ++ [CR]) :: with_cr rest
  end.

(** The columns a status update has no business with. *)
Definition kept_by_status (r : Row) : list SqlVal :=
  [id r; firstName r; lastName r; flatNumber r; phoneNumber r; dateOfBirth r;
   scannedIdPicUrl r; generalNotes r].

(** The columns the update of the general notes has no business with. *)
Definition kept_by_notes (r : Row) : list SqlVal :=
  [id r; firstName r; lastName r; flatNumber r; phoneNumber r; dateOfBirth r;
   scannedIdPicUrl r; isBanned r; notes r].

(** What the statement of line 275 makes of a row, for the arguments of
    [updateVisitorStatus]. *)
Definition status_row (visitorId : JsVal) (banned : bool) (nts : JsVal)
  (r : Row) : Row :=
  if sql_eqb (id r) (key_of visitorId)
  then mkRow (id r) (firstName r) (lastName r) (flatNumber r) (phoneNumber r)
         (dateOfBirth r) (scannedIdPicUrl r)
         (SInt (if banned then 1 else 0))
         (text_affinity (sql_of (if truthy nts then nts else JStr [])))
         (generalNotes r)
  else r.

(** What the statement of line 300 makes of a row. *)
Definition notes_row (visitorId nts : JsVal) (r : Row) : Row :=
  if sql_eqb (id r) (key_of visitorId)
  then mkRow (id r) (firstName r) (lastName r) (flatNumber r) (phoneNumber r)
         (dateOfBirth r) (scannedIdPicUrl r) (isBanned r) (notes r)
         (text_affinity (sql_of nts))
  else r.

(** The renderer after a store operation that went through: the table, the
    list read back from it and the saved database. *)
Definition synced (t : list Row) (s : State) : State :=
  mkState t (txn s) (map read_row t) (Some t) (randomCalls s) (messageBox s)
    (selectedVisitorId s) (view s).

(** A text without U+0000: the engine hands it back whole. *)
Definition nul_free (s : jsstring) : Prop := Forall (fun c => c <> 0%N) s.

Definition value_nul_free (v : SqlVal) : Prop :=
  match v with
  | SText s => nul_free s
  | _ => True
  end.

(** No text of the row holds U+0000. *)
Definition row_nul_free (r : Row) : Prop :=
  Forall value_nul_free
    [id r; firstName r; lastName r; flatNumber r; phoneNumber r; dateOfBirth r;
     scannedIdPicUrl r; isBanned r; notes r; generalNotes r].

(** A text of Basic Latin and Latin-1 characters: the range on which
    [toLowerCase] is modelled. *)
Definition latin1 (s : jsstring) : Prop := Forall (fun c => (c < 256)%N) s.

Definition latin1_value (v : SqlVal) : Prop :=
  match v with
  | SText s => latin1 s
  | _ => True
  end.

(** The names of the row, where they are texts, are of that range. *)
Definition latin1_names (r : Row) : Prop :=
  latin1_value (firstName r) /\ latin1_value (lastName r).

(** An engine without faults, and a store of two visitors, the first one
    selected. *)
Definition no_store_fault (stmt : StoreStmt) : bool := false.

Definition example_store : State :=
  mkState [jane_doe (SText []); janet_smith (SText [])] None
    [jane_doe (SText []); janet_smith (SText [])] None 0 None
    (SText (js "v1")) ViewNone.

(** Both names of the row are strings. *)
Definition text_names (r : Row) : Prop :=
  exists f l, firstName r = SText f /\ lastName r = SText l.

(** What lines 396 and 401 make sure of: both names are non-empty strings
    and [isBanned] is 0 or 1. *)
Definition well_named (r : Row) : Prop :=
  (exists f, firstName r = SText f /\ f <> [])
  /\ (exists l, lastName r = SText l /\ l <> [])
  /\ (isBanned r = SInt 0 \/ isBanned r = SInt 1).

(** A file that names the id [v1] in two rows. *)
Definition csv_same_id_twice : jsstring :=
  HEADER ++ [LF] ++ js "v1,Jane,Doe,12,555,1990-01-01,jane.png,0,none"
         ++ [LF] ++ js "v1,Jane,Roe,14,556,1990-01-01,jane.png,1,moved".

(** The test of line 244 as a condition: every term is found in one of the
    names. *)
Definition matches_all (searchTerms : list jsstring) (visitor : Row) : bool :=
  match every (matches_term visitor) searchTerms with
  | Ok true => true
  | _ => false
  end.

(** Line 240: the terms of a search. *)
Definition terms_of (searchTerm : jsstring) : list jsstring :=
  filter (fun term => (0 <? length term)%nat) (split_ws searchTerm).

(** [value.toString()], and the empty string for [null] and [undefined]:
    the text line 375 writes for a value. *)
Definition to_text (value : JsVal) : jsstring :=
  match value with
  | JNull | JUndef => []
  | JNum z => number_toString z
  | JStr s => s
  end.

(** The record main.js reads back for an exported visitor: the ten columns
    of line 370, each value as text, trimmed. *)
Definition exported_record (visitor : Obj) : Obj :=
  map (fun header => (header, JStr (trim (to_text (obj_get header visitor)))))
    EXPORT_HEADERS.

(** A visitor the export format carries: no column holds a line feed, no
    column as written has a backslash right before a double quote, and the
    id is not blank. *)
Definition exportable (visitor : Obj) : Prop :=
  (forall header, In header EXPORT_HEADERS ->
     Forall (fun c => c <> LF) (to_text (obj_get header visitor))
     /\ Spec.backslash_before_quote (quoted (obj_get header visitor)) = false)
  /\ trim (to_text (obj_get Main.ID visitor)) <> [].

(** The text line 123 of main.js takes for a column of a row: the text of
    the row's own property of that name, or of the member it inherits, and
    the empty string when it has neither. *)
Definition column_text (header : jsstring) (visitor : Obj) : jsstring :=
  if has_key header visitor then to_text (obj_get header visitor)
  else match inherited_text header with
       | Some text => text
       | None => []
       end.

(** The record main.js reads back for a row that [stringifyCsv] wrote under
    the columns [headers]: each column as text, trimmed. *)
Definition written_record (headers : list jsstring) (visitor : Obj) : Obj :=
  map (fun header => (header, JStr (trim (column_text header visitor)))) headers.

(** A row the file format carries under the columns [headers]: its id is a
    string that is not blank; no column holds a line feed or ends with a
    carriage return; and no column, as written, has a backslash right
    before a double quote. *)
Definition writable (headers : list jsstring) (visitor : Obj) : Prop :=
  (exists s, obj_get Main.ID visitor = JStr s /\ trim s <> [])
  /\ forall header, In header headers ->
       Forall (fun c => c <> LF) (column_text header visitor)
       /\ Spec.ends_ok (column_text header visitor)
       /\ Spec.backslash_before_quote (Main.format_field header visitor) = false.

(** The columns [stringifyCsv] writes: the names of the first row (line
    115). *)
Definition columns_of (visitors : list Obj) : list jsstring :=
  obj_keys (hd [] visitors).

(** Rows that [stringifyCsv] writes so that [parseCsv] reads one row for
    each: the columns written are names in the order [Object.keys] keeps,
    without comma or line feed, trimmed and not [visitorId], and every row
    is one the format carries under them. *)
Definition well_written (visitors : list Obj) : Prop :=
  Spec.key_order (columns_of visitors)
  /\ Forall Spec.parsed_key (columns_of visitors)
  /\ Forall (writable (columns_of visitors)) visitors.

(** A file of two rows with general notes, the main process that remembers
    it, and a record for its second row whose notes hold a line feed. *)
Definition notes_file : jsstring :=
  js "id,generalNotes" ++ [LF] ++ js "1,a" ++ [LF] ++ js "2,b".

Definition notes_state : Main.MainState :=
  Main.mkMainState (Some Spec.example_path)
    (fun p => if str_eqb p Spec.example_path then Some notes_file else None) []
    (fun _ _ => Main.Written).

Definition two_line_notes : Obj :=
  [(js "id", JStr (js "2")); (js "generalNotes", JStr (js "x" ++ [LF] ++ js "1"))].

(** A record for the second row of the file of the examples that brings the
    number 7 under a name of its own and lacks [firstName]. *)
Definition odd_update : Obj :=
  [(js "id", JStr (js "2")); (js "visits", JNum 7)].

(** A file with the ten columns of the export, holding the first visitor of
    [example_store], and the main process that remembers it. *)
Definition export_file : jsstring :=
  join COMMA EXPORT_HEADERS ++ [LF]
    ++ js "v1,Jane,Doe,12,555,1990-01-01,jane.png,0,none,old notes"
    ++ [LF] ++ js "v2,John,Roe,14,556,1991-01-01,john.png,0,none,".

Definition export_state : Main.MainState :=
  Main.mkMainState (Some Spec.example_path)
    (fun p => if str_eqb p Spec.example_path then Some export_file else None) []
    (fun _ _ => Main.Written).

(** A visitor as [visitorsList] holds it, with a comma and double quotes in
    the notes. *)
Definition example_visitor : Obj :=
  [(js "id", JStr (js "v1")); (js "firstName", JStr (js "Jane"));
   (js "lastName", JStr (js "Doe")); (js "flatNumber", JStr (js "12"));
   (js "phoneNumber", JNull); (js "dateOfBirth", JStr (js "1990-01-01"));
   (js "scannedIdPicUrl", JStr (js "jane.png")); (js "isBanned", JNum 1);
   (js "notes", JStr (js "late, said " ++ [DQUOTE] ++ js "sorry" ++ [DQUOTE]));
   (js "generalNotes", JStr [])].

(** The file of the examples on a disk that takes no write: the call
    throws and leaves the file empty. *)
Definition failing_disk : Main.MainState :=
  Main.mkMainState (Some Spec.example_path)
    (fun p => if str_eqb p Spec.example_path then Some Spec.example_file else None)
    [] (fun _ _ => Main.WriteFails (Some [])).

Definition STATUS_UPDATED : PageCall :=
  ShowMessageBox (Literal (js "Visitor status updated successfully!")) KSuccess.

Definition NOTES_SAVED : PageCall :=
  ShowMessageBox (Literal (js "Notes saved successfully!")) KSuccess.

End Terms.

(** * Properties *)

(** ** Strings *)

Section StringFacts.
Import Js.

Lemma str_eqb_refl (a : jsstring) : str_eqb a a = true.
Proof.
  induction a as [|x a IH]; simpl; [reflexivity|].
  now rewrite N.eqb_refl, IH.
Qed.

Lemma str_eqb_eq (a b : jsstring) : str_eqb a b = true <-> a = b.
Proof.
  split.
  - revert b; induction a as [|x a IH]; intros [|y b]; simpl; try discriminate; auto.
    intros H. apply andb_true_iff in H as [Hxy Hab].
    apply N.eqb_eq in Hxy. f_equal; auto.
  - intros ->. apply str_eqb_refl.
Qed.

Lemma str_eqb_neq (a b : jsstring) : str_eqb a b = false <-> a <> b.
Proof.
  rewrite <- str_eqb_eq. destruct (str_eqb a b); split; congruence.
Qed.

Lemma str_eqb_sym (a b : jsstring) : str_eqb a b = str_eqb b a.
Proof.
  destruct (str_eqb a b) eqn:E.
  - apply str_eqb_eq in E. subst. symmetry. apply str_eqb_refl.
  - symmetry. apply str_eqb_neq. apply str_eqb_neq in E. congruence.
Qed.

End StringFacts.

(** ** The quoting example (main.js, [parseCsv]) *)

Section Quoting.
Import Js Main Spec.

(** C4, as the claim words it, fails: under the header [h1,h2,h3] no column
    is named [id], so line 98 drops the row and [parseCsv] returns the empty
    array instead of the record. *)
Lemma C4_quoting_row_is_dropped :
  parseCsv (quoting_text "h1,h2,h3") = []
  /\ parseCsv (quoting_text "h1,h2,h3")
     <> [[(js "h1", JStr (js "1"));
          (js "h2", JStr (js "x" ++ dq ++ js "y"));
          (js "h3", JStr (js "2"))]].
Proof.
  split; [reflexivity|].
  vm_compute. discriminate.
Qed.

(** C4, amended: the data line [1,DQ x DQ DQ y DQ,2] is cut into the three
    values [1], [x DQ y] and [2], the quotes around the second field being
    stripped and its doubled quote turned into a single one; under the
    header [id,h2,h3] [parseCsv] returns exactly the record mapping [id] to
    [1], [h2] to [x DQ y] and [h3] to [2]; and the comma inside the quoted
    field of [a,DQ b,c DQ,d] is not a delimiter. *)
Theorem C4_quoting_with_id_column :
  tokenize quoting_line = [js "1"; js "x" ++ dq ++ js "y"; js "2"]
  /\ parseCsv (quoting_text "id,h2,h3")
     = [[(js "id", JStr (js "1"));
         (js "h2", JStr (js "x" ++ dq ++ js "y"));
         (js "h3", JStr (js "2"))]]
  /\ tokenize comma_line = [js "a"; js "b,c"; js "d"].
Proof.
  repeat split; reflexivity.
Qed.

End Quoting.

(** ** The file upsert (main.js, [dialog:updateAndSaveCsvFile]) *)

Section FileUpsert.
Import Js Main Spec.

(** C8: without a remembered file path the handler answers
    [{ success: false, error: 'No file has been selected for saving yet.' }]
    and leaves the state as it was: no file is read, none is written. *)
Theorem C8_no_target_file :
  forall (st : MainState) (updatedVisitor : Obj),
    no_path_remembered st ->
    updateAndSaveCsvFile st updatedVisitor
    = (mkReply false (Some (Message NO_FILE_SELECTED)), st).
Proof.
  intros st u [H|H]; unfold updateAndSaveCsvFile; rewrite H; reflexivity.
Qed.

Lemma C8_no_target_file_witness :
  no_path_remembered (example_main_state None)
  /\ updateAndSaveCsvFile (example_main_state None) example_update
     = (mkReply false (Some (Message NO_FILE_SELECTED)), example_main_state None).
Proof.
  assert (H : no_path_remembered (example_main_state None)) by (left; reflexivity).
  split; [exact H|].
  exact (C8_no_target_file (example_main_state None) example_update H).
Defined.

Lemma same_id_ids_match (u v : Obj) (b : bool) :
  same_id u v = Ok b -> ids_match v u = b.
Proof.
  unfold same_id, ids_match.
  destruct (obj_get ID v) as [| |z|[|c x]], (obj_get ID u) as [| |z'|[|d y]];
    simpl; try congruence;
    try (destruct (negb (z =? 0)%Z); congruence);
    try (destruct (negb (z' =? 0)%Z); congruence).
  destruct (negb (z =? 0)%Z), (negb (z' =? 0)%Z); congruence.
Qed.

Lemma ids_match_sym (a b : Obj) : ids_match a b = ids_match b a.
Proof.
  unfold ids_match.
  destruct (obj_get ID a) as [| |z|x], (obj_get ID b) as [| |z'|y]; try reflexivity.
  rewrite (str_eqb_sym (trim x)). now rewrite (andb_comm (truthy (JStr x))).
Qed.

(** Two rows that match a third one match each other. *)
Lemma ids_match_trans (a b c : Obj) :
  ids_match a b = true -> ids_match b c = true -> ids_match a c = true.
Proof.
  unfold ids_match.
  destruct (obj_get ID a) as [| |z|x]; try discriminate.
  destruct (obj_get ID b) as [| |z|y]; try discriminate.
  destruct (obj_get ID c) as [| |z|w]; try discriminate.
  intros H1 H2.
  apply andb_true_iff in H1 as [H1 E1]. apply andb_true_iff in H1 as [Tx Ty].
  apply andb_true_iff in H2 as [H2 E2]. apply andb_true_iff in H2 as [_ Tw].
  apply str_eqb_eq in E1, E2. rewrite Tx, Tw. simpl.
  apply str_eqb_eq. congruence.
Qed.

(** What [findIndex] returns: the first position whose row passes the test,
    every earlier row failing it. *)
Lemma findIndex_some {A : Type} (test : A -> res bool) (l : list A) (k i : nat) :
  findIndex test l k = Ok (Some i) ->
  exists j x, i = k + j /\ nth_error l j = Some x /\ test x = Ok true
              /\ forall j' y, j' < j -> nth_error l j' = Some y -> test y = Ok false.
Proof.
  revert k; induction l as [|v l IH]; intros k; simpl; [discriminate|].
  destruct (test v) as [[|]|e] eqn:Tv; try discriminate.
  - intros [= <-]. exists 0, v. repeat split; auto; try lia.
  - intros H. apply IH in H as (j & x & -> & Hn & Hx & Hbefore).
    exists (S j), x. repeat split; auto; try lia.
    intros [|j'] y Hlt; simpl.
    + now intros [= <-].
    + apply Hbefore. lia.
Qed.

Lemma findIndex_none {A : Type} (test : A -> res bool) (l : list A) (k : nat) :
  findIndex test l k = Ok None ->
  forall x, In x l -> test x = Ok false.
Proof.
  revert k; induction l as [|v l IH]; intros k; simpl; [tauto|].
  destruct (test v) as [[|]|e] eqn:Tv; try discriminate.
  intros H x [<-|Hin]; eauto.
Qed.

Lemma replace_at_length {A : Type} (i : nat) (x : A) (l : list A) :
  length (replace_at i x l) = length l.
Proof.
  revert i; induction l as [|y l IH]; intros [|i]; simpl; auto.
Qed.

Lemma replace_at_same {A : Type} (i : nat) (x : A) (l : list A) :
  i < length l -> nth_error (replace_at i x l) i = Some x.
Proof.
  revert i; induction l as [|y l IH]; intros [|i]; simpl; try lia; auto.
  intros H. apply IH. lia.
Qed.

Lemma replace_at_other {A : Type} (i j : nat) (x : A) (l : list A) :
  j <> i -> nth_error (replace_at i x l) j = nth_error l j.
Proof.
  revert i j; induction l as [|y l IH]; intros [|i] [|j]; simpl; try congruence; auto.
Qed.

Lemma replace_at_split {A : Type} (i : nat) (x y : A) (l : list A) :
  nth_error l i = Some y ->
  l = firstn i l ++ y :: skipn (S i) l
  /\ replace_at i x l = firstn i l ++ x :: skipn (S i) l.
Proof.
  revert i; induction l as [|z l IH]; intros [|i]; simpl; try discriminate.
  - intros [= ->]. auto.
  - intros H. destruct (IH _ H) as [E1 E2]. split; f_equal; auto.
Qed.

Lemma ForallOrdPairs_app_inv {A : Type} (R : A -> A -> Prop) (l1 l2 : list A) :
  ForallOrdPairs R (l1 ++ l2) ->
  ForallOrdPairs R l1 /\ ForallOrdPairs R l2
  /\ forall a b, In a l1 -> In b l2 -> R a b.
Proof.
  induction l1 as [|x l1 IH]; simpl; intros H.
  - repeat split; auto. constructor. tauto.
  - inversion H as [|? ? Hx Hrest]; subst.
    destruct (IH Hrest) as (H1 & H2 & H12).
    rewrite Forall_app in Hx. destruct Hx as [Hx1 Hx2].
    repeat split; auto.
    + constructor; auto.
    + intros a b [<-|Ha] Hb; auto.
      rewrite Forall_forall in Hx2. auto.
Qed.

Lemma ForallOrdPairs_app {A : Type} (R : A -> A -> Prop) (l1 l2 : list A) :
  ForallOrdPairs R l1 -> ForallOrdPairs R l2 ->
  (forall a b, In a l1 -> In b l2 -> R a b) ->
  ForallOrdPairs R (l1 ++ l2).
Proof.
  induction l1 as [|x l1 IH]; simpl; intros H1 H2 H12; auto.
  inversion H1 as [|? ? Hx Hrest]; subst.
  constructor.
  - rewrite Forall_app. split; auto.
    rewrite Forall_forall. intros b Hb. apply H12; auto.
  - apply IH; auto.
Qed.

(** Replacing a row by one that matches it keeps the ids distinct. *)
Lemma distinct_ids_replace (l1 l2 : list Obj) (u y : Obj) :
  ids_match y u = true ->
  distinct_ids (l1 ++ y :: l2) -> distinct_ids (l1 ++ u :: l2).
Proof.
  unfold distinct_ids. intros Hyu H.
  apply ForallOrdPairs_app_inv in H as (H1 & H2 & H12).
  inversion H2 as [|? ? Hy Hrest]; subst.
  assert (Hflip : forall w, ids_match w y = false -> ids_match w u = false).
  { intros w Hw. destruct (ids_match w u) eqn:E; auto.
    rewrite <- Hw. symmetry. apply ids_match_trans with u; auto.
    rewrite ids_match_sym. exact Hyu. }
  apply ForallOrdPairs_app; auto.
  - constructor; auto.
    rewrite Forall_forall in *. intros b Hb.
    rewrite ids_match_sym. apply Hflip. rewrite ids_match_sym. auto.
  - intros a b Ha [<-|Hb].
    + apply Hflip. apply H12; simpl; auto.
    + apply H12; simpl; auto.
Qed.

Lemma distinct_ids_append (l : list Obj) (u : Obj) :
  (forall v, In v l -> ids_match v u = false) ->
  distinct_ids l -> distinct_ids (l ++ [u]).
Proof.
  unfold distinct_ids. intros Hu H.
  apply ForallOrdPairs_app; auto.
  - constructor; constructor.
  - intros a b Ha [<-|[]]. auto.
Qed.

(** What the upsert of lines 173-182 makes of the rows: the record stands
    in the place of the first row that carries its id, every other row
    staying where it was, or, when no row carries its id, after the last
    row; distinct ids stay distinct. *)
Lemma upsert_cases (rows : list Obj) (updatedVisitor : Obj) (visitors : list Obj) :
  upsert rows updatedVisitor = Ok visitors ->
  ((exists i old,
       nth_error rows i = Some old /\ ids_match old updatedVisitor = true
       /\ (forall j v, j < i -> nth_error rows j = Some v ->
                       ids_match v updatedVisitor = false)
       /\ length visitors = length rows
       /\ nth_error visitors i = Some updatedVisitor
       /\ forall j, j <> i -> nth_error visitors j = nth_error rows j)
   \/ ((forall v, In v rows -> ids_match v updatedVisitor = false)
       /\ visitors = rows ++ [updatedVisitor]))
  /\ (distinct_ids rows -> distinct_ids visitors).
Proof.
  intros Hup. set (u := updatedVisitor) in *. unfold upsert in Hup.
  destruct (findIndex (same_id u) rows 0) as [[i|]|e] eqn:Hfind; try discriminate.
  - injection Hup as <-.
    apply findIndex_some in Hfind as (j & old & -> & Hnth & Hold & Hbefore).
    simpl.
    assert (Hlt : j < length rows) by (apply nth_error_Some; congruence).
    split.
    + left. exists j, old. repeat split; auto.
      * now apply same_id_ids_match.
      * intros j' v Hj' Hv. apply same_id_ids_match. eauto.
      * apply replace_at_length.
      * now apply replace_at_same.
      * intros j' Hj'. now apply replace_at_other.
    + intros Hd. destruct (replace_at_split j u old rows Hnth) as [E1 E2].
      rewrite E2. rewrite E1 in Hd.
      eapply distinct_ids_replace; eauto.
      now apply same_id_ids_match.
  - injection Hup as <-.
    pose proof (findIndex_none _ _ _ Hfind) as Hnone.
    split.
    + right. split; auto. intros v Hv. apply same_id_ids_match; auto.
    + intros Hd. apply distinct_ids_append; auto.
      intros v Hv. apply same_id_ids_match; auto.
Qed.

End FileUpsert.

(** ** The id check (main.js and script.js, [parseCsv]) *)

Section IdCheck.
Import Js Spec.

(** C3, at the inputs where the code departs from it: with a [visitorId]
    and an [id] column, a row that fills only the first sets [hasId] at the
    first column, has its id overwritten by the empty string at the second,
    and is pushed with an empty id; and the renderer's [parseCsv] has no
    such check and returns the row without id. *)
Theorem C3_rows_with_empty_id_returned :
  Main.parseCsv two_id_columns
  = [[(js "id", JStr []); (js "firstName", JStr (js "Jane"));
      (js "lastName", JStr (js "Doe"))]]
  /\ Renderer.parseCsv row_without_id
     = [[(js "id", JStr []); (js "firstName", JStr (js "Jane"));
         (js "lastName", JStr (js "Doe"))]].
Proof. split; reflexivity. Qed.

End IdCheck.

(** ** The batch import (script.js, [handleImport]) *)

Section BatchImport.
Import Js Renderer ImportSpec.

Variable fault : Stmt -> bool.
Variable random16 : nat -> N.

Local Abbreviation import_visitor := (import_visitor fault random16).
Local Abbreviation import_loop := (import_loop fault random16).
Local Abbreviation handleImport := (handleImport fault random16).
Local Abbreviation resolve_id := (resolve_id random16).

Lemma bind_value_sql_of (v : JsVal) (x : SqlVal) :
  bind_value v = Ok x -> x = sql_of v.
Proof. destruct v; simpl; congruence. Qed.

Lemma bind_all_sql_of (params : list JsVal) (xs : list SqlVal) :
  bind_all params = Ok xs -> xs = map sql_of params.
Proof.
  revert xs; induction params as [|v params IH]; simpl; intros xs.
  - congruence.
  - destruct (bind_value v) as [x|e] eqn:Ev; [|discriminate].
    destruct (bind_all params) as [ys|e]; [|discriminate].
    intros [= <-]. f_equal; auto using bind_value_sql_of.
Qed.

Lemma length_filter_existsb {A : Type} (p : A -> bool) (l : list A) :
  (0 <? length (filter p l))%nat = existsb p l.
Proof.
  induction l as [|x l IH]; simpl; [reflexivity|].
  destruct (p x); simpl; auto.
Qed.

Lemma same_frame_refl (s : State) : same_frame s s.
Proof. repeat split. Qed.

Lemma same_frame_trans (s1 s2 s3 : State) :
  same_frame s1 s2 -> same_frame s2 s3 -> same_frame s1 s3.
Proof.
  unfold same_frame. intros (A1 & A2 & A3 & A4 & A5 & A6) (B1 & B2 & B3 & B4 & B5 & B6).
  repeat split; congruence.
Qed.

Lemma bind_run {A B : Type} (m : M A) (k : A -> M B) (s : State) :
  bind m k s = match m s with
               | (Ok a, s') => k a s'
               | (Throw e, s') => (Throw e, s')
               end.
Proof. reflexivity. Qed.

(** [resolve_id] never throws and touches nothing but the count of calls of
    [Math.random]. *)
Lemma resolve_id_inv (visitor : Obj) (s : State) :
  exists visitorId s',
    resolve_id visitor s = (Ok visitorId, s')
    /\ same_frame s s' /\ table s' = table s
    /\ (truthy (field "id" visitor) = true ->
        visitorId = field "id" visitor /\ s' = s)
    /\ (truthy (field "id" visitor) = false ->
        visitorId = JStr (fst (uuid_replace random16 UUID_TEMPLATE (randomCalls s)))).
Proof.
  unfold resolve_id. destruct (truthy (field "id" visitor)) eqn:T.
  - exists (field "id" visitor), s. unfold ret.
    repeat split; auto; discriminate.
  - unfold bind, uuidv4, ret.
    destruct (uuid_replace random16 UUID_TEMPLATE (randomCalls s)) as [u calls'] eqn:U.
    eexists _, _. split; [reflexivity|].
    repeat split; auto; discriminate.
Qed.

(** What one turn of the loop does: a row without both names is skipped
    and nothing changes; a row let through is upserted under its resolved
    id; when a statement throws, the table is as it was before the row. *)
Lemma import_visitor_inv (visitor : Obj) (s s' : State) (r : res bool) :
  import_visitor visitor s = (r, s') ->
  same_frame s s'
  /\ match r with
     | Ok false => accepted visitor = false /\ s' = s
     | Ok true =>
         accepted visitor = true
         /\ exists visitorId sid,
              resolve_id visitor s = (Ok visitorId, sid)
              /\ randomCalls s' = randomCalls sid
              /\ table s' = upsert_row (key_of visitorId) visitor (table s)
     | Throw _ => accepted visitor = true /\ table s' = table s
     end.
Proof.
  unfold Renderer.import_visitor, accepted.
  destruct (truthy (field "firstName" visitor)); simpl;
    [|intros [= <- <-]; split; [apply same_frame_refl|auto]].
  destruct (truthy (field "lastName" visitor)); simpl;
    [|intros [= <- <-]; split; [apply same_frame_refl|auto]].
  destruct (resolve_id_inv visitor s) as (vid & sid & Hid & Hframe & Htab & _).
  unfold bind at 1. rewrite Hid.
  unfold bind at 1. unfold exec_select.
  destruct (fault (SelectVisitor [vid])).
  { intros [= <- <-]. auto. }
  simpl bind_all.
  destruct (bind_value vid) as [key|e] eqn:Ekey; [|intros [= <- <-]; auto].
  apply bind_value_sql_of in Ekey. subst key.
  rewrite length_filter_existsb. fold (key_of vid). fold (has_id (key_of vid) (table sid)).
  unfold bind, ret.
  destruct (has_id (key_of vid) (table sid)) eqn:Hex.
  - unfold run_update.
    match goal with |- context [fault ?st] => destruct (fault st) end.
    { intros [= <- <-]. auto. }
    match goal with |- context [bind_all ?ps] =>
      destruct (bind_all ps) as [xs|e] eqn:Eb end; [|intros [= <- <-]; auto].
    apply bind_all_sql_of in Eb. subst xs. simpl map.
    intros [= <- <-]. simpl.
    split; [exact Hframe|]. split; [reflexivity|].
    exists vid, sid. repeat split; auto.
    unfold upsert_row. rewrite <- Htab, Hex. reflexivity.
  - unfold run_insert.
    match goal with |- context [fault ?st] => destruct (fault st) end.
    { intros [= <- <-]. auto. }
    match goal with |- context [bind_all ?ps] =>
      destruct (bind_all ps) as [xs|e] eqn:Eb end; [|intros [= <- <-]; auto].
    apply bind_all_sql_of in Eb. subst xs. simpl map. cbv beta iota.
    fold (key_of vid). fold (has_id (key_of vid) (table sid)). rewrite Hex.
    intros [= <- <-]. simpl.
    split; [exact Hframe|]. split; [reflexivity|].
    exists vid, sid. repeat split; auto.
    unfold upsert_row. rewrite <- Htab, Hex. reflexivity.
Qed.

Lemma import_loop_frame (visitors : list Obj) (n : nat) (s s' : State) (r : res nat) :
  import_loop visitors n s = (r, s') -> same_frame s s'.
Proof.
  revert n s; induction visitors as [|v visitors IH]; intros n s; simpl.
  - intros [= <- <-]. apply same_frame_refl.
  - unfold bind at 1.
    destruct (import_visitor v s) as [[b|e] s1] eqn:Ev;
      apply import_visitor_inv in Ev as [Hf _].
    + intros H. apply IH in H. eapply same_frame_trans; eauto.
    + intros [= <- <-]. exact Hf.
Qed.

(** The loop stops at the first row that throws. *)
Lemma import_loop_throws (before after : list Obj) (visitor : Obj)
  (n n1 : nat) (s s1 s2 : State) (e : Exn) :
  import_loop before n s = (Ok n1, s1) ->
  import_visitor visitor s1 = (Throw e, s2) ->
  import_loop (before ++ visitor :: after) n s = (Throw e, s2).
Proof.
  revert n s; induction before as [|v before IH]; intros n s; simpl.
  - intros [= <- <-] Hv. unfold bind. now rewrite Hv.
  - unfold bind at 1.
    destruct (import_visitor v s) as [[b|e'] s'] eqn:Ev; [|discriminate].
    intros H Hv. unfold bind at 1. rewrite Ev. eapply IH; eauto.
Qed.

(** A property of the table that every upsert of a row of the batch keeps
    is kept by the loop. *)
Lemma import_loop_table_ind (P : list Row -> Prop) (Q : Obj -> Prop) :
  (forall visitor s0 visitorId sid t,
      Q visitor -> accepted visitor = true ->
      resolve_id visitor s0 = (Ok visitorId, sid) ->
      P t -> P (upsert_row (key_of visitorId) visitor t)) ->
  forall (visitors : list Obj) (n : nat) (s s' : State) (r : res nat),
    Forall Q visitors -> P (table s) ->
    import_loop visitors n s = (r, s') -> P (table s').
Proof.
  intros Hstep visitors.
  induction visitors as [|v visitors IH]; intros n s s' r HQ HP; simpl.
  - now intros [= <- <-].
  - inversion HQ as [|? ? Hv Hrest]; subst.
    unfold bind at 1.
    destruct (import_visitor v s) as [[b|e] s1] eqn:Ev;
      apply import_visitor_inv in Ev as [_ Hr].
    + intros H.
      assert (HP1 : P (table s1)).
      { destruct b.
        - destruct Hr as (Hacc & vid & sid & Hid & _ & ->). eapply Hstep; eauto.
        - destruct Hr as [_ ->]. exact HP. }
      eapply IH; eauto.
    + intros [= <- <-]. destruct Hr as [_ ->]. exact HP.
Qed.

(** The renderer's [parseCsv] of the empty text has no rows. *)
Lemma parseCsv_empty : parseCsv [] = [].
Proof. reflexivity. Qed.

(** The two ways [handleImport] ends when no transaction was open: the loop
    went through and the table is committed, saved and reloaded; or a row
    threw, and the table is the one [BEGIN] saw, nothing being saved. *)
Lemma handleImport_cases (csvData : jsstring) (s : State) :
  csvData <> [] -> txn s = None ->
  match import_loop (parseCsv csvData) 0 (snd (run_begin s)) with
  | (Ok importedCount, s1) =>
      handleImport csvData s
      = (Ok tt,
         mkState (table s1) None (map read_row (table s1)) (Some (table s1))
           (randomCalls s1)
           (Some (MsgImported importedCount)) (selectedVisitorId s) (view s))
  | (Throw _, s1) =>
      handleImport csvData s
      = (Ok tt,
         mkState (table s) None (visitorsList s) (localStorage s) (randomCalls s1)
           (Some MsgImportFailed) (selectedVisitorId s) (view s))
  end.
Proof.
  intros Hne Htxn.
  assert (Hb : run_begin s = (Ok tt, snd (run_begin s))).
  { unfold run_begin. now rewrite Htxn. }
  assert (Hunfold : handleImport csvData s
    = try_catch
        (run_begin ;;;
         importedCount <- import_loop (parseCsv csvData) 0 ;;
         run_commit ;;;
         saveDbToLocalStorage ;;;
         loadVisitorsFromDb ;;;
         showMessageBox (MsgImported importedCount))
        (fun _ => run_rollback ;;; showMessageBox MsgImportFailed) s).
  { unfold Renderer.handleImport. destruct csvData; [congruence|reflexivity]. }
  rewrite Hunfold. unfold try_catch.
  rewrite (bind_run run_begin), Hb. rewrite (bind_run (import_loop _ _)).
  destruct (import_loop (parseCsv csvData) 0 (snd (run_begin s))) as [[n|e] s1] eqn:Hloop.
  - pose proof (import_loop_frame _ _ _ _ _ Hloop) as (F1 & F2 & F3 & F4 & F5 & F6).
    unfold run_begin in F1, F2, F3, F4, F5, F6. rewrite Htxn in *. simpl in *.
    rewrite Hloop. unfold bind, run_commit. rewrite F1. simpl.
    unfold set_messageBox, set_visitorsList, set_localStorage, set_db. simpl.
    rewrite F5, F6. reflexivity.
  - pose proof (import_loop_frame _ _ _ _ _ Hloop) as (F1 & F2 & F3 & F4 & F5 & F6).
    unfold run_begin in F1, F2, F3, F4, F5, F6. rewrite Htxn in *. simpl in *.
    rewrite Hloop. unfold bind, run_rollback. rewrite F1. simpl.
    unfold set_messageBox, set_db. simpl.
    rewrite F2, F3, F5, F6. reflexivity.
Qed.

(** C2: when a row of the batch throws after the rows before it went
    through, [handleImport] ends with the table, the list in memory and the
    database saved in local storage as they were before the import, no
    transaction left open. A row without both names throws nothing and
    changes nothing; and when no row throws, the table the loop built is
    committed, saved and reloaded (the list then holds its rows as the
    engine reads them back), however many rows were skipped. *)
Theorem C2_import_is_atomic :
  forall (csvData : jsstring) (s : State),
    txn s = None ->
    (forall before visitor after importedCount s1 e s2,
        parseCsv csvData = before ++ visitor :: after ->
        import_loop before 0 (snd (run_begin s)) = (Ok importedCount, s1) ->
        import_visitor visitor s1 = (Throw e, s2) ->
        table (snd (handleImport csvData s)) = table s
        /\ txn (snd (handleImport csvData s)) = None
        /\ localStorage (snd (handleImport csvData s)) = localStorage s
        /\ visitorsList (snd (handleImport csvData s)) = visitorsList s
        /\ messageBox (snd (handleImport csvData s)) = Some MsgImportFailed)
    /\ (forall visitor s1,
          accepted visitor = false -> import_visitor visitor s1 = (Ok false, s1))
    /\ (forall importedCount s1,
          csvData <> [] ->
          import_loop (parseCsv csvData) 0 (snd (run_begin s)) = (Ok importedCount, s1) ->
          table (snd (handleImport csvData s)) = table s1
          /\ txn (snd (handleImport csvData s)) = None
          /\ localStorage (snd (handleImport csvData s)) = Some (table s1)
          /\ visitorsList (snd (handleImport csvData s)) = map read_row (table s1)
          /\ messageBox (snd (handleImport csvData s)) = Some (MsgImported importedCount)).
Proof.
  intros csvData s Htxn. split; [|split].
  - intros before v after n s1 e s2 Hparse Hbefore Hv.
    assert (Hne : csvData <> []).
    { intros ->. rewrite parseCsv_empty in Hparse. now destruct before. }
    pose proof (handleImport_cases csvData s Hne Htxn) as Hc.
    rewrite Hparse, (import_loop_throws _ after _ _ _ _ _ _ _ Hbefore Hv) in Hc.
    rewrite Hc. simpl. auto.
  - intros v s1 Hrej. unfold Renderer.import_visitor.
    unfold accepted in Hrej. apply andb_false_iff in Hrej.
    destruct Hrej as [-> | ->]; simpl; [reflexivity|].
    now rewrite orb_true_r.
  - intros n s1 Hne Hloop.
    pose proof (handleImport_cases csvData s Hne Htxn) as Hc.
    rewrite Hloop in Hc. rewrite Hc. simpl. auto.
Qed.

End BatchImport.

(** ** Values held by objects *)

Section ObjectValues.
Import Js.

Variable P : JsVal -> Prop.

Lemma obj_insert_index_values (n : N) (k : jsstring) (v : JsVal) (o : Obj) :
  P v -> Forall (fun kv => P (snd kv)) o ->
  Forall (fun kv => P (snd kv)) (obj_insert_index n k v o).
Proof.
  intros Hv. induction o as [|kv o IH]; simpl; intros Ho.
  - constructor; auto.
  - inversion Ho; subst.
    destruct (array_index (fst kv)) as [m|]; [destruct (m <? n)%N|];
      repeat constructor; auto.
Qed.

Lemma obj_set_values (k : jsstring) (v : JsVal) (o : Obj) :
  P v -> Forall (fun kv => P (snd kv)) o ->
  Forall (fun kv => P (snd kv)) (obj_set k v o).
Proof.
  intros Hv Ho. unfold obj_set.
  destruct (str_eqb k PROTO); auto.
  destruct (has_key k o).
  - unfold obj_update. rewrite Forall_map.
    rewrite Forall_forall in *. intros kv Hin.
    destruct (str_eqb (fst kv) k); simpl; auto.
  - destruct (array_index k).
    + now apply obj_insert_index_values.
    + rewrite Forall_app. split; auto.
Qed.

Lemma obj_get_values (k : jsstring) (o : Obj) :
  P JUndef -> Forall (fun kv => P (snd kv)) o -> P (obj_get k o).
Proof.
  intros Hu Ho. unfold obj_get.
  destruct (find (fun kv => str_eqb (fst kv) k) o) as [kv|] eqn:F; auto.
  apply find_some in F as [Hin _].
  rewrite Forall_forall in Ho. auto.
Qed.

End ObjectValues.

(** ** The ids the import uses, and the general notes it leaves alone *)

Section ImportRows.
Import Js Renderer ImportSpec.

Variable fault : Stmt -> bool.
Variable random16 : nat -> N.

Local Abbreviation import_visitor := (import_visitor fault random16).
Local Abbreviation import_loop := (import_loop fault random16).
Local Abbreviation handleImport := (handleImport fault random16).
Local Abbreviation resolve_id := (resolve_id random16).
Local Abbreviation uuid_replace := (uuid_replace random16).

Lemma parse_row_cells (headers : list jsstring) (line k : jsstring) :
  string_or_undefined (obj_get k (parse_row headers line)).
Proof.
  apply obj_get_values; [left; reflexivity|].
  unfold parse_row.
  generalize (map trim (split_on COMMA line)) as values. intros values.
  generalize (indexed headers) as l.
  assert (H0 : Forall (fun kv : jsstring * JsVal => string_or_undefined (snd kv)) [])
    by constructor.
  revert H0. generalize (@nil (jsstring * JsVal)) as o.
  intros o H0 l. revert o H0.
  induction l as [|hi l IH]; simpl; intros o Ho; auto.
  apply IH. apply obj_set_values; auto.
  destruct (nth_error values (snd hi)); [right; eauto|left; reflexivity].
Qed.

Lemma parseCsv_cells (csvData k : jsstring) (visitor : Obj) :
  In visitor (parseCsv csvData) -> string_or_undefined (obj_get k visitor).
Proof.
  unfold parseCsv. rewrite in_map_iff. intros (line & <- & _).
  apply parse_row_cells.
Qed.

(** *** [uuidv4] *)

Lemma below_16 (v : N) :
  (v < 16)%N ->
  In v [0; 1; 2; 3; 4; 5; 6; 7; 8; 9; 10; 11; 12; 13; 14; 15]%N.
Proof.
  intros H. simpl.
  destruct v as [|p]; auto.
  do 4 (destruct p as [p|p|]; auto 20); try lia.
Qed.

(** The replacement of an [x] is one hexadecimal digit, that of a [y] one
    of [8], [9], [a], [b]. *)
Lemma uuid_digit_shape (c : char) (calls : nat) :
  exists d, uuid_digit random16 c calls = [d]
            /\ is_hex d = true
            /\ (N.eqb c CHAR_x = false -> is_variant d = true).
Proof.
  unfold uuid_digit.
  assert (Hr : (random16 calls mod 16 < 16)%N) by (apply N.mod_lt; discriminate).
  apply below_16 in Hr.
  destruct (N.eqb c CHAR_x).
  - simpl in Hr.
    repeat (destruct Hr as [<-|Hr];
            [eexists; split; [reflexivity|split; [reflexivity|discriminate]]|]).
    destruct Hr.
  - simpl in Hr.
    repeat (destruct Hr as [<-|Hr];
            [eexists; split; [reflexivity|split; reflexivity]|]).
    destruct Hr.
Qed.

Lemma uuid_replace_fits (template : jsstring) (calls : nat) :
  fits_template template (fst (uuid_replace template calls)) = true
  /\ length (fst (uuid_replace template calls)) = length template.
Proof.
  revert calls; induction template as [|c t IH]; intros calls; simpl; auto.
  destruct (N.eqb c CHAR_x || N.eqb c CHAR_y) eqn:Hxy.
  - destruct (uuid_replace t (S calls)) as [rest calls'] eqn:U.
    destruct (uuid_digit_shape c calls) as (d & -> & Hhex & Hvar).
    specialize (IH (S calls)). rewrite U in IH. destruct IH as [IH1 IH2].
    simpl in *. rewrite IH1, IH2, andb_true_r. split; [|reflexivity].
    destruct (N.eqb c CHAR_x) eqn:Hx; auto.
    simpl in Hxy. rewrite Hxy. auto.
  - destruct (uuid_replace t calls) as [rest calls'] eqn:U.
    specialize (IH calls). rewrite U in IH. destruct IH as [IH1 IH2].
    simpl in *. rewrite IH1, IH2, andb_true_r. split; [|reflexivity].
    apply orb_false_iff in Hxy as [-> ->]. apply N.eqb_refl.
Qed.

(** Whatever [Math.random] returns, [uuidv4] returns 36 characters in the
    shape of a version 4 UUID. *)
Lemma uuidv4_shape (calls : nat) :
  is_uuid_v4 (fst (uuid_replace UUID_TEMPLATE calls)) = true
  /\ length (fst (uuid_replace UUID_TEMPLATE calls)) = 36.
Proof.
  destruct (uuid_replace_fits UUID_TEMPLATE calls) as [H1 H2].
  split; [exact H1|]. rewrite H2. reflexivity.
Qed.

(** The id line 400 resolves for a row of [parseCsv]. *)
Lemma resolve_id_parsed (csvData : jsstring) (visitor : Obj) (s : State) :
  In visitor (parseCsv csvData) ->
  exists idText s',
    resolve_id visitor s = (Ok (JStr idText), s')
    /\ idText <> []
    /\ match field "id" visitor with
       | JStr (c :: x) => idText = c :: x /\ s' = s
       | _ => is_uuid_v4 idText = true /\ length idText = 36
       end.
Proof.
  intros Hin.
  destruct (resolve_id_inv random16 visitor s)
    as (vid & s' & Hid & _ & _ & Htrue & Hfalse).
  destruct (uuidv4_shape (randomCalls s)) as [U1 U2].
  assert (Hnz : fst (uuid_replace UUID_TEMPLATE (randomCalls s)) <> []).
  { intros E. rewrite E in U2. discriminate. }
  destruct (parseCsv_cells csvData (js "id") visitor Hin) as [Hu|[x Hx]];
    unfold field in *.
  - rewrite Hu in *. rewrite (Hfalse eq_refl) in Hid.
    eexists _, s'. split; [exact Hid|]. split; auto.
  - rewrite Hx in *. destruct x as [|c x].
    + rewrite (Hfalse eq_refl) in Hid.
      eexists _, s'. split; [exact Hid|]. split; auto.
    + destruct (Htrue eq_refl) as [-> ->].
      exists (c :: x), s. repeat split; auto. discriminate.
Qed.

Lemma sql_eqb_text (a : SqlVal) (k : jsstring) :
  sql_eqb a (SText k) = true -> a = SText k.
Proof.
  destruct a as [|z|x]; simpl; try discriminate.
  intros H. apply str_eqb_eq in H. now subst.
Qed.

Lemma in_upsert_row (key : SqlVal) (visitor : Obj) (t : list Row) (r : Row) :
  In r (upsert_row key visitor t) ->
  (In r t /\ sql_eqb (id r) key = false)
  \/ (exists old, In old t /\ sql_eqb (id old) key = true
                  /\ r = imported_row (id old) (generalNotes old) visitor)
  \/ (has_id key t = false /\ r = imported_row key (SText []) visitor).
Proof.
  unfold upsert_row. destruct (has_id key t) eqn:Hh.
  - rewrite in_map_iff. intros (old & <- & Hin).
    destruct (sql_eqb (id old) key) eqn:E; [|now left].
    right; left. exists old. auto.
  - rewrite in_app_iff. intros [H|[<-|[]]]; auto.
    left. split; [exact H|].
    unfold has_id in Hh. rewrite <- not_true_iff_false in Hh.
    apply not_true_iff_false. intros E. apply Hh.
    apply existsb_exists. eauto.
Qed.

Lemma sql_eqb_other (a : SqlVal) (k : jsstring) :
  a <> SText k -> sql_eqb a (SText k) = false.
Proof.
  intros H. destruct (sql_eqb a (SText k)) eqn:E; [|reflexivity].
  now apply sql_eqb_text in E.
Qed.

(** What the upsert under a text key does to the table: a row carries the
    key and holds the columns of the CSV row; every row that carries the
    key holds them; the rows under other keys are the ones of before. *)
Lemma upsert_row_under_key (k : jsstring) (visitor : Obj) (t : list Row) :
  (exists r, In r (upsert_row (SText k) visitor t) /\ id r = SText k)
  /\ (forall r, In r (upsert_row (SText k) visitor t) -> id r = SText k ->
                r = imported_row (SText k) (generalNotes r) visitor)
  /\ (forall r, id r <> SText k ->
                (In r (upsert_row (SText k) visitor t) <-> In r t)).
Proof.
  split; [|split].
  - unfold upsert_row. destruct (has_id (SText k) t) eqn:Hh.
    + unfold has_id in Hh. apply existsb_exists in Hh as (old & Hold & Hm).
      exists (imported_row (id old) (generalNotes old) visitor).
      split; [|now apply sql_eqb_text in Hm].
      apply in_map_iff. exists old. now rewrite Hm.
    + exists (imported_row (SText k) (SText []) visitor).
      split; [|reflexivity]. apply in_or_app. right. now left.
  - intros r Hr Hid.
    apply in_upsert_row in Hr as [[_ Hne]|[(old & _ & Hm & ->)|[_ ->]]].
    + rewrite Hid in Hne. cbn in Hne. now rewrite str_eqb_refl in Hne.
    + apply sql_eqb_text in Hm. now rewrite Hm.
    + reflexivity.
  - intros r Hne. split.
    + intros Hr.
      apply in_upsert_row in Hr as [[Hr _]|[(old & _ & Hm & ->)|[_ ->]]];
        [exact Hr| |].
      * apply sql_eqb_text in Hm. now destruct Hne.
      * now destruct Hne.
    + intros Hr. unfold upsert_row.
      destruct (has_id (SText k) t).
      * apply in_map_iff. exists r. now rewrite (sql_eqb_other _ _ Hne).
      * apply in_or_app. now left.
Qed.

(** C10: for each row of the batch, the id resolved by line 400 is a
    non-empty string: the id of the row when that is a non-empty string,
    and otherwise a string of 36 characters in the shape of a version 4
    UUID.  A turn of the loop that lets the row through stores it under
    that very id: afterwards a row of the table carries it, every row that
    carries it holds the columns of the CSV row, and the rows under other
    ids are the rows of before.  After the import, every row of the table
    that was not there before carries the id resolved for a row of the
    batch that was let through, a non-empty text. *)
Theorem C10_imported_ids_are_non_empty :
  forall (csvData : jsstring) (s : State),
    txn s = None ->
    (forall visitor s1,
        In visitor (parseCsv csvData) ->
        exists idText s2,
          resolve_id visitor s1 = (Ok (JStr idText), s2)
          /\ idText <> []
          /\ match field "id" visitor with
             | JStr (c :: x) => idText = c :: x /\ s2 = s1
             | _ => is_uuid_v4 idText = true /\ length idText = 36
             end)
    /\ (forall visitor s1 s2,
          In visitor (parseCsv csvData) ->
          import_visitor visitor s1 = (Ok true, s2) ->
          exists idText sid,
            resolve_id visitor s1 = (Ok (JStr idText), sid)
            /\ idText <> []
            /\ (exists r, In r (table s2) /\ id r = SText idText)
            /\ (forall r, In r (table s2) -> id r = SText idText ->
                          r = imported_row (SText idText) (generalNotes r) visitor)
            /\ (forall r, id r <> SText idText ->
                          (In r (table s2) <-> In r (table s1))))
    /\ (forall r,
          In r (table (snd (handleImport csvData s))) ->
          In r (table s)
          \/ exists visitor s1 sid idText,
               In visitor (parseCsv csvData) /\ accepted visitor = true
               /\ resolve_id visitor s1 = (Ok (JStr idText), sid)
               /\ id r = SText idText /\ idText <> []).
Proof.
  intros csvData s Htxn. split; [|split].
  - intros visitor s1 Hin. now apply resolve_id_parsed with csvData.
  - intros visitor s1 s2 Hin Hv.
    apply import_visitor_inv in Hv as (_ & _ & vid & sid & Hid & _ & Ht).
    destruct (resolve_id_parsed csvData visitor s1 Hin) as (idText & s' & Hid' & Hnz & _).
    rewrite Hid in Hid'. injection Hid' as -> _.
    exists idText, sid. split; [exact Hid|]. split; [exact Hnz|].
    rewrite Ht. change (key_of (JStr idText)) with (SText idText).
    apply upsert_row_under_key.
  - destruct csvData as [|c0 csvData]; [simpl; auto|].
    set (csv := c0 :: csvData) in *.
    assert (Hne : csv <> []) by discriminate.
    pose proof (handleImport_cases fault random16 csv s Hne Htxn) as Hc.
    destruct (import_loop (parseCsv csv) 0 (snd (run_begin s))) as [[n|e] s1] eqn:Hloop;
      rewrite Hc; simpl; auto.
    revert Hloop.
    apply (import_loop_table_ind fault random16
             (fun t => forall r, In r t ->
                In r (table s)
                \/ exists visitor s1 sid idText,
                     In visitor (parseCsv csv) /\ accepted visitor = true
                     /\ resolve_id visitor s1 = (Ok (JStr idText), sid)
                     /\ id r = SText idText /\ idText <> [])
             (fun visitor => In visitor (parseCsv csv))).
    + intros visitor s0 vid sid t Hin Hacc Hid Ht r Hr.
      destruct (resolve_id_parsed csv visitor s0 Hin) as (idText & s2 & Hid' & Hnz & _).
      rewrite Hid in Hid'. injection Hid' as -> _.
      unfold key_of in Hr. simpl in Hr.
      apply in_upsert_row in Hr as [[Hr _]|[(old & Hold & Hm & ->)|[_ ->]]]; auto.
      * apply sql_eqb_text in Hm. right. exists visitor, s0, sid, idText.
        simpl. auto.
      * right. exists visitor, s0, sid, idText. simpl. auto.
    + apply Forall_forall. auto.
    + unfold run_begin. rewrite Htxn. simpl. auto.
Qed.

End ImportRows.

Section ImportNotes.
Import Js Renderer ImportSpec.

Variable fault : Stmt -> bool.
Variable random16 : nat -> N.

Local Abbreviation import_visitor := (import_visitor fault random16).
Local Abbreviation import_loop := (import_loop fault random16).
Local Abbreviation handleImport := (handleImport fault random16).
Local Abbreviation resolve_id := (resolve_id random16).

(** An upsert that finds the id keeps the ids and the general notes of
    every row, in place. *)
Lemma upsert_row_found (key : SqlVal) (visitor : Obj) (t : list Row) :
  has_id key t = true ->
  map id (upsert_row key visitor t) = map id t
  /\ map generalNotes (upsert_row key visitor t) = map generalNotes t.
Proof.
  unfold upsert_row. intros ->. rewrite !map_map.
  split; apply map_ext; intros r; destruct (sql_eqb (id r) key); reflexivity.
Qed.

Lemma upsert_row_columns (key : SqlVal) (visitor : Obj) (t : list Row) :
  exists inserted,
    map id (upsert_row key visitor t) = map id t ++ map id inserted
    /\ map generalNotes (upsert_row key visitor t)
       = map generalNotes t ++ map (fun _ => SText []) inserted.
Proof.
  destruct (has_id key t) eqn:Hh.
  - exists []. simpl. rewrite !app_nil_r. now apply upsert_row_found.
  - exists [imported_row key (SText []) visitor].
    unfold upsert_row. rewrite Hh, !map_app. auto.
Qed.

(** C9: a turn of the loop that finds the resolved id in the table leaves
    the general notes (and the id) of every row as they were; a turn that
    does not find it adds one row whose general notes are the empty string,
    whatever the CSV row holds.  Over the whole import, the rows the table
    had keep their general notes and their place, and every row added has
    empty general notes. *)
Theorem C9_general_notes_untouched :
  forall (csvData : jsstring) (s : State),
    txn s = None ->
    (forall visitor s1 s2,
        import_visitor visitor s1 = (Ok true, s2) ->
        exists visitorId sid,
          resolve_id visitor s1 = (Ok visitorId, sid)
          /\ if has_id (key_of visitorId) (table s1)
             then map id (table s2) = map id (table s1)
                  /\ map generalNotes (table s2) = map generalNotes (table s1)
             else exists r,
                    table s2 = table s1 ++ [r]
                    /\ id r = key_of visitorId /\ generalNotes r = SText [])
    /\ (exists inserted : list Row,
          map id (table (snd (handleImport csvData s)))
          = map id (table s) ++ map id inserted
          /\ map generalNotes (table (snd (handleImport csvData s)))
             = map generalNotes (table s) ++ map (fun _ => SText []) inserted).
Proof.
  intros csvData s Htxn. split.
  - intros visitor s1 s2 Hv.
    apply import_visitor_inv in Hv as (_ & _ & vid & sid & Hid & _ & Ht).
    exists vid, sid. split; [exact Hid|]. rewrite Ht.
    destruct (has_id (key_of vid) (table s1)) eqn:Hh.
    + now apply upsert_row_found.
    + unfold upsert_row. rewrite Hh. eexists. repeat split.
  - assert (Hnone : exists inserted : list Row,
               map id (table s) = map id (table s) ++ map id inserted
               /\ map generalNotes (table s)
                  = map generalNotes (table s) ++ map (fun _ => SText []) inserted).
    { exists []. simpl. now rewrite !app_nil_r. }
    destruct csvData as [|c0 csvData]; [exact Hnone|].
    set (csv := c0 :: csvData) in *.
    assert (Hne : csv <> []) by discriminate.
    pose proof (handleImport_cases fault random16 csv s Hne Htxn) as Hc.
    destruct (import_loop (parseCsv csv) 0 (snd (run_begin s))) as [[n|e] s1] eqn:Hloop;
      rewrite Hc; simpl; auto.
    revert Hloop.
    apply (import_loop_table_ind fault random16
             (fun t => exists inserted : list Row,
                map id t = map id (table s) ++ map id inserted
                /\ map generalNotes t
                   = map generalNotes (table s) ++ map (fun _ => SText []) inserted)
             (fun _ => True)).
    + intros visitor s0 vid sid t _ _ _ (ins & H1 & H2).
      destruct (upsert_row_columns (key_of vid) visitor t) as (ins' & H1' & H2').
      exists (ins ++ ins'). rewrite H1', H2', H1, H2, !map_app, !app_assoc. auto.
    + apply Forall_forall. auto.
    + unfold run_begin. rewrite Htxn. exact Hnone.
Qed.

End ImportNotes.

(** ** Importing the same file twice *)

Section Reimport.
Import Js Renderer ImportSpec.

Variable fault : Stmt -> bool.
Variable random16 : nat -> N.

Local Abbreviation import_visitor := (import_visitor fault random16).
Local Abbreviation import_loop := (import_loop fault random16).
Local Abbreviation handleImport := (handleImport fault random16).
Local Abbreviation resolve_id := (resolve_id random16).

Lemma has_id_map_id (key : SqlVal) (t : list Row) :
  has_id key t = existsb (fun i => sql_eqb i key) (map id t).
Proof.
  unfold has_id. induction t as [|r t IH]; simpl; congruence.
Qed.

Lemma reapply_id (r : Row) (visitor : Obj) : id (reapply r visitor) = id r.
Proof. unfold reapply. destruct (_ && _); reflexivity. Qed.

Lemma reapply_generalNotes (r : Row) (visitor : Obj) :
  generalNotes (reapply r visitor) = generalNotes r.
Proof. unfold reapply. destruct (_ && _); reflexivity. Qed.

Lemma reapply_all_id (visitors : list Obj) (r : Row) :
  id (fold_left reapply visitors r) = id r
  /\ generalNotes (fold_left reapply visitors r) = generalNotes r.
Proof.
  revert r; induction visitors as [|v visitors IH]; intros r; simpl; auto.
  destruct (IH (reapply r v)) as [-> ->].
  now rewrite reapply_id, reapply_generalNotes.
Qed.

(** On a table that holds the id, a turn of the loop works row by row. *)
Lemma import_step_rowwise (t : list Row) (visitor : Obj) :
  (accepted visitor = true -> has_id (key_of (field "id" visitor)) t = true) ->
  import_step t visitor = map (fun r => reapply r visitor) t.
Proof.
  unfold import_step, reapply, upsert_row. intros H.
  destruct (accepted visitor); simpl.
  - now rewrite H.
  - symmetry. apply map_id.
Qed.

Lemma import_steps_rowwise (visitors : list Obj) (t : list Row) :
  (forall v, In v visitors -> accepted v = true ->
             has_id (key_of (field "id" v)) t = true) ->
  fold_left import_step visitors t = map (fold_left reapply visitors) t.
Proof.
  revert t; induction visitors as [|v visitors IH]; intros t H; simpl.
  - symmetry. apply map_id.
  - rewrite import_step_rowwise by (apply H; simpl; auto).
    rewrite IH, map_map; [reflexivity|].
    intros w Hw Hacc. rewrite has_id_map_id, map_map.
    erewrite map_ext; [rewrite <- has_id_map_id; apply H; simpl; auto|].
    intros r. apply reapply_id.
Qed.

Lemma import_step_keeps_ids (key : SqlVal) (t : list Row) (visitor : Obj) :
  has_id key t = true -> has_id key (import_step t visitor) = true.
Proof.
  unfold import_step. destruct (accepted visitor); auto.
  unfold upsert_row.
  destruct (has_id (key_of (field "id" visitor)) t) eqn:Hh; intros H.
  - rewrite has_id_map_id, map_map.
    erewrite map_ext; [rewrite <- has_id_map_id; exact H|].
    intros r. destruct (sql_eqb (id r) _); reflexivity.
  - unfold has_id in *. rewrite existsb_app, H. reflexivity.
Qed.

Lemma import_steps_keep_ids (key : SqlVal) (visitors : list Obj) (t : list Row) :
  has_id key t = true -> has_id key (fold_left import_step visitors t) = true.
Proof.
  revert t; induction visitors as [|v visitors IH]; intros t H; simpl; auto.
  apply IH. now apply import_step_keeps_ids.
Qed.

Lemma import_step_adds_id (t : list Row) (visitor : Obj) (k : jsstring) :
  accepted visitor = true -> key_of (field "id" visitor) = SText k ->
  has_id (SText k) (import_step t visitor) = true.
Proof.
  intros Hacc Hk.
  destruct (has_id (SText k) t) eqn:Hh.
  - now apply import_step_keeps_ids.
  - unfold import_step, upsert_row. rewrite Hacc, Hk, Hh.
    unfold has_id. rewrite existsb_app. simpl.
    now rewrite str_eqb_refl, orb_true_r.
Qed.

Lemma import_steps_add_ids (visitors : list Obj) (t : list Row) :
  (forall v, In v visitors -> accepted v = true ->
             exists k, key_of (field "id" v) = SText k) ->
  forall v, In v visitors -> accepted v = true ->
            has_id (key_of (field "id" v)) (fold_left import_step visitors t) = true.
Proof.
  revert t; induction visitors as [|w visitors IH]; intros t Hk v Hin Hacc; simpl.
  - destruct Hin.
  - destruct Hin as [<-|Hin].
    + destruct (Hk w) as [k Ek]; simpl; auto. rewrite Ek.
      apply import_steps_keep_ids. now apply import_step_adds_id.
    + apply IH; auto. intros u Hu. apply Hk. simpl; auto.
Qed.

(** Every row of the table the batch built is left as it is when the batch
    is applied to it once more. *)
Lemma reapply_fixes_rows (visitors : list Obj) (t : list Row) :
  (forall v, In v visitors -> accepted v = true ->
             exists k, key_of (field "id" v) = SText k) ->
  forall r, In r (fold_left import_step visitors t) ->
            fold_left reapply visitors r = r.
Proof.
  induction visitors as [|v visitors IH] using rev_ind; intros Hk r Hr; [reflexivity|].
  rewrite fold_left_app in *. simpl in *.
  assert (Hk' : forall w, In w visitors -> accepted w = true ->
                          exists k, key_of (field "id" w) = SText k).
  { intros w Hw. apply Hk. rewrite in_app_iff. auto. }
  specialize (IH Hk').
  set (t' := fold_left import_step visitors t) in *.
  destruct (reapply_all_id visitors r) as [Eid Egn].
  unfold import_step in Hr. unfold reapply at 1. rewrite Eid.
  destruct (accepted v) eqn:Hacc; simpl; [|auto].
  destruct (Hk v) as [k Ek]; [rewrite in_app_iff; simpl; auto|auto|].
  rewrite Ek in *.
  apply in_upsert_row in Hr as [[Hr Hm]|[(old & Hold & Hm & ->)|[Hh ->]]].
  - rewrite Hm. auto.
  - simpl. simpl in Eid, Egn. rewrite Hm, Egn. reflexivity.
  - simpl. simpl in Eid, Egn. rewrite str_eqb_refl, Egn. reflexivity.
Qed.

Lemma import_steps_idempotent (visitors : list Obj) (t : list Row) :
  (forall v, In v visitors -> accepted v = true ->
             exists k, key_of (field "id" v) = SText k) ->
  fold_left import_step visitors (fold_left import_step visitors t)
  = fold_left import_step visitors t.
Proof.
  intros Hk.
  rewrite import_steps_rowwise by (now apply import_steps_add_ids).
  rewrite <- (map_id (fold_left import_step visitors t)) at 2.
  apply map_ext_in. intros r Hr. now apply reapply_fixes_rows with t.
Qed.

(** A turn of the loop on a row that brings its id reads nothing of the
    state but the table. *)
Lemma import_visitor_reads_table (visitor : Obj) (s sa : State) :
  (accepted visitor = true -> truthy (field "id" visitor) = true) ->
  table s = table sa ->
  fst (import_visitor visitor s) = fst (import_visitor visitor sa)
  /\ table (snd (import_visitor visitor s)) = table (snd (import_visitor visitor sa)).
Proof.
  intros Hid Ht. unfold Renderer.import_visitor.
  unfold accepted in Hid.
  destruct (truthy (field "firstName" visitor)); simpl; [|auto].
  destruct (truthy (field "lastName" visitor)); simpl; [|auto].
  unfold Renderer.resolve_id. rewrite (Hid eq_refl).
  rewrite !bind_run. unfold ret. rewrite !bind_run.
  unfold exec_select.
  destruct (fault (SelectVisitor [field "id" visitor])); [auto|].
  destruct (bind_all [field "id" visitor]) as [[|key [|]]|e]; simpl; auto.
  rewrite !length_filter_existsb, Ht.
  destruct (existsb _ (table sa)); rewrite !bind_run.
  - unfold run_update.
    match goal with |- context [fault ?st] => destruct (fault st) end; [auto|].
    match goal with |- context [bind_all ?ps] =>
      destruct (bind_all ps) as [xs|e] eqn:Eb end; [|auto].
    apply bind_all_sql_of in Eb. subst xs. simpl. rewrite Ht. auto.
  - unfold run_insert.
    match goal with |- context [fault ?st] => destruct (fault st) end; [auto|].
    match goal with |- context [bind_all ?ps] =>
      destruct (bind_all ps) as [xs|e] eqn:Eb end; [|auto].
    apply bind_all_sql_of in Eb. subst xs. simpl map. cbv beta iota.
    rewrite Ht. destruct (existsb _ (table sa)); simpl; rewrite ?Ht; auto.
Qed.

Lemma import_loop_reads_table (visitors : list Obj) (n : nat) (s sa : State) :
  rows_bring_ids visitors ->
  table s = table sa ->
  fst (import_loop visitors n s) = fst (import_loop visitors n sa)
  /\ table (snd (import_loop visitors n s)) = table (snd (import_loop visitors n sa)).
Proof.
  revert n s sa; induction visitors as [|v visitors IH]; intros n s sa Hids Ht; simpl.
  - auto.
  - rewrite !bind_run.
    destruct (import_visitor_reads_table v s sa) as [E1 E2];
      [apply Hids; simpl; auto|exact Ht|].
    destruct (import_visitor v s) as [r1 s1], (import_visitor v sa) as [r2 s2].
    simpl in E1, E2. subst r2.
    destruct r1 as [b|e]; [|auto].
    apply IH; auto. intros w Hw. apply Hids. simpl; auto.
Qed.

(** When the loop goes through a batch whose rows bring their ids, the
    table it leaves is the fold of [import_step]. *)
Lemma import_loop_steps (visitors : list Obj) (n n' : nat) (s s' : State) :
  rows_bring_ids visitors ->
  import_loop visitors n s = (Ok n', s') ->
  table s' = fold_left import_step visitors (table s).
Proof.
  revert n s; induction visitors as [|v visitors IH]; intros n s Hids; simpl.
  - now intros [= _ <-].
  - rewrite bind_run.
    destruct (import_visitor v s) as [[b|e] s1] eqn:Ev; [|discriminate].
    intros H. apply IH in H; [|intros w Hw; apply Hids; simpl; auto].
    rewrite H. f_equal.
    apply import_visitor_inv in Ev as [_ Hr]. unfold import_step.
    destruct b.
    + destruct Hr as (Hacc & vid & sid & Hid & _ & ->). rewrite Hacc.
      destruct (resolve_id_inv random16 v s) as (vid' & sid' & Hid' & _ & _ & Htrue & _).
      rewrite Hid in Hid'. injection Hid' as <- <-.
      destruct Htrue as [-> _]; [apply Hids; simpl; auto|reflexivity].
    + destruct Hr as [-> ->]. reflexivity.
Qed.

Lemma parsed_keys_are_text (csvData : jsstring) :
  rows_bring_ids (parseCsv csvData) ->
  forall v, In v (parseCsv csvData) -> accepted v = true ->
            exists k, key_of (field "id" v) = SText k.
Proof.
  intros Hids v Hin Hacc. specialize (Hids v Hin Hacc).
  destruct (parseCsv_cells csvData (js "id") v Hin) as [Hu|[x Hx]];
    unfold field in *.
  - rewrite Hu in Hids. discriminate.
  - rewrite Hx. exists x. reflexivity.
Qed.

(** C5, amended: when every row of the file that the import lets through
    brings a non-empty id of its own, importing the file a second time
    leaves the table, the list in memory and the database saved in local
    storage as the first import left them. *)
Theorem C5_reimport_of_rows_with_ids :
  forall (csvData : jsstring) (s : State),
    txn s = None ->
    rows_bring_ids (parseCsv csvData) ->
    let s1 := snd (handleImport csvData s) in
    let s2 := snd (handleImport csvData s1) in
    table s2 = table s1
    /\ visitorsList s2 = visitorsList s1
    /\ localStorage s2 = localStorage s1.
Proof.
  intros csvData s Htxn Hids.
  destruct csvData as [|c0 csvData]; [simpl; auto|].
  set (csv := c0 :: csvData) in *.
  assert (Hne : csv <> []) by discriminate.
  pose proof (handleImport_cases fault random16 csv s Hne Htxn) as Hc.
  destruct (import_loop (parseCsv csv) 0 (snd (run_begin s))) as [r1 s1'] eqn:Hloop1.
  assert (Hb : table (snd (run_begin s)) = table s).
  { unfold run_begin. now rewrite Htxn. }
  destruct r1 as [n1|e1]; cbv zeta; rewrite Hc; simpl snd.
  - match goal with |- context [handleImport csv ?st] => set (s1 := st) end.
    assert (Htxn1 : txn s1 = None) by reflexivity.
    pose proof (handleImport_cases fault random16 csv s1 Hne Htxn1) as Hc2.
    destruct (import_loop (parseCsv csv) 0 (snd (run_begin s1))) as [r2 s2'] eqn:Hloop2.
    destruct r2 as [n2|e2]; rewrite Hc2; simpl; [|auto].
    apply import_loop_steps in Hloop1, Hloop2; auto.
    assert (E : table s2' = table s1').
    { rewrite Hloop2.
      replace (table (snd (run_begin s1))) with (table s1') by reflexivity.
      rewrite Hloop1.
      apply import_steps_idempotent. now apply parsed_keys_are_text. }
    rewrite E. auto.
  - match goal with |- context [handleImport csv ?st] => set (s1 := st) end.
    assert (Htxn1 : txn s1 = None) by reflexivity.
    pose proof (handleImport_cases fault random16 csv s1 Hne Htxn1) as Hc2.
    destruct (import_loop_reads_table (parseCsv csv) 0 (snd (run_begin s1))
                (snd (run_begin s)) Hids) as [E1 _].
    { unfold run_begin. simpl. now rewrite Htxn. }
    rewrite Hloop1 in E1.
    destruct (import_loop (parseCsv csv) 0 (snd (run_begin s1))) as [r2 s2'].
    simpl in E1. subst r2. rewrite Hc2. simpl. auto.
Qed.

End Reimport.

(** ** The import at work on example files *)

Section ImportExamples.
Import Js Renderer ImportSpec.

(** C5, as the claim words it, fails: a row without an id gets a fresh
    identifier at each import, so the second import of the same file adds a
    second row instead of finding the first. *)
Lemma C5_reimport_without_ids_adds_rows :
  length (table (snd (handleImport no_fault counting csv_without_id empty_state))) = 1
  /\ length (table (snd (handleImport no_fault counting csv_without_id
                           (snd (handleImport no_fault counting csv_without_id
                                   empty_state))))) = 2.
Proof. split; vm_compute; reflexivity. Qed.

Lemma C5_reimport_of_rows_with_ids_witness :
  txn empty_state = None
  /\ rows_bring_ids (parseCsv csv_with_ids)
  /\ table (snd (handleImport no_fault counting csv_with_ids
                   (snd (handleImport no_fault counting csv_with_ids empty_state))))
     = table (snd (handleImport no_fault counting csv_with_ids empty_state)).
Proof.
  assert (Hids : rows_bring_ids (parseCsv csv_with_ids)).
  { intros v Hin. vm_compute in Hin.
    destruct Hin as [<-|[<-|[<-|[]]]]; vm_compute; congruence. }
  split; [reflexivity|]. split; [exact Hids|].
  exact (proj1 (C5_reimport_of_rows_with_ids no_fault counting csv_with_ids
                  empty_state eq_refl Hids)).
Defined.

Lemma C2_import_is_atomic_witness :
  txn empty_state = None
  /\ table (snd (handleImport no_fault counting csv_short_row empty_state))
     = table empty_state
  /\ localStorage (snd (handleImport no_fault counting csv_short_row empty_state))
     = localStorage empty_state.
Proof.
  split; [reflexivity|].
  destruct (C2_import_is_atomic no_fault counting csv_short_row empty_state eq_refl)
    as [Hrollback _].
  destruct (Hrollback
              (firstn 2 (parseCsv csv_short_row))
              (nth 2 (parseCsv csv_short_row) [])
              []
              1
              (snd (import_loop no_fault counting (firstn 2 (parseCsv csv_short_row)) 0
                      (snd (run_begin empty_state))))
              BindError
              (snd (import_loop no_fault counting (firstn 2 (parseCsv csv_short_row)) 0
                      (snd (run_begin empty_state)))))
    as (H1 & _ & H3 & _).
  - vm_compute. reflexivity.
  - vm_compute. reflexivity.
  - vm_compute. reflexivity.
  - split; assumption.
Defined.

Lemma C9_general_notes_untouched_witness :
  txn store_with_notes = None
  /\ map generalNotes (table store_with_notes) = [SText (js "keep me")]
  /\ map (field "generalNotes") (parseCsv csv_with_general_notes)
     = [JStr (js "from the file"); JStr (js "from the file too")]
  /\ map generalNotes
       (table (snd (import_visitor no_fault counting
                      (nth 0 (parseCsv csv_with_general_notes) [])
                      (snd (run_begin store_with_notes)))))
     = [SText (js "keep me")]
  /\ map generalNotes
       (table (snd (handleImport no_fault counting csv_with_general_notes
                      store_with_notes)))
     = [SText (js "keep me"); SText []]
  /\ exists inserted : list Row,
       map generalNotes
         (table (snd (handleImport no_fault counting csv_with_general_notes
                        store_with_notes)))
       = map generalNotes (table store_with_notes)
         ++ map (fun _ => SText []) inserted.
Proof.
  destruct (C9_general_notes_untouched no_fault counting csv_with_general_notes
              store_with_notes eq_refl)
    as (Hrow & inserted & _ & H).
  split; [reflexivity|]. split; [reflexivity|]. split; [reflexivity|].
  split.
  - destruct (Hrow (nth 0 (parseCsv csv_with_general_notes) [])
                (snd (run_begin store_with_notes))
                (snd (import_visitor no_fault counting
                        (nth 0 (parseCsv csv_with_general_notes) [])
                        (snd (run_begin store_with_notes))))
                eq_refl)
      as (visitorId & sid & Hid & Hnotes).
    vm_compute in Hid. injection Hid as <- _. exact (proj2 Hnotes).
  - split; [reflexivity|]. exists inserted. exact H.
Defined.

Lemma C10_imported_ids_are_non_empty_witness :
  txn empty_state = None
  /\ In (nth 1 (parseCsv csv_one_without_id) []) (parseCsv csv_one_without_id)
  /\ field "id" (nth 1 (parseCsv csv_one_without_id) []) = JStr []
  /\ exists idText sid,
       resolve_id counting (nth 1 (parseCsv csv_one_without_id) [])
         (snd (run_begin empty_state))
       = (Ok (JStr idText), sid)
       /\ idText <> []
       /\ exists r,
            In r (table (snd (import_visitor no_fault counting
                                (nth 1 (parseCsv csv_one_without_id) [])
                                (snd (run_begin empty_state)))))
            /\ id r = SText idText.
Proof.
  assert (Hin : In (nth 1 (parseCsv csv_one_without_id) [])
                  (parseCsv csv_one_without_id)).
  { right. left. reflexivity. }
  split; [reflexivity|]. split; [exact Hin|]. split; [reflexivity|].
  destruct (C10_imported_ids_are_non_empty no_fault counting csv_one_without_id
              empty_state eq_refl)
    as (_ & Hrow & _).
  destruct (Hrow (nth 1 (parseCsv csv_one_without_id) [])
              (snd (run_begin empty_state))
              (snd (import_visitor no_fault counting
                      (nth 1 (parseCsv csv_one_without_id) [])
                      (snd (run_begin empty_state))))
              Hin eq_refl)
    as (idText & sid & Hid & Hnz & Hr & _).
  exists idText, sid. split; [exact Hid|]. split; [exact Hnz|exact Hr].
Defined.

End ImportExamples.

(** ** The search (script.js, [handleSearch]) *)

Section Search.
Import Js Renderer ImportSpec.

(** C6: with Jane Doe and Janet Smith in the list, in this order, the query
    [jane doe] selects and shows the first record alone, as the exact
    match, and the query [ja] lists both records and selects none. *)
Theorem C6_search_exact_match_and_candidates :
  forall (s : State) (r1 r2 : Row),
    visitorsList s = [r1; r2] ->
    firstName r1 = SText (js "Jane") -> lastName r1 = SText (js "Doe") ->
    firstName r2 = SText (js "Janet") -> lastName r2 = SText (js "Smith") ->
    handleSearch (js "jane doe") s
    = (Ok tt, set_search (id r1) (ViewProfile r1) s)
    /\ handleSearch (js "ja") s
       = (Ok tt, set_search (selectedVisitorId s) (ViewResults [r1; r2]) s).
Proof.
  intros s r1 r2 Hl F1 L1 F2 L2.
  split; unfold handleSearch; simpl; rewrite Hl; simpl;
    unfold matches_term; rewrite ?F1, ?L1, ?F2, ?L2; simpl;
    unfold is_exact; rewrite ?F1, ?L1, ?F2, ?L2; reflexivity.
Qed.

Lemma C6_search_exact_match_and_candidates_witness :
  handleSearch (js "jane doe")
    (mkState [] None [jane_doe SNull; janet_smith SNull] None 0 None SNull ViewNone)
  = (Ok tt,
     mkState [] None [jane_doe SNull; janet_smith SNull] None 0 None
       (SText (js "v1")) (ViewProfile (jane_doe SNull))).
Proof.
  exact (proj1 (C6_search_exact_match_and_candidates
                  (mkState [] None [jane_doe SNull; janet_smith SNull] None 0 None
                     SNull ViewNone)
                  (jane_doe SNull) (janet_smith SNull)
                  eq_refl eq_refl eq_refl eq_refl eq_refl)).
Defined.

End Search.

(** ** Trimming, splitting and joining *)

Section TrimFacts.
Import Js Spec.

Lemma trimStart_split (s : jsstring) :
  exists l, s = l ++ trimStart s /\ Forall (fun c => is_ws c = true) l.
Proof.
  induction s as [|c s (l & E & Hl)]; simpl.
  - exists []. auto.
  - destruct (is_ws c) eqn:W.
    + exists (c :: l). simpl. split; [congruence|auto].
    + exists []. auto.
Qed.

Lemma trimStart_head (s : jsstring) :
  match trimStart s with [] => True | c :: _ => is_ws c = false end.
Proof.
  induction s as [|c s IH]; simpl; auto.
  destruct (is_ws c) eqn:W; auto.
Qed.

Lemma trimStart_fix (s : jsstring) :
  match s with [] => True | c :: _ => is_ws c = false end -> trimStart s = s.
Proof. destruct s as [|c s]; simpl; auto. now intros ->. Qed.

Lemma trimStart_length (s : jsstring) : length (trimStart s) <= length s.
Proof.
  induction s as [|c s IH]; simpl; auto.
  destruct (is_ws c); simpl; lia.
Qed.

Lemma trimStart_fixed_head (s : jsstring) :
  trimStart s = s -> match s with [] => True | c :: _ => is_ws c = false end.
Proof.
  destruct s as [|c s]; simpl; auto.
  destruct (is_ws c); auto.
  intros E. pose proof (trimStart_length s) as H. rewrite E in H. simpl in H. lia.
Qed.

Lemma trimStart_idem (s : jsstring) : trimStart (trimStart s) = trimStart s.
Proof. apply trimStart_fix, trimStart_head. Qed.

Lemma trimStart_Forall (P : char -> Prop) (s : jsstring) :
  Forall P s -> Forall P (trimStart s).
Proof.
  induction 1 as [|c s Hc Hs IH]; simpl; auto.
  destruct (is_ws c); auto.
Qed.

Lemma trim_Forall (P : char -> Prop) (s : jsstring) :
  Forall P s -> Forall P (trim s).
Proof.
  intros H. unfold trim, trimEnd.
  apply Forall_rev, trimStart_Forall, Forall_rev, trimStart_Forall, H.
Qed.

Lemma tight_trim (s : jsstring) : tight s -> trim s = s.
Proof.
  intros [H1 H2]. unfold trim, trimEnd. rewrite H1, H2. apply rev_involutive.
Qed.

Lemma tight_nil : tight [].
Proof. split; reflexivity. Qed.

Lemma trim_tight (s : jsstring) : tight (trim s).
Proof.
  unfold tight, trim, trimEnd.
  set (t := trimStart s). set (u := trimStart (rev t)).
  split.
  - apply trimStart_fix.
    destruct (trimStart_split (rev t)) as (l & E & _). fold u in E.
    assert (Et : t = rev u ++ rev l).
    { rewrite <- (rev_involutive t), E, rev_app_distr. reflexivity. }
    pose proof (trimStart_head s) as Hh. fold t in Hh.
    destruct (rev u) as [|c x]; auto.
    rewrite Et in Hh. exact Hh.
  - rewrite rev_involutive. apply trimStart_idem.
Qed.

Lemma trim_idem (s : jsstring) : trim (trim s) = trim s.
Proof. apply tight_trim, trim_tight. Qed.

(** A string with a character that is not white space is not blank. *)
Lemma trimStart_keeps (s : jsstring) (c : char) :
  In c s -> is_ws c = false -> In c (trimStart s).
Proof.
  induction s as [|d s IH]; simpl; auto.
  intros [<-|Hin] W.
  - rewrite W. simpl; auto.
  - destruct (is_ws d); simpl; auto.
Qed.

Lemma trim_keeps (s : jsstring) (c : char) :
  In c s -> is_ws c = false -> In c (trim s).
Proof.
  intros Hin W. unfold trim, trimEnd.
  apply in_rev. rewrite rev_involutive.
  apply trimStart_keeps; auto. apply -> in_rev. now apply trimStart_keeps.
Qed.

Lemma tight_head (s : jsstring) :
  tight s -> match s with [] => True | c :: _ => is_ws c = false end.
Proof. intros [H _]. now apply trimStart_fixed_head. Qed.

(** A tight string does not end with a carriage return. *)
Lemma tight_strip_cr (s : jsstring) : tight s -> strip_cr (rev s) = rev s.
Proof.
  intros [_ H]. apply trimStart_fixed_head in H.
  destruct (rev s) as [|c x]; simpl; auto.
  destruct (N.eqb_spec c CR) as [->|]; auto. discriminate.
Qed.

End TrimFacts.

Section SplitFacts.
Import Js Spec.

Lemma join_cons (sep : char) (p q : jsstring) (rest : list jsstring) :
  join sep (p :: q :: rest) = p ++ sep :: join sep (q :: rest).
Proof. reflexivity. Qed.

Lemma join_Forall (P : char -> Prop) (sep : char) (parts : list jsstring) :
  P sep -> Forall (Forall P) parts -> Forall P (join sep parts).
Proof.
  intros Hsep. induction 1 as [|p parts Hp Hparts IH]; simpl; auto.
  destruct parts as [|q parts]; auto.
  apply Forall_app. split; auto.
Qed.

Lemma in_join (sep : char) (parts : list jsstring) (p : jsstring) (c : char) :
  In p parts -> In c p -> In c (join sep parts).
Proof.
  induction parts as [|q parts IH]; simpl; [tauto|].
  intros [->|Hin] Hc.
  - destruct parts; auto. apply in_or_app. auto.
  - destruct parts as [|q' parts]; [destruct Hin|].
    apply in_or_app. right. right. auto.
Qed.

Lemma split_on_piece (sep : char) (p rest : jsstring) :
  Forall (fun c => c <> sep) p ->
  split_on sep (p ++ sep :: rest) = p :: split_on sep rest.
Proof.
  induction 1 as [|c p Hc Hp IH]; simpl.
  - now rewrite N.eqb_refl.
  - destruct (N.eqb_spec c sep); [contradiction|]. now rewrite IH.
Qed.

Lemma split_on_last (sep : char) (p : jsstring) :
  Forall (fun c => c <> sep) p -> split_on sep p = [p].
Proof.
  induction 1 as [|c p Hc Hp IH]; simpl; auto.
  destruct (N.eqb_spec c sep); [contradiction|]. now rewrite IH.
Qed.

Lemma split_on_join (sep : char) (parts : list jsstring) :
  parts <> [] -> Forall (Forall (fun c => c <> sep)) parts ->
  split_on sep (join sep parts) = parts.
Proof.
  induction parts as [|p parts IH]; intros Hne H; [congruence|].
  inversion H as [|? ? Hp Hparts]; subst.
  destruct parts as [|q parts].
  - simpl. now apply split_on_last.
  - rewrite join_cons, split_on_piece by exact Hp. f_equal.
    apply IH; [discriminate|exact Hparts].
Qed.

Lemma split_on_pieces (P : char -> Prop) (sep : char) (s : jsstring) :
  Forall P s -> Forall (Forall (fun c => P c /\ c <> sep)) (split_on sep s).
Proof.
  induction 1 as [|c s Hc Hs IH]; simpl.
  - repeat constructor.
  - destruct (N.eqb_spec c sep).
    + constructor; auto.
    + destruct (split_on sep s) as [|h r]; inversion IH; subst;
        repeat constructor; auto.
Qed.

Lemma strip_cr_Forall (P : char -> Prop) (cur : jsstring) :
  Forall P cur -> Forall P (strip_cr cur).
Proof.
  destruct 1 as [|c cur Hc Hcur]; simpl; auto.
  destruct (N.eqb c CR); auto.
Qed.

Lemma split_lines_from_no_lf (cur s : jsstring) :
  Forall (fun c => c <> LF) cur ->
  Forall (Forall (fun c => c <> LF)) (split_lines_from cur s).
Proof.
  revert cur; induction s as [|c s IH]; intros cur Hcur; simpl.
  - constructor; auto. now apply Forall_rev.
  - destruct (N.eqb_spec c LF).
    + constructor; auto. now apply Forall_rev, strip_cr_Forall.
    + apply IH. constructor; auto.
Qed.

Lemma split_lines_no_lf (s : jsstring) :
  Forall (Forall (fun c => c <> LF)) (split_lines s).
Proof. apply split_lines_from_no_lf. constructor. Qed.

Lemma split_lines_from_piece (cur p rest : jsstring) :
  Forall (fun c => c <> LF) p ->
  split_lines_from cur (p ++ LF :: rest)
  = rev (strip_cr (rev p ++ cur)) :: split_lines_from [] rest.
Proof.
  intros H. revert cur. induction H as [|c p Hc Hp IH]; intros cur; simpl.
  - reflexivity.
  - destruct (N.eqb_spec c LF); [contradiction|].
    rewrite IH, <- app_assoc. reflexivity.
Qed.

Lemma split_lines_from_last (cur p : jsstring) :
  Forall (fun c => c <> LF) p ->
  split_lines_from cur p = [rev (rev p ++ cur)].
Proof.
  intros H. revert cur. induction H as [|c p Hc Hp IH]; intros cur; simpl.
  - reflexivity.
  - destruct (N.eqb_spec c LF); [contradiction|].
    rewrite IH, <- app_assoc. reflexivity.
Qed.

(** Lines without line feed that do not end with a carriage return come
    back from [split] as they went into [join]. *)
Lemma split_lines_join (parts : list jsstring) :
  parts <> [] ->
  Forall (fun p => Forall (fun c => c <> LF) p /\ strip_cr (rev p) = rev p) parts ->
  split_lines (join LF parts) = parts.
Proof.
  unfold split_lines.
  induction parts as [|p parts IH]; intros Hne H; [congruence|].
  inversion H as [|? ? [Hp Hcr] Hparts]; subst.
  destruct parts as [|q parts].
  - simpl. rewrite split_lines_from_last by exact Hp.
    now rewrite app_nil_r, rev_involutive.
  - rewrite join_cons, split_lines_from_piece by exact Hp.
    rewrite app_nil_r, Hcr, rev_involutive. f_equal.
    apply IH; [discriminate|exact Hparts].
Qed.

End SplitFacts.

(** ** Property names and their order *)

Section ArrayIndex.
Import Js Spec.
Open Scope N_scope.

Lemma digits_value_acc (k : jsstring) (acc : N) :
  fold_left digit_step k acc
  = acc * 10 ^ N.of_nat (length k) + fold_left digit_step k 0.
Proof.
  revert acc; induction k as [|d k IH]; intros acc.
  - simpl. lia.
  - cbn [fold_left length]. rewrite IH, (IH (digit_step 0 d)).
    rewrite Nat2N.inj_succ, N.pow_succ_r'. unfold digit_step. lia.
Qed.

Lemma is_digit_range (d : char) : is_digit d = true -> 48 <= d <= 57.
Proof.
  unfold is_digit. intros H. apply andb_true_iff in H as [H1 H2].
  apply N.leb_le in H1, H2. lia.
Qed.

Lemma digits_value_bound (k : jsstring) :
  forallb is_digit k = true ->
  fold_left digit_step k 0 < 10 ^ N.of_nat (length k).
Proof.
  induction k as [|d k IH]; intros H.
  - simpl. lia.
  - cbn [forallb] in H. apply andb_true_iff in H as [Hd Hk].
    specialize (IH Hk).
    cbn [fold_left length]. rewrite digits_value_acc.
    rewrite Nat2N.inj_succ, N.pow_succ_r'.
    apply is_digit_range in Hd.
    assert (Hd' : digit_step 0 d <= 9) by (unfold digit_step; lia).
    revert IH Hd'.
    generalize (fold_left digit_step k 0), (10 ^ N.of_nat (length k)), (digit_step 0 d).
    intros V Q D HV HD.
    assert (D * Q <= 9 * Q) by (apply N.mul_le_mono_r; exact HD). lia.
Qed.

Lemma digits_same_length (a b : jsstring) :
  length a = length b ->
  forallb is_digit a = true -> forallb is_digit b = true ->
  fold_left digit_step a 0 = fold_left digit_step b 0 -> a = b.
Proof.
  revert b; induction a as [|x a IH]; intros [|y b]; try discriminate; auto.
  cbn [length forallb fold_left]. intros [= L] Ha Hb.
  apply andb_true_iff in Ha as [Hx Ha]. apply andb_true_iff in Hb as [Hy Hb].
  rewrite (digits_value_acc a), (digits_value_acc b), L.
  intros E.
  pose proof (digits_value_bound a Ha) as Ba.
  pose proof (digits_value_bound b Hb) as Bb. rewrite L in Ba.
  assert (E' : 10 ^ N.of_nat (length b) * digit_step 0 x + fold_left digit_step a 0
               = 10 ^ N.of_nat (length b) * digit_step 0 y + fold_left digit_step b 0) by lia.
  apply N.div_mod_unique in E' as [Exy Eab]; auto.
  unfold digit_step in Exy. apply is_digit_range in Hx, Hy.
  f_equal; [lia|auto].
Qed.

Lemma digits_leading (c : char) (t : jsstring) :
  forallb is_digit (c :: t) = true -> c <> 48 ->
  10 ^ N.of_nat (length t) <= fold_left digit_step (c :: t) 0
  /\ fold_left digit_step (c :: t) 0 < 10 ^ N.of_nat (S (length t)).
Proof.
  intros H Hc. split; [|now apply (digits_value_bound (c :: t))].
  cbn [forallb] in H. apply andb_true_iff in H as [Hd _].
  cbn [fold_left]. rewrite digits_value_acc.
  apply is_digit_range in Hd.
  assert (Hd' : 1 <= digit_step 0 c) by (unfold digit_step; lia).
  revert Hd'.
  generalize (fold_left digit_step t 0), (10 ^ N.of_nat (length t)), (digit_step 0 c).
  intros V Q D HD.
  assert (1 * Q <= D * Q) by (apply N.mul_le_mono_r; exact HD). lia.
Qed.

(** A number is the array index of one name only. *)
Lemma array_index_inj (a b : jsstring) (n : N) :
  array_index a = Some n -> array_index b = Some n -> a = b.
Proof.
  unfold array_index. fold digit_step.
  destruct a as [|x a]; [discriminate|]. destruct b as [|y b]; [discriminate|].
  destruct (forallb is_digit (x :: a)) eqn:Da; [|discriminate].
  destruct (forallb is_digit (y :: b)) eqn:Db; [|discriminate].
  simpl andb.
  destruct (negb (x =? 48) || match a with [] => true | _ => false end) eqn:Ca;
    [|discriminate].
  destruct (negb (y =? 48) || match b with [] => true | _ => false end) eqn:Cb;
    [|discriminate].
  destruct (fold_left digit_step (x :: a) 0 <=? 4294967294); [|discriminate].
  destruct (fold_left digit_step (y :: b) 0 <=? 4294967294); [|discriminate].
  intros [= Ea] [= Eb].
  change (fold_left digit_step (x :: a) 0 = n) in Ea.
  change (fold_left digit_step (y :: b) 0 = n) in Eb.
  apply digits_same_length; auto; [|congruence].
  destruct (N.eqb_spec x 48) as [->|Hx], (N.eqb_spec y 48) as [->|Hy]; simpl in Ca, Cb.
  - destruct a, b; try discriminate. reflexivity.
  - destruct a; [|discriminate].
    destruct (digits_leading y b Db Hy) as [Lb _].
    change (0 = n) in Ea. rewrite <- Ea in Eb. rewrite Eb in Lb.
    apply N.le_0_r in Lb. apply (N.pow_nonzero 10) in Lb; [destruct Lb|discriminate].
  - destruct b; [|discriminate].
    destruct (digits_leading x a Da Hx) as [La _].
    change (0 = n) in Eb. rewrite <- Eb in Ea. rewrite Ea in La.
    apply N.le_0_r in La. apply (N.pow_nonzero 10) in La; [destruct La|discriminate].
  - destruct (digits_leading x a Da Hx) as [La Ua].
    destruct (digits_leading y b Db Hy) as [Lb Ub].
    rewrite Ea in La, Ua. rewrite Eb in Lb, Ub.
    cbn [length]. f_equal.
    destruct (Nat.lt_trichotomy (length a) (length b)) as [Hlt|[Heq|Hgt]]; auto; exfalso.
    + assert (10 ^ N.of_nat (S (length a)) <= 10 ^ N.of_nat (length b))
        by (apply N.pow_le_mono_r; lia).
      lia.
    + assert (10 ^ N.of_nat (S (length b)) <= 10 ^ N.of_nat (length a))
        by (apply N.pow_le_mono_r; lia).
      lia.
Qed.

End ArrayIndex.

Section ObjectOrder.
Import Js Spec.

Lemma has_key_In (k : jsstring) (o : Obj) :
  has_key k o = true <-> In k (map fst o).
Proof.
  unfold has_key. rewrite existsb_exists, in_map_iff.
  split.
  - intros (kv & Hin & E). apply str_eqb_eq in E. eauto.
  - intros (kv & E & Hin). exists kv. split; auto. now apply str_eqb_eq.
Qed.

Lemma has_key_not_In (k : jsstring) (o : Obj) :
  has_key k o = false <-> ~ In k (map fst o).
Proof.
  rewrite <- has_key_In. destruct (has_key k o); split; congruence.
Qed.

Lemma obj_update_keys (k : jsstring) (v : JsVal) (o : Obj) :
  map fst (obj_update k v o) = map fst o.
Proof.
  unfold obj_update. rewrite map_map. apply map_ext.
  intros kv. destruct (str_eqb (fst kv) k); reflexivity.
Qed.

(** Where a new array index goes: after the names that stay before it, and
    right before the first name that does not. *)
Lemma obj_insert_index_spec (n : N) (k : jsstring) (v : JsVal) (o : Obj) :
  array_index k = Some n ->
  exists o1 o2,
    o = o1 ++ o2
    /\ obj_insert_index n k v o = o1 ++ (k, v) :: o2
    /\ Forall (fun kv => stays_before (fst kv) k = true) o1
    /\ match o2 with
       | [] => True
       | kv :: _ => stays_before (fst kv) k = false
       end.
Proof.
  intros Hk. induction o as [|kv o (o1 & o2 & E & Ei & H1 & H2)]; simpl.
  - exists [], []. repeat split; auto.
  - assert (Hs : stays_before (fst kv) k
                 = match array_index (fst kv) with
                   | Some m => (m <? n)%N
                   | None => false
                   end).
    { unfold stays_before. now rewrite Hk. }
    destruct (array_index (fst kv)) as [m|].
    + destruct (m <? n)%N eqn:Hm.
      * exists (kv :: o1), o2. simpl. rewrite Ei, E at 1.
        repeat split; auto.
      * exists [], (kv :: o). repeat split; auto.
    + exists [], (kv :: o). repeat split; auto.
Qed.

Lemma stays_before_index (p k : jsstring) (n : N) :
  array_index k = Some n ->
  stays_before p k = match array_index p with
                     | Some m => (m <? n)%N
                     | None => false
                     end.
Proof. unfold stays_before. now intros ->. Qed.

(** Creating a property keeps the order of the names. *)
Lemma key_order_insert (k : jsstring) (K1 K2 : list jsstring) :
  str_eqb k PROTO = false -> ~ In k (K1 ++ K2) ->
  Forall (fun p => stays_before p k = true) K1 ->
  match K2 with
  | [] => True
  | p :: _ => exists n, array_index k = Some n /\ stays_before p k = false
  end ->
  key_order (K1 ++ K2) -> key_order (K1 ++ k :: K2).
Proof.
  intros Hproto Hnew H1 H2 (Hnd & Hnp & Hord).
  repeat split.
  - apply NoDup_app_remove_l in Hnd as Hnd2.
    rewrite in_app_iff in Hnew.
    apply NoDup_app.
    + now apply NoDup_app_remove_r in Hnd.
    + constructor; tauto.
    + intros x Hx1 [<-|Hx2]; [tauto|].
      revert Hx1 Hx2. clear - Hnd. revert x.
      induction K1 as [|y K1 IH]; simpl; [tauto|].
      inversion Hnd; subst. intros x [<-|Hx1] Hx2.
      * apply H1. apply in_or_app. auto.
      * eauto.
  - rewrite in_app_iff in *. simpl. intros [H|[H|H]]; try tauto.
    subst k. now rewrite str_eqb_refl in Hproto.
  - apply ForallOrdPairs_app_inv in Hord as (O1 & O2 & O12).
    apply ForallOrdPairs_app; auto.
    + constructor; auto.
      destruct K2 as [|p K2]; [constructor|].
      destruct H2 as (n & Hk & Hp).
      rewrite (stays_before_index _ _ _ Hk) in Hp.
      inversion O2 as [|? ? Hp_all _]; subst.
      rewrite Forall_forall in Hp_all.
      assert (Hq : forall q, In q (p :: K2) -> stays_before k q = true).
      { intros q Hq. unfold stays_before.
        destruct (array_index q) as [mq|] eqn:Eq; [|reflexivity].
        rewrite Hk. apply N.ltb_lt.
        destruct Hq as [<-|Hq].
        - rewrite Eq in Hp. apply N.ltb_ge in Hp.
          destruct (N.eq_dec mq n) as [->|Hne]; [|lia].
          exfalso. apply Hnew. rewrite (array_index_inj _ _ _ Hk Eq).
          apply in_or_app. simpl. auto.
        - specialize (Hp_all q Hq). unfold stays_before in Hp_all.
          rewrite Eq in Hp_all.
          destruct (array_index p) as [m|]; [|discriminate].
          apply N.ltb_lt in Hp_all. apply N.ltb_ge in Hp. lia. }
      rewrite Forall_forall. exact Hq.
    + intros a b Ha [<-|Hb]; auto.
      rewrite Forall_forall in H1. auto.
Qed.

Lemma key_order_nil : key_order [].
Proof. repeat split; [constructor|tauto|constructor]. Qed.

Lemma key_order_set (k : jsstring) (v : JsVal) (o : Obj) :
  key_order (map fst o) -> key_order (map fst (obj_set k v o)).
Proof.
  intros Ho. unfold obj_set.
  destruct (str_eqb k PROTO) eqn:Hproto; auto.
  destruct (has_key k o) eqn:Hk.
  - now rewrite obj_update_keys.
  - apply has_key_not_In in Hk.
    destruct (array_index k) as [n|] eqn:Hn.
    + destruct (obj_insert_index_spec n k v o Hn) as (o1 & o2 & E & -> & H1 & H2).
      rewrite E in Ho, Hk. rewrite map_app in *. simpl.
      apply key_order_insert; auto.
      * rewrite Forall_map. exact H1.
      * destruct o2 as [|kv o2]; simpl; eauto.
    + rewrite map_app. simpl.
      rewrite <- (app_nil_r (map fst o)) in Ho, Hk.
      apply key_order_insert; auto.
      rewrite Forall_forall. intros p _. unfold stays_before. now rewrite Hn.
Qed.

Lemma obj_set_keys_incl (k : jsstring) (v : JsVal) (o : Obj) (x : jsstring) :
  In x (map fst (obj_set k v o)) -> x = k \/ In x (map fst o).
Proof.
  unfold obj_set.
  destruct (str_eqb k PROTO); auto.
  destruct (has_key k o).
  - rewrite obj_update_keys. auto.
  - destruct (array_index k) as [n|] eqn:Hn.
    + destruct (obj_insert_index_spec n k v o Hn) as (o1 & o2 & E & -> & _).
      rewrite E, !map_app, !in_app_iff. simpl. intuition.
    + rewrite map_app, in_app_iff. simpl. intuition.
Qed.

(** The names of an object after an assignment depend on its names only. *)
Lemma obj_insert_index_keys (n : N) (k : jsstring) (v v' : JsVal) (o o' : Obj) :
  map fst o = map fst o' ->
  map fst (obj_insert_index n k v o) = map fst (obj_insert_index n k v' o').
Proof.
  revert o'; induction o as [|kv o IH]; intros [|kv' o']; simpl; try discriminate; auto.
  intros [= E1 E2]. rewrite <- E1.
  destruct (array_index (fst kv)) as [m|]; [destruct (m <? n)%N|]; simpl;
    try (f_equal; auto); congruence.
Qed.

Lemma obj_set_keys (k : jsstring) (v v' : JsVal) (o o' : Obj) :
  map fst o = map fst o' ->
  map fst (obj_set k v o) = map fst (obj_set k v' o').
Proof.
  intros E. unfold obj_set.
  destruct (str_eqb k PROTO); auto.
  assert (Hk : has_key k o = has_key k o').
  { destruct (has_key k o') eqn:H'.
    - apply has_key_In. rewrite E. now apply has_key_In.
    - apply has_key_not_In. rewrite E. now apply has_key_not_In. }
  rewrite Hk. destruct (has_key k o').
  - now rewrite !obj_update_keys.
  - destruct (array_index k).
    + now apply obj_insert_index_keys.
    + rewrite !map_app. simpl. congruence.
Qed.

(** A property that comes last in the order is created at the end. *)
Lemma obj_set_append (k : jsstring) (v : JsVal) (o : Obj) :
  key_order (map fst o ++ [k]) -> obj_set k v o = o ++ [(k, v)].
Proof.
  intros (Hnd & Hnp & Hord). unfold obj_set.
  assert (Hproto : str_eqb k PROTO = false).
  { apply str_eqb_neq. intros ->. apply Hnp. apply in_or_app. simpl; auto. }
  rewrite Hproto.
  assert (Hk : has_key k o = false).
  { apply has_key_not_In. intros Hin.
    apply NoDup_remove_2 in Hnd. apply Hnd. now rewrite app_nil_r. }
  rewrite Hk.
  destruct (array_index k) as [n|] eqn:Hn; [|reflexivity].
  apply ForallOrdPairs_app_inv in Hord as (_ & _ & H12).
  assert (Hall : forall kv, In kv o -> stays_before (fst kv) k = true).
  { intros kv Hin. apply H12; [apply in_map; exact Hin|simpl; auto]. }
  clear - Hall Hn. induction o as [|kv o IH]; simpl; [reflexivity|].
  pose proof (Hall kv (or_introl eq_refl)) as Hkv.
  rewrite (stays_before_index _ _ _ Hn) in Hkv.
  destruct (array_index (fst kv)) as [m|]; [|discriminate].
  rewrite Hkv. f_equal. apply IH. intros kv' Hin. apply Hall. simpl; auto.
Qed.

Lemma obj_get_own (k : jsstring) (v : JsVal) (o : Obj) :
  NoDup (map fst o) -> In (k, v) o -> obj_get k o = v.
Proof.
  unfold obj_get. induction o as [|kv o IH]; simpl; [tauto|].
  intros Hnd [->|Hin]; simpl.
  - now rewrite str_eqb_refl.
  - inversion Hnd as [|? ? Hnot Hnd']; subst.
    destruct (str_eqb (fst kv) k) eqn:E; [|auto].
    apply str_eqb_eq in E. exfalso. apply Hnot. rewrite E.
    change k with (fst (k, v)). now apply in_map.
Qed.

Lemma obj_get_map_own (o : Obj) :
  NoDup (map fst o) -> map (fun k => obj_get k o) (map fst o) = map snd o.
Proof.
  intros Hnd. rewrite map_map. apply map_ext_in.
  intros [k v] Hin. simpl. now apply obj_get_own.
Qed.

End ObjectOrder.

(** ** What [parseCsv] of main.js returns *)

Section ParsedRecords.
Import Js Main Spec.

Lemma unescape_quotes_Forall (P : char -> Prop) (s : jsstring) :
  Forall P s -> Forall P (unescape_quotes s).
Proof.
  enough (G : (Forall P s -> Forall P (unescape_quotes s))
              /\ forall c, Forall P (c :: s) -> Forall P (unescape_quotes (c :: s)))
    by tauto.
  induction s as [|d s [IH1 IH2]].
  - split; simpl; auto.
  - split; [apply IH2|].
    intros c H. inversion H as [|? ? Hc Hds]; subst.
    inversion Hds as [|? ? Hd Hs]; subst.
    change (unescape_quotes (c :: d :: s))
      with (if N.eqb c DQUOTE && N.eqb d DQUOTE
            then DQUOTE :: unescape_quotes s
            else c :: unescape_quotes (d :: s)).
    destruct (N.eqb_spec c DQUOTE) as [->|]; cbn [andb].
    + destruct (N.eqb d DQUOTE); constructor; auto.
    + constructor; auto.
Qed.

Lemma firstn_Forall {A : Type} (P : A -> Prop) (n : nat) (l : list A) :
  Forall P l -> Forall P (firstn n l).
Proof.
  intros H. revert n. induction H as [|x l Hx Hl IH]; intros [|n]; simpl; auto.
Qed.

Lemma skipn_Forall {A : Type} (P : A -> Prop) (n : nat) (l : list A) :
  Forall P l -> Forall P (skipn n l).
Proof.
  intros H. revert n. induction H as [|x l Hx Hl IH]; intros [|n]; simpl; auto.
Qed.

Lemma substring_Forall (P : char -> Prop) (a b : nat) (s : jsstring) :
  Forall P s -> Forall P (substring a b s).
Proof.
  intros H. unfold substring. now apply firstn_Forall, skipn_Forall.
Qed.

Lemma unquote_Forall (P : char -> Prop) (s : jsstring) :
  Forall P s -> Forall P (unquote s).
Proof.
  intros H. unfold unquote.
  destruct (startsWith [DQUOTE] s && endsWith [DQUOTE] s); auto.
  now apply unescape_quotes_Forall, substring_Forall.
Qed.

Lemma scan_Forall (P : char -> Prop) (line : jsstring) (prev : option char)
  (inQuote : bool) (cur : jsstring) (values : list jsstring) :
  Forall P line -> Forall P cur -> Forall (Forall P) values ->
  Forall (Forall P) (scan line prev inQuote cur values).
Proof.
  intros Hline. revert prev inQuote cur values.
  induction Hline as [|c line Hc Hline IH]; intros prev q cur values Hcur Hvalues.
  - simpl. apply Forall_app. split; auto.
    constructor; auto. now apply unquote_Forall, trim_Forall, Forall_rev.
  - cbn [scan].
    destruct (N.eqb c DQUOTE && _).
    + apply IH; auto.
    + destruct (N.eqb c COMMA && negb q).
      * apply IH; auto. apply Forall_app. split; auto.
        constructor; auto. now apply unquote_Forall, trim_Forall, Forall_rev.
      * apply IH; auto.
Qed.

Lemma tokenize_no_lf (line : jsstring) :
  Forall (fun c => c <> LF) line ->
  Forall (Forall (fun c => c <> LF)) (tokenize line).
Proof. intros H. apply scan_Forall; auto. Qed.

Lemma cell_parsed (values : list jsstring) (index : nat) :
  Forall (Forall (fun c => c <> LF)) values ->
  parsed_value (JStr (cell values index)).
Proof.
  intros H. exists (cell values index). split; [reflexivity|].
  unfold cell. destruct (nth_error values index) as [s|] eqn:E.
  - apply nth_error_In in E. rewrite Forall_forall in H. specialize (H s E).
    destruct (truthy (JStr s)).
    + split; [apply trim_tight|now apply trim_Forall].
    + split; [apply tight_nil|constructor].
  - split; [apply tight_nil|constructor].
Qed.

Lemma key_of_header_parsed (h : jsstring) :
  parsed_header h -> parsed_key (key_of_header h).
Proof.
  intros [Hc Ht]. unfold key_of_header, parsed_key.
  destruct (str_eqb h VISITOR_ID) eqn:E.
  - split; [|split].
    + repeat constructor; discriminate.
    + split; reflexivity.
    + discriminate.
  - split; [|split]; auto. now apply str_eqb_neq.
Qed.

Lemma row_step_key (values : list jsstring) (row : Obj) (hasId : bool)
  (header : jsstring) (index : nat) :
  fst (row_step values (row, hasId) (header, index))
  = obj_set (key_of_header header) (JStr (cell values index)) row.
Proof. reflexivity. Qed.

(** The records [build_row] makes: names in order, values trimmed. *)
Lemma build_rows_inv (values : list jsstring) (l : list (jsstring * nat))
  (st : Obj * bool) :
  Forall (Forall (fun c => c <> LF)) values ->
  Forall (fun hi => parsed_header (fst hi)) l ->
  key_order (map fst (fst st)) ->
  Forall parsed_key (map fst (fst st)) ->
  Forall (fun kv => parsed_value (snd kv)) (fst st) ->
  key_order (map fst (fst (fold_left (row_step values) l st)))
  /\ Forall parsed_key (map fst (fst (fold_left (row_step values) l st)))
  /\ Forall (fun kv => parsed_value (snd kv)) (fst (fold_left (row_step values) l st)).
Proof.
  intros Hvalues Hl. revert st.
  induction Hl as [|[header index] l Hh Hl IH]; intros [row hasId] Ho Hk Hv; cbn [fold_left].
  - auto.
  - apply IH; rewrite row_step_key; simpl fst in *.
    + now apply key_order_set.
    + rewrite Forall_forall in *. intros x Hx.
      apply obj_set_keys_incl in Hx as [->|Hx]; auto.
      now apply key_of_header_parsed.
    + apply obj_set_values; auto. now apply cell_parsed.
Qed.

(** The names [build_row] gives a record depend on the headers only. *)
Lemma build_rows_keys (values values' : list jsstring) (l : list (jsstring * nat))
  (st st' : Obj * bool) :
  map fst (fst st) = map fst (fst st') ->
  map fst (fst (fold_left (row_step values) l st))
  = map fst (fst (fold_left (row_step values') l st')).
Proof.
  revert st st'. induction l as [|[header index] l IH]; intros [row b] [row' b'] E;
    cbn [fold_left]; auto.
  apply IH. rewrite !row_step_key. simpl fst in *. now apply obj_set_keys.
Qed.

Lemma indexed_headers (headers : list jsstring) :
  Forall parsed_header headers ->
  Forall (fun hi : jsstring * nat => parsed_header (fst hi)) (indexed headers).
Proof.
  unfold indexed. generalize 0. intros n H. revert n.
  induction H as [|h headers Hh H IH]; intros n; simpl; constructor; auto.
Qed.

Lemma parse_line_records (headers : list jsstring) (line : jsstring) :
  Forall parsed_header headers ->
  Forall (fun c => c <> LF) line ->
  Forall (parsed_record (map fst (fst (build_row headers []))))
    (parse_line headers line).
Proof.
  intros Hh Hline. unfold parse_line.
  destruct (build_row headers (tokenize line)) as [row hasId] eqn:E.
  destruct hasId; constructor; auto.
  replace row with (fst (build_row headers (tokenize line))) by now rewrite E.
  unfold build_row. split.
  - now apply build_rows_keys.
  - apply build_rows_inv; simpl; auto using indexed_headers, tokenize_no_lf.
    apply key_order_nil.
Qed.

Lemma headers_parsed (first : jsstring) :
  Forall (fun c => c <> LF) first ->
  Forall parsed_header (map trim (split_on COMMA first)).
Proof.
  intros H. apply (split_on_pieces _ COMMA) in H.
  rewrite Forall_map. rewrite Forall_forall in *. intros h Hin.
  split; [|apply trim_tight].
  apply trim_Forall. specialize (H h Hin).
  rewrite Forall_forall in *. intros c Hc. specialize (H c Hc). tauto.
Qed.

(** Every record [parseCsv] returns has the same names, in the order of
    [Object.keys]; the names and the values are as lines 53 and 91 leave
    them. *)
Lemma parseCsv_records (csvText : jsstring) :
  exists keys,
    key_order keys /\ Forall parsed_key keys
    /\ Forall (parsed_record keys) (parseCsv csvText).
Proof.
  unfold parseCsv.
  destruct (filter nonblank (split_lines csvText)) as [|first rest] eqn:E.
  - exists []. split; [apply key_order_nil|]. split; constructor.
  - assert (Hlines : Forall (Forall (fun c => c <> LF)) (first :: rest)).
    { rewrite <- E. apply Forall_forall. intros l Hl.
      apply filter_In in Hl as [Hl _].
      pose proof (split_lines_no_lf csvText) as H.
      rewrite Forall_forall in H. auto. }
    inversion Hlines as [|? ? Hfirst Hrest]; subst.
    set (headers := map trim (split_on COMMA first)).
    assert (Hh : Forall parsed_header headers) by now apply headers_parsed.
    exists (map fst (fst (build_row headers []))).
    split; [|split].
    + apply build_rows_inv; simpl; auto using indexed_headers.
      apply key_order_nil.
    + apply build_rows_inv; simpl; auto using indexed_headers.
      apply key_order_nil.
    + apply Forall_flat_map. apply Forall_forall. intros line Hline.
      apply parse_line_records; auto.
      rewrite Forall_forall in Hrest. auto.
Qed.

End ParsedRecords.

(** ** Reading back what [stringifyCsv] wrote *)

Section ScanFields.
Import Js Main Spec.

Lemma includes_char (c : char) (s : jsstring) :
  includes [c] s = existsb (N.eqb c) s.
Proof.
  induction s as [|d s IH]; simpl; [reflexivity|].
  rewrite IH, andb_true_r. reflexivity.
Qed.

Lemma not_includes_char (c : char) (s : jsstring) :
  includes [c] s = false -> Forall (fun d => d <> c) s.
Proof.
  rewrite includes_char. induction s as [|d s IH]; simpl; [constructor|].
  intros H. apply orb_false_iff in H as [H1 H2].
  constructor; auto. apply N.eqb_neq in H1. congruence.
Qed.

(** The scan of a stretch of the line that holds no delimiter. *)
Lemma scan_field (w rest : jsstring) (prev : option char) (q : bool)
  (cur : jsstring) (values : list jsstring) :
  quotes_count prev w -> commas_protected q w = true ->
  scan (w ++ rest) prev q cur values
  = scan rest (prev_after prev w) (toggles q w) (rev w ++ cur) values.
Proof.
  revert prev q cur. induction w as [|c w IH]; intros prev q cur Hbs Hcp.
  - reflexivity.
  - assert (Hnext : quotes_count (Some c) w).
    { unfold quotes_count in *. destruct prev as [p|]; [|exact Hbs].
      cbn [backslash_before_quote] in Hbs. apply orb_false_iff in Hbs. tauto. }
    cbn [app scan prev_after fold_left toggles rev].
    rewrite <- app_assoc. cbn [app].
    cbn [commas_protected] in Hcp.
    destruct (N.eqb_spec c DQUOTE) as [->|Hdq].
    + assert (Hp : match prev with
                   | Some p => negb (N.eqb p BACKSLASH)
                   | None => true
                   end = true).
      { destruct prev as [p|]; [|reflexivity].
        unfold quotes_count in Hbs. cbn [backslash_before_quote] in Hbs.
        apply orb_false_iff in Hbs as [Hbs _].
        rewrite N.eqb_refl, andb_true_r in Hbs. now rewrite Hbs. }
      rewrite Hp. cbn [andb]. now apply IH.
    + cbn [andb]. destruct (N.eqb c COMMA).
      * apply andb_true_iff in Hcp as [-> Hcp]. cbn [negb andb]. now apply IH.
      * cbn [andb]. now apply IH.
Qed.

Lemma quotes_count_after_comma (f : jsstring) :
  backslash_before_quote f = false -> quotes_count (Some COMMA) f.
Proof.
  unfold quotes_count. destruct f as [|c f]; [reflexivity|].
  intros H. cbn [backslash_before_quote]. cbn [backslash_before_quote] in H.
  now rewrite H.
Qed.

(** A line made of such fields joined by commas is cut back into them. *)
Lemma scan_join (fs : list jsstring) (prev : option char) (values : list jsstring) :
  fs <> [] -> prev = None \/ prev = Some COMMA ->
  Forall field_ok fs ->
  scan (join COMMA fs) prev false [] values
  = values ++ map (fun f => unquote (trim f)) fs.
Proof.
  revert prev values. induction fs as [|f fs IH]; intros prev values Hne Hprev H;
    [congruence|].
  inversion H as [|? ? (Hbs & Hcp & Htg) Hfs]; subst.
  assert (Hq : quotes_count prev f).
  { destruct Hprev as [-> | ->]; [exact Hbs|now apply quotes_count_after_comma]. }
  destruct fs as [|g fs].
  - cbn [join map]. rewrite <- (app_nil_r f) at 1.
    rewrite scan_field by assumption.
    cbn [scan]. now rewrite app_nil_r, rev_involutive.
  - rewrite join_cons, scan_field by assumption.
    rewrite Htg, app_nil_r. cbn [scan].
    assert (Hc : N.eqb COMMA DQUOTE = false) by reflexivity.
    rewrite Hc, N.eqb_refl. cbn [andb negb].
    rewrite rev_involutive, IH; auto; [|discriminate].
    cbn [map]. now rewrite <- app_assoc.
Qed.

Lemma tokenize_join (fs : list jsstring) :
  fs <> [] -> Forall field_ok fs ->
  tokenize (join COMMA fs) = map (fun f => unquote (trim f)) fs.
Proof. intros Hne H. unfold tokenize. now rewrite scan_join by auto. Qed.

(** *** A value and the field written for it *)

Lemma escape_quotes_cons (c : char) (v : jsstring) :
  escape_quotes (c :: v)
  = (if N.eqb c DQUOTE then [DQUOTE; DQUOTE] else [c]) ++ escape_quotes v.
Proof. reflexivity. Qed.

Lemma unescape_quotes_step (c d : char) (t : jsstring) :
  unescape_quotes (c :: d :: t)
  = if N.eqb c DQUOTE && N.eqb d DQUOTE then DQUOTE :: unescape_quotes t
    else c :: unescape_quotes (d :: t).
Proof. reflexivity. Qed.

Lemma unescape_escape (v : jsstring) : unescape_quotes (escape_quotes v) = v.
Proof.
  induction v as [|c v IH]; [reflexivity|].
  rewrite escape_quotes_cons.
  destruct (N.eqb_spec c DQUOTE) as [->|Hc].
  - cbn [app]. rewrite unescape_quotes_step. now rewrite IH.
  - cbn [app].
    destruct (escape_quotes v) as [|d t] eqn:E.
    + simpl in IH. subst v. reflexivity.
    + rewrite unescape_quotes_step.
      apply N.eqb_neq in Hc. rewrite Hc. cbn [andb]. now rewrite IH.
Qed.

Lemma escape_protected (v : jsstring) :
  commas_protected true (escape_quotes v ++ [DQUOTE]) = true
  /\ toggles true (escape_quotes v ++ [DQUOTE]) = false.
Proof.
  induction v as [|c v [IH1 IH2]]; [split; reflexivity|].
  rewrite escape_quotes_cons. destruct (N.eqb_spec c DQUOTE) as [->|Hc].
  - cbn [app commas_protected toggles]. rewrite N.eqb_refl. cbn [negb]. auto.
  - cbn [app commas_protected toggles].
    apply N.eqb_neq in Hc. rewrite Hc.
    destruct (N.eqb c COMMA); cbn [andb]; auto.
Qed.

Lemma plain_protected (v : jsstring) (q : bool) :
  Forall (fun c => c <> COMMA) v -> Forall (fun c => c <> DQUOTE) v ->
  commas_protected q v = true /\ toggles q v = q.
Proof.
  intros Hc. induction Hc as [|c v Hc Hv IH]; intros Hd; [split; reflexivity|].
  inversion Hd as [|? ? Hdc Hdv]; subst.
  cbn [commas_protected toggles].
  apply N.eqb_neq in Hc, Hdc. rewrite Hc, Hdc. auto.
Qed.

Lemma substring_inner (x : jsstring) :
  substring 1 (length (DQUOTE :: x ++ [DQUOTE]) - 1) (DQUOTE :: x ++ [DQUOTE]) = x.
Proof.
  unfold substring. cbn [length]. rewrite length_app. cbn [length].
  replace (S (length x + 1) - 1) with (S (length x)) by lia.
  replace (Nat.min (Nat.min 1 (S (length x))) (S (length x + 1))) with 1 by lia.
  replace (Nat.min (Nat.max 1 (S (length x))) (S (length x + 1)))
    with (S (length x)) by lia.
  cbn [skipn]. replace (S (length x) - 1) with (length x) by lia.
  rewrite firstn_app, firstn_all, Nat.sub_diag. cbn [firstn]. apply app_nil_r.
Qed.

(** The field written for a string, and what the scan makes of it. *)
Lemma format_value_field (v : jsstring) :
  backslash_before_quote (format_value (JStr v)) = false ->
  field_ok (format_value (JStr v)).
Proof.
  intros Hbs. split; [exact Hbs|]. clear Hbs. unfold format_value.
  destruct (includes [COMMA] v || includes [DQUOTE] v) eqn:Hn.
  - cbn [commas_protected toggles]. rewrite N.eqb_refl. cbn [negb].
    apply escape_protected.
  - apply orb_false_iff in Hn as [H1 H2].
    apply not_includes_char in H1, H2. now apply plain_protected.
Qed.

Lemma format_value_read (v : jsstring) :
  tight v -> unquote (trim (format_value (JStr v))) = v.
Proof.
  intros Ht. unfold format_value.
  destruct (includes [COMMA] v || includes [DQUOTE] v) eqn:Hn.
  - set (w := DQUOTE :: escape_quotes v ++ [DQUOTE]).
    assert (Hw : tight w).
    { split; [reflexivity|]. unfold w. cbn [rev]. rewrite rev_app_distr. reflexivity. }
    rewrite (tight_trim _ Hw). unfold unquote.
    assert (Hs : startsWith [DQUOTE] w = true) by reflexivity.
    assert (He : endsWith [DQUOTE] w = true).
    { unfold endsWith, w. cbn [rev]. rewrite rev_app_distr. reflexivity. }
    rewrite Hs, He. cbn [andb]. unfold w. rewrite substring_inner.
    apply unescape_escape.
  - rewrite (tight_trim _ Ht). unfold unquote.
    apply orb_false_iff in Hn as [_ H2]. apply not_includes_char in H2.
    destruct H2 as [|c v Hc Hv]; [reflexivity|].
    cbn [startsWith]. apply N.eqb_neq in Hc. rewrite N.eqb_sym in Hc.
    now rewrite Hc.
Qed.

Lemma format_value_chars (P : char -> Prop) (v : jsstring) :
  P DQUOTE -> Forall P v -> Forall P (format_value (JStr v)).
Proof.
  intros Hd Hv. unfold format_value.
  destruct (includes [COMMA] v || includes [DQUOTE] v); auto.
  constructor; auto. apply Forall_app. split; [|auto].
  unfold escape_quotes. apply Forall_flat_map.
  rewrite Forall_forall in *. intros c Hc.
  destruct (N.eqb_spec c DQUOTE) as [->|]; repeat constructor; auto.
Qed.

Lemma format_value_keeps (v : jsstring) (c : char) :
  In c v -> In c (format_value (JStr v)).
Proof.
  intros Hin. unfold format_value.
  destruct (includes [COMMA] v || includes [DQUOTE] v); auto.
  right. apply in_or_app. left. unfold escape_quotes.
  apply in_flat_map. exists c. split; auto.
  destruct (N.eqb_spec c DQUOTE) as [->|]; simpl; auto.
Qed.

Lemma tight_ends_ok (s : jsstring) : tight s -> ends_ok s.
Proof.
  intros [_ H]. apply trimStart_fixed_head in H. unfold ends_ok.
  destruct (rev s) as [|c x]; auto. intros ->. discriminate.
Qed.

Lemma format_value_ends_ok (v : jsstring) :
  tight v -> ends_ok (format_value (JStr v)).
Proof.
  intros Ht. unfold format_value.
  destruct (includes [COMMA] v || includes [DQUOTE] v).
  - unfold ends_ok. cbn [rev]. rewrite rev_app_distr. cbn [rev app]. discriminate.
  - now apply tight_ends_ok.
Qed.

Lemma join_ends_ok (parts : list jsstring) :
  Forall ends_ok parts -> ends_ok (join COMMA parts).
Proof.
  induction 1 as [|p parts Hp Hparts IH]; [exact I|].
  destruct parts as [|q parts]; [exact Hp|].
  rewrite join_cons. unfold ends_ok in *. rewrite rev_app_distr. cbn [rev].
  rewrite <- app_assoc.
  destruct (rev (join COMMA (q :: parts))) as [|c x]; [discriminate|exact IH].
Qed.

Lemma ends_ok_strip_cr (s : jsstring) : ends_ok s -> strip_cr (rev s) = rev s.
Proof.
  unfold ends_ok. destruct (rev s) as [|c x]; [reflexivity|].
  intros H. cbn [strip_cr]. apply N.eqb_neq in H. now rewrite H.
Qed.

End ScanFields.

Section RoundTrip.
Import Js Main Spec.

Lemma key_order_prefix (A B : list jsstring) : key_order (A ++ B) -> key_order A.
Proof.
  intros (Hnd & Hnp & Hord). split; [|split].
  - now apply NoDup_app_remove_r in Hnd.
  - intros H. apply Hnp. apply in_or_app. auto.
  - now apply ForallOrdPairs_app_inv in Hord.
Qed.

Lemma cell_texts (r1 r2 : Obj) (k : jsstring) (v : JsVal) :
  parsed_value v ->
  JStr (cell (texts (r1 ++ (k, v) :: r2)) (length r1)) = v.
Proof.
  intros (s & -> & Ht & _). unfold cell, texts.
  rewrite map_app, nth_error_app2; rewrite length_map; [|lia].
  rewrite Nat.sub_diag. cbn [map nth_error snd].
  destruct s as [|c s]; [reflexivity|].
  cbn [truthy]. now rewrite tight_trim.
Qed.

(** The fold of lines 88-95 over the names of a record and its own strings
    builds the record again. *)
Lemma rebuild_row (r : Obj) :
  key_order (map fst r) -> Forall parsed_key (map fst r) ->
  Forall (fun kv => parsed_value (snd kv)) r ->
  forall (r2 r1 : Obj) (b : bool),
    r = r1 ++ r2 ->
    fold_left (row_step (texts r))
      (combine (map fst r2) (seq (length r1) (length r2))) (r1, b)
    = (r, b || brings_id r2).
Proof.
  intros Hord Hkeys Hvals.
  induction r2 as [|[k v] r2 IH]; intros r1 b E.
  - simpl. rewrite app_nil_r in E. now rewrite E, orb_false_r.
  - cbn [map fst length seq combine fold_left].
    assert (Hk : parsed_key k).
    { rewrite Forall_forall in Hkeys. apply Hkeys.
      rewrite E, map_app, in_app_iff. simpl; auto. }
    assert (Hv : parsed_value v).
    { rewrite Forall_forall in Hvals.
      apply (Hvals (k, v)). rewrite E, in_app_iff. simpl; auto. }
    assert (Hpre : key_order (map fst r1 ++ [k])).
    { apply key_order_prefix with (map fst r2).
      rewrite <- app_assoc. cbn [app].
      rewrite E, map_app in Hord. exact Hord. }
    assert (Hstep : row_step (texts r) (r1, b) (k, length r1)
                    = (r1 ++ [(k, v)], b || (str_eqb k ID && truthy v))).
    { assert (Hset : obj_set k (JStr (cell (texts r) (length r1))) r1
                     = r1 ++ [(k, v)]).
      { rewrite E, cell_texts by exact Hv. now apply obj_set_append. }
      unfold row_step.
      destruct Hk as (_ & _ & Hne). apply str_eqb_neq in Hne. rewrite Hne, Hset.
      rewrite (obj_get_own k v).
      - destruct (str_eqb k ID && truthy v); [now rewrite orb_true_r|now rewrite orb_false_r].
      - destruct Hpre as (Hnd & _). now rewrite map_app.
      - apply in_or_app. simpl; auto. }
    rewrite Hstep.
    specialize (IH (r1 ++ [(k, v)]) (b || (str_eqb k ID && truthy v))).
    rewrite length_app, Nat.add_1_r in IH. cbn [length] in IH.
    assert (E' : r = (r1 ++ [(k, v)]) ++ r2) by (rewrite <- app_assoc; exact E).
    etransitivity; [exact (IH E')|].
    unfold brings_id. cbn [existsb fst snd]. now rewrite orb_assoc.
Qed.

Lemma has_own_id_brings (r : Obj) : has_own_id r -> brings_id r = true.
Proof.
  unfold has_own_id, brings_id, obj_get. intros H.
  destruct (find (fun kv => str_eqb (fst kv) ID) r) as [kv|] eqn:F; [|discriminate].
  apply find_some in F as [Hin Hk]. apply existsb_exists.
  exists kv. split; auto. now rewrite Hk, H.
Qed.

Lemma build_row_written (r : Obj) :
  key_order (map fst r) -> Forall parsed_key (map fst r) ->
  Forall (fun kv => parsed_value (snd kv)) r -> has_own_id r ->
  build_row (map fst r) (texts r) = (r, true).
Proof.
  intros Hord Hkeys Hvals Hid. unfold build_row, indexed.
  rewrite length_map.
  etransitivity; [exact (rebuild_row r Hord Hkeys Hvals r [] false eq_refl)|].
  now rewrite has_own_id_brings.
Qed.

Lemma written_fields (r : Obj) :
  Forall (fun kv => parsed_value (snd kv)) r -> written_safely r ->
  Forall field_ok (map format_value (map snd r))
  /\ map (fun f => unquote (trim f)) (map format_value (map snd r)) = texts r.
Proof.
  intros Hvals Hsafe. unfold texts. rewrite !map_map. split.
  - rewrite Forall_map. rewrite Forall_forall in *. intros [k v] Hin.
    destruct (Hvals _ Hin) as (s & E & _). simpl in E. subst v. cbn [snd].
    apply format_value_field. exact (Hsafe k (JStr s) Hin).
  - apply map_ext_in. intros [k v] Hin. rewrite Forall_forall in Hvals.
    destruct (Hvals _ Hin) as (s & E & Ht & _). simpl in E. subst v. cbn [snd].
    now apply format_value_read.
Qed.

(** A name the record owns is read from the record. *)
Lemma format_field_own (header : jsstring) (r : Obj) :
  In header (map fst r) ->
  format_field header r = format_value (obj_get header r).
Proof.
  intros Hin. unfold format_field.
  now rewrite (proj2 (has_key_In header r) Hin).
Qed.

(** The line [stringifyCsv] writes for a record. *)
Lemma written_line (K : list jsstring) (r : Obj) :
  key_order K -> map fst r = K ->
  join COMMA (map (fun header => format_field header r) K)
  = join COMMA (map format_value (map snd r)).
Proof.
  intros (Hnd & _) E. subst K.
  rewrite <- (obj_get_map_own r Hnd), !map_map. f_equal.
  apply map_ext_in. intros [k v] Hin. cbn [fst].
  apply format_field_own. change k with (fst (k, v)). now apply in_map.
Qed.

Lemma parse_line_written (K : list jsstring) (r : Obj) :
  key_order K -> Forall parsed_key K -> parsed_record K r ->
  written_safely r -> has_own_id r ->
  parse_line K (join COMMA (map format_value (map snd r))) = [r].
Proof.
  intros Hord Hkeys [E Hvals] Hsafe Hid. subst K.
  destruct (written_fields r Hvals Hsafe) as [Hf Ht].
  unfold parse_line. rewrite tokenize_join; auto.
  - rewrite Ht, build_row_written; auto.
  - destruct r; [discriminate|discriminate].
Qed.

Lemma nonblank_char (s : jsstring) (c : char) :
  In c s -> is_ws c = false -> nonblank s = true.
Proof.
  intros Hin W. unfold nonblank.
  pose proof (trim_keeps s c Hin W) as H.
  destruct (trim s); [destruct H|reflexivity].
Qed.

Lemma own_id_entry (r : Obj) :
  has_own_id r -> exists v, In (ID, v) r /\ truthy v = true.
Proof.
  unfold has_own_id, obj_get. intros H.
  destruct (find (fun kv => str_eqb (fst kv) ID) r) as [[k v]|] eqn:F; [|discriminate].
  apply find_some in F as [Hin Hk]. simpl in Hk. apply str_eqb_eq in Hk. subst k.
  exists v. auto.
Qed.

Lemma filter_all {A : Type} (p : A -> bool) (l : list A) :
  Forall (fun x => p x = true) l -> filter p l = l.
Proof.
  induction 1 as [|x l Hx Hl IH]; simpl; [reflexivity|]. now rewrite Hx, IH.
Qed.

Lemma flat_map_singletons {A B : Type} (f : B -> list A) (g : A -> B) (l : list A) :
  Forall (fun x => f (g x) = [x]) l -> flat_map f (map g l) = l.
Proof.
  induction 1 as [|x l Hx Hl IH]; simpl; [reflexivity|]. now rewrite Hx, IH.
Qed.

(** What lines 56-101 need of the header row and of a data row that
    [stringifyCsv] wrote. *)
Lemma header_row_line (K : list jsstring) :
  Forall parsed_key K -> In ID K ->
  Forall (fun c => c <> LF) (join COMMA K)
  /\ strip_cr (rev (join COMMA K)) = rev (join COMMA K)
  /\ nonblank (join COMMA K) = true.
Proof.
  intros Hkeys Hid. split; [|split].
  - apply join_Forall; [discriminate|].
    rewrite Forall_forall in *. intros k Hk.
    destruct (Hkeys k Hk) as (Hc & _). rewrite Forall_forall in *.
    intros c Hin. now apply Hc.
  - apply ends_ok_strip_cr, join_ends_ok.
    rewrite Forall_forall in *. intros k Hk.
    destruct (Hkeys k Hk) as (_ & Ht & _). now apply tight_ends_ok.
  - apply nonblank_char with 105%N; [|reflexivity].
    apply in_join with ID; simpl; auto.
Qed.

Lemma data_row_line (r : Obj) :
  Forall (fun kv => parsed_value (snd kv)) r -> has_own_id r ->
  Forall (fun c => c <> LF) (join COMMA (map format_value (map snd r)))
  /\ strip_cr (rev (join COMMA (map format_value (map snd r))))
     = rev (join COMMA (map format_value (map snd r)))
  /\ nonblank (join COMMA (map format_value (map snd r))) = true.
Proof.
  intros Hvals Hid. rewrite map_map. split; [|split].
  - apply join_Forall; [discriminate|].
    rewrite Forall_map. rewrite Forall_forall in *. intros kv Hin.
    destruct (Hvals kv Hin) as (s & -> & _ & Hs).
    apply format_value_chars; [discriminate|exact Hs].
  - apply ends_ok_strip_cr, join_ends_ok.
    rewrite Forall_map. rewrite Forall_forall in *. intros kv Hin.
    destruct (Hvals kv Hin) as (s & -> & Ht & _).
    now apply format_value_ends_ok.
  - destruct (own_id_entry r Hid) as (v & Hin & Tv).
    rewrite Forall_forall in Hvals.
    destruct (Hvals _ Hin) as (s & E & Ht & _). simpl in E. subst v.
    destruct s as [|c s]; [discriminate|].
    apply nonblank_char with c; [|exact (tight_head _ Ht)].
    apply in_join with (format_value (JStr (c :: s))).
    + apply in_map_iff. exists (ID, JStr (c :: s)). auto.
    + apply format_value_keeps. simpl; auto.
Qed.

(** C1, amended: for the records [parseCsv] returns for a text, if each
    has a non-empty id and no field, as [stringifyCsv] writes it, has a
    backslash right before a double quote, then [parseCsv] of what
    [stringifyCsv] writes for them returns the same records, name for name
    and value for value. *)
Theorem C1_round_trip_of_safely_written_records :
  forall csvText : jsstring,
    Forall has_own_id (parseCsv csvText) ->
    Forall written_safely (parseCsv csvText) ->
    parseCsv (stringifyCsv (parseCsv csvText)) = parseCsv csvText.
Proof.
  intros csvText Hids Hsafe.
  destruct (parseCsv_records csvText) as (K & Hord & Hkeys & Hrecs).
  destruct (parseCsv csvText) as [|r0 R] eqn:ER; [reflexivity|].
  set (records := r0 :: R) in *.
  assert (HK : obj_keys r0 = K).
  { apply Forall_inv in Hrecs as [E _]. exact E. }
  assert (HidK : In ID K).
  { destruct (own_id_entry r0 (Forall_inv Hids)) as (v & Hin & _).
    rewrite <- HK. unfold obj_keys. change ID with (fst (ID, v)). now apply in_map. }
  set (line := fun r : Obj => join COMMA (map format_value (map snd r))).
  assert (Hwritten : stringifyCsv records
                     = join LF (join COMMA K :: map line records)).
  { unfold stringifyCsv, records. rewrite HK. fold records.
    do 2 f_equal. apply map_ext_in. intros r Hr.
    rewrite Forall_forall in Hrecs. destruct (Hrecs r Hr) as [E _].
    now apply written_line. }
  assert (Hlines : Forall (fun l => Forall (fun c => c <> LF) l
                                    /\ strip_cr (rev l) = rev l
                                    /\ nonblank l = true) (map line records)).
  { rewrite Forall_map. rewrite Forall_forall in *. intros r Hr.
    destruct (Hrecs r Hr) as [_ Hv]. apply data_row_line; auto. }
  destruct (header_row_line K Hkeys HidK) as (Hh1 & Hh2 & Hh3).
  rewrite Hwritten. unfold parseCsv at 1.
  rewrite split_lines_join; [|discriminate|].
  2:{ constructor; [auto|]. rewrite Forall_forall in *. intros l Hl.
      specialize (Hlines l Hl). tauto. }
  rewrite filter_all.
  2:{ constructor; [auto|]. rewrite Forall_forall in *. intros l Hl.
      specialize (Hlines l Hl). tauto. }
  assert (Hheaders : map trim (split_on COMMA (join COMMA K)) = K).
  { rewrite split_on_join.
    - rewrite <- (map_id K) at 2. apply map_ext_in. intros k Hk.
      rewrite Forall_forall in Hkeys. destruct (Hkeys k Hk) as (_ & Ht & _).
      now apply tight_trim.
    - intros ->. destruct HidK.
    - rewrite Forall_forall in *. intros k Hk.
      destruct (Hkeys k Hk) as (Hc & _). rewrite Forall_forall in *.
      intros c Hin. now apply Hc. }
  rewrite Hheaders.
  apply flat_map_singletons.
  rewrite Forall_forall in *. intros r Hr.
  apply parse_line_written; auto.
  apply Forall_forall. exact Hkeys.
Qed.

Lemma C1_round_trip_of_safely_written_records_witness :
  Forall has_own_id (parseCsv (quoting_text "id,h2,h3"))
  /\ Forall written_safely (parseCsv (quoting_text "id,h2,h3"))
  /\ parseCsv (stringifyCsv (parseCsv (quoting_text "id,h2,h3")))
     = parseCsv (quoting_text "id,h2,h3").
Proof.
  assert (H1 : Forall has_own_id (parseCsv (quoting_text "id,h2,h3"))).
  { repeat constructor. }
  assert (H2 : Forall written_safely (parseCsv (quoting_text "id,h2,h3"))).
  { constructor; [|constructor].
    intros k v Hin. vm_compute in Hin.
    destruct Hin as [E|[E|[E|[]]]]; injection E as <- <-; reflexivity. }
  split; [exact H1|]. split; [exact H2|].
  exact (C1_round_trip_of_safely_written_records (quoting_text "id,h2,h3") H1 H2).
Defined.

(** C1, as the claim words it, fails: the value of the second field below
    is a backslash followed by a double quote; written back in quotes with
    the quote doubled, it is read with its first quote taken for an escaped
    one, and the rest of the line becomes part of the value. *)
Lemma C1_round_trip_breaks_on_escaped_quote :
  parseCsv escaped_quote_text
  = [[(js "id", JStr (js "1"));
      (js "x", JStr ([BACKSLASH] ++ dq));
      (js "y", JStr (js "c"))]]
  /\ parseCsv (stringifyCsv (parseCsv escaped_quote_text))
     = [[(js "id", JStr (js "1"));
         (js "x", JStr (dq ++ [BACKSLASH] ++ dq ++ dq ++ dq ++ js ",c"));
         (js "y", JStr [])]]
  /\ parseCsv (stringifyCsv (parseCsv escaped_quote_text))
     <> parseCsv escaped_quote_text.
Proof.
  split; [reflexivity|]. split; [reflexivity|]. vm_compute. discriminate.
Qed.

(** The hypothesis on the ids is needed as well: a record with an empty id
    is written as a row that [parseCsv] leaves out. *)
Lemma round_trip_drops_record_with_empty_id :
  parseCsv (stringifyCsv (parseCsv two_id_columns)) = []
  /\ parseCsv two_id_columns <> [].
Proof. split; [reflexivity|]. vm_compute. discriminate. Qed.

End RoundTrip.

(** ** The id check with one id column *)

Section SingleIdColumn.
Import Js Main Spec.

Lemma find_update_other (k k' : jsstring) (v : JsVal) (o : Obj) :
  k <> k' ->
  find (fun kv => str_eqb (fst kv) k') (obj_update k v o)
  = find (fun kv => str_eqb (fst kv) k') o.
Proof.
  intros Hne. unfold obj_update. induction o as [|kv o IH]; simpl; [reflexivity|].
  destruct (str_eqb (fst kv) k) eqn:E.
  - apply str_eqb_eq in E. simpl. rewrite E.
    apply str_eqb_neq in Hne. now rewrite Hne.
  - destruct (str_eqb (fst kv) k'); auto.
Qed.

Lemma find_insert_other (k k' : jsstring) (v : JsVal) (o1 o2 : Obj) :
  k <> k' ->
  find (fun kv => str_eqb (fst kv) k') (o1 ++ (k, v) :: o2)
  = find (fun kv => str_eqb (fst kv) k') (o1 ++ o2).
Proof.
  intros Hne. induction o1 as [|kv o1 IH]; simpl.
  - apply str_eqb_neq in Hne. now rewrite Hne.
  - destruct (str_eqb (fst kv) k'); auto.
Qed.

(** An assignment to one property leaves the others as they are. *)
Lemma obj_get_set_other (k k' : jsstring) (v : JsVal) (o : Obj) :
  k <> k' -> obj_get k' (obj_set k v o) = obj_get k' o.
Proof.
  intros Hne. unfold obj_get, obj_set.
  destruct (str_eqb k PROTO); [reflexivity|].
  destruct (has_key k o).
  - now rewrite find_update_other.
  - destruct (array_index k) as [n|] eqn:Hn.
    + destruct (obj_insert_index_spec n k v o Hn) as (o1 & o2 & E & -> & _).
      rewrite E. now rewrite find_insert_other.
    + rewrite <- (app_nil_r o) at 2.
      now rewrite (find_insert_other k k' v o []).
Qed.

Lemma id_columns_cons (h : jsstring) (headers : list jsstring) :
  id_columns (h :: headers)
  = (if str_eqb (key_of_header h) ID then 1 else 0) + id_columns headers.
Proof.
  unfold id_columns. simpl. destruct (str_eqb (key_of_header h) ID); reflexivity.
Qed.

Lemma build_rows_id_check (values : list jsstring) (l : list (jsstring * nat))
  (st : Obj * bool) :
  (snd st = true ->
   truthy (obj_get ID (fst st)) = true /\ id_columns (map fst l) = 0) ->
  id_columns (map fst l) <= 1 ->
  snd (fold_left (row_step values) l st) = true ->
  truthy (obj_get ID (fst (fold_left (row_step values) l st))) = true.
Proof.
  revert st. induction l as [|[header index] l IH]; intros [row hasId] Hst Hone;
    cbn [fold_left].
  - simpl in *. intros H. now apply Hst.
  - cbn [map fst] in Hst, Hone. rewrite id_columns_cons in Hst, Hone.
    apply IH.
    + unfold row_step. fold (key_of_header header). cbn [fst snd].
      destruct (str_eqb (key_of_header header) ID) eqn:Ek.
      * cbn [andb]. apply str_eqb_eq in Ek. rewrite Ek.
        destruct (truthy (obj_get ID (obj_set ID (JStr (cell values index)) row))) eqn:T.
        -- intros _. split; [reflexivity|lia].
        -- intros ->. simpl in Hst. destruct (Hst eq_refl) as [_ H0]. lia.
      * cbn [andb]. intros ->. simpl in Hst. destruct (Hst eq_refl) as [T H0].
        split; [|lia].
        rewrite obj_get_set_other; auto. now apply str_eqb_neq.
    + destruct (str_eqb (key_of_header header) ID); lia.
Qed.

(** With at most one header mapped to [id], every record [parseCsv]
    returns has a non-empty id: the rows whose id is empty are left out. *)
Lemma parseCsv_id_check_with_one_id_column (csvText first : jsstring)
  (rest : list jsstring) (r : Obj) :
  filter nonblank (split_lines csvText) = first :: rest ->
  id_columns (map trim (split_on COMMA first)) <= 1 ->
  In r (parseCsv csvText) -> has_own_id r.
Proof.
  intros E Hone. unfold parseCsv. rewrite E.
  rewrite in_flat_map. intros (line & _ & Hin).
  unfold parse_line in Hin.
  destruct (build_row (map trim (split_on COMMA first)) (tokenize line))
    as [row hasId] eqn:Eb.
  destruct hasId; [|destruct Hin].
  destruct Hin as [<-|[]].
  unfold has_own_id.
  replace row with (fst (build_row (map trim (split_on COMMA first)) (tokenize line)))
    by now rewrite Eb.
  assert (Hfst : map fst (indexed (map trim (split_on COMMA first)))
                 = map trim (split_on COMMA first)).
  { unfold indexed. generalize 0. generalize (map trim (split_on COMMA first)).
    intros l. induction l as [|h l IH]; intros n; simpl; [reflexivity|].
    now rewrite IH. }
  unfold build_row. apply build_rows_id_check.
  - discriminate.
  - now rewrite Hfst.
  - unfold build_row in Eb. now rewrite Eb.
Qed.

End SingleIdColumn.

(** ** More on the codec of main.js *)

Section CodecFacts.
Import Js Main Spec Terms.

Lemma unquote_plain (v : jsstring) :
  Forall (fun c => c <> DQUOTE) v -> unquote v = v.
Proof.
  intros Hv. unfold unquote.
  destruct Hv as [|c v Hc Hv]; [reflexivity|].
  cbn [startsWith]. apply N.eqb_neq in Hc. rewrite N.eqb_sym in Hc.
  now rewrite Hc.
Qed.

Lemma no_quote_no_escape (f : jsstring) :
  Forall (fun c => c <> DQUOTE) f -> backslash_before_quote f = false.
Proof.
  induction 1 as [|c f Hc Hf IH]; [reflexivity|].
  cbn [backslash_before_quote]. destruct f as [|d f']; [reflexivity|].
  rewrite IH. inversion Hf as [|? ? Hd _]; subst.
  apply N.eqb_neq in Hd. rewrite Hd. now rewrite andb_false_r.
Qed.

Lemma join_split_on (sep : char) (s : jsstring) :
  join sep (split_on sep s) = s.
Proof.
  induction s as [|c t IH]; [reflexivity|].
  cbn [split_on]. destruct (N.eqb_spec c sep) as [->|Hne].
  - destruct (split_on sep t) as [|h r] eqn:E.
    + destruct t; cbn in E; [discriminate|].
      destruct (N.eqb c sep); [discriminate|].
      destruct (split_on sep t); discriminate.
    + rewrite join_cons. cbn [app]. now rewrite IH.
  - destruct (split_on sep t) as [|h r] eqn:E.
    + destruct t; cbn in E; [discriminate|].
      destruct (N.eqb c0 sep); [discriminate|].
      destruct (split_on sep t); discriminate.
    + destruct r as [|q r'].
      * cbn [join] in *. now rewrite IH.
      * rewrite join_cons in *. cbn [app]. now rewrite IH.
Qed.

Lemma split_on_nonempty (sep : char) (s : jsstring) : split_on sep s <> [].
Proof.
  destruct s as [|c t]; cbn [split_on]; [discriminate|].
  destruct (N.eqb c sep); [discriminate|].
  destruct (split_on sep t); discriminate.
Qed.

(** A line without double quote is cut at its commas. *)
Lemma tokenize_plain (line : jsstring) :
  Forall (fun c => c <> DQUOTE) line ->
  tokenize line = map trim (split_on COMMA line).
Proof.
  intros Hq.
  pose proof (split_on_pieces (fun c => c <> DQUOTE) COMMA line Hq) as Hp.
  rewrite <- (join_split_on COMMA line) at 1.
  rewrite tokenize_join.
  - apply map_ext_in. intros f Hf.
    rewrite Forall_forall in Hp. specialize (Hp f Hf).
    apply unquote_plain. apply trim_Forall.
    eapply Forall_impl; [|exact Hp]. now intros c [H _].
  - apply split_on_nonempty.
  - eapply Forall_impl; [|exact Hp]. intros f Hf.
    assert (H1 : Forall (fun c => c <> DQUOTE) f)
      by (eapply Forall_impl; [|exact Hf]; now intros c [H _]).
    assert (H2 : Forall (fun c => c <> COMMA) f)
      by (eapply Forall_impl; [|exact Hf]; now intros c [_ H]).
    destruct (plain_protected f false H2 H1) as [Hc Ht].
    repeat split; auto using no_quote_no_escape.
Qed.

Lemma cell_of_trimmed (pieces : list jsstring) (index : nat) (p : jsstring) :
  nth_error pieces index = Some p ->
  cell (map trim pieces) index = trim p.
Proof.
  intros Hn. unfold cell. rewrite nth_error_map, Hn. cbn [option_map].
  destruct (trim p) as [|c t] eqn:E; [reflexivity|].
  cbn [truthy]. rewrite <- E. apply trim_idem.
Qed.

Lemma in_indexed_lt {A : Type} (l : list A) (x : A) (i : nat) :
  In (x, i) (indexed l) -> In x l /\ i < length l.
Proof.
  unfold indexed. intros H. split.
  - eapply in_combine_l; eauto.
  - apply in_combine_r in H. apply in_seq in H. lia.
Qed.

(** On a line cut at its commas, the rows of the two parsers are built
    alike as long as no header is [visitorId] and each header has its
    piece. *)
Lemma build_rows_alike (pieces : list jsstring) (l : list (jsstring * nat))
  (st : Obj * bool) :
  Forall (fun hi => fst hi <> VISITOR_ID /\ snd hi < length pieces) l ->
  fst (fold_left (row_step (map trim pieces)) l st)
  = fold_left
      (fun visitor hi =>
         obj_set (fst hi)
           (match nth_error (map trim pieces) (snd hi) with
            | Some value => JStr value
            | None => JUndef
            end)
           visitor)
      l (fst st).
Proof.
  revert st. induction l as [|[h i] l IH]; intros st Hl; [reflexivity|].
  inversion Hl as [|? ? [Hh Hi] Hl']; subst. cbn [fst snd] in *.
  cbn [fold_left]. rewrite IH by assumption. f_equal.
  destruct st as [row hasId]. rewrite row_step_key. cbn [fst snd].
  unfold key_of_header. apply str_eqb_neq in Hh. rewrite Hh.
  destruct (nth_error pieces i) as [p|] eqn:Hn.
  - rewrite (cell_of_trimmed _ _ _ Hn), nth_error_map, Hn. reflexivity.
  - apply nth_error_None in Hn. lia.
Qed.

(** A row that ends with a non-empty id has passed the id check. *)
Lemma build_rows_final_id (values : list jsstring) (l : list (jsstring * nat))
  (st : Obj * bool) :
  (truthy (obj_get ID (fst st)) = true -> snd st = true) ->
  truthy (obj_get ID (fst (fold_left (row_step values) l st))) = true ->
  snd (fold_left (row_step values) l st) = true.
Proof.
  revert st. induction l as [|[h i] l IH]; intros st Hst; [exact Hst|].
  cbn [fold_left]. apply IH.
  destruct st as [row hasId]. cbn [fst snd] in Hst.
  unfold row_step.
  remember (if str_eqb h VISITOR_ID then ID else h) as key eqn:Ekey.
  remember (obj_set key (JStr (cell values i)) row) as row' eqn:Erow.
  cbn [fst snd]. intros Hid.
  destruct (str_eqb key ID) eqn:Hk.
  - apply str_eqb_eq in Hk. subst key. rewrite Hk in *. now rewrite Hid.
  - cbn [andb]. apply Hst. apply str_eqb_neq in Hk.
    rewrite Erow in Hid. now rewrite obj_get_set_other in Hid.
Qed.

(** X1: the records of a parsed file have the same names in the same order,
    no name twice and none of them [visitorId], and every value is a string
    without line feed that [trim] leaves as it is. *)
Theorem parsed_records_share_names_and_hold_trimmed_strings :
  forall csvText : jsstring,
    exists keys : list jsstring,
      NoDup keys /\ ~ In VISITOR_ID keys
      /\ forall r, In r (parseCsv csvText) ->
           obj_keys r = keys
           /\ forall k v, In (k, v) r ->
                exists s, v = JStr s /\ trim s = s /\ ~ In LF s.
Proof.
  intros csvText.
  destruct (parseCsv_records csvText) as (keys & Hko & Hkeys & Hrec).
  exists keys. split; [apply Hko|]. split.
  - intros Hin. rewrite Forall_forall in Hkeys.
    destruct (Hkeys _ Hin) as (_ & _ & Hne). now apply Hne.
  - intros r Hr. rewrite Forall_forall in Hrec.
    destruct (Hrec r Hr) as [Hk Hv]. split; [exact Hk|].
    intros k v Hkv. rewrite Forall_forall in Hv.
    pose proof (Hv (k, v) Hkv) as Hp. cbn [snd] in Hp.
    destruct Hp as (s & -> & Ht & Hlf).
    exists s. split; [reflexivity|]. split; [now apply tight_trim|].
    intros Hin. rewrite Forall_forall in Hlf. now apply (Hlf LF Hin).
Qed.

(** X2: when at most one header of the file stands for the id, every record
    [parseCsv] returns holds a non-empty string under [id]. *)
Theorem parsed_records_hold_an_id_when_one_header_names_it :
  forall (csvText first : jsstring) (rest : list jsstring) (r : Obj),
    filter nonblank (split_lines csvText) = first :: rest ->
    id_columns (map trim (split_on COMMA first)) <= 1 ->
    In r (parseCsv csvText) ->
    exists s, obj_get ID r = JStr s /\ s <> [].
Proof.
  intros csvText first rest r Hl Hc Hr.
  pose proof (parseCsv_id_check_with_one_id_column _ _ _ _ Hl Hc Hr) as Hid.
  unfold has_own_id in Hid.
  destruct (parseCsv_records csvText) as (keys & _ & _ & Hrec).
  rewrite Forall_forall in Hrec. destruct (Hrec r Hr) as [_ Hv].
  assert (Hs : obj_get ID r = JUndef \/ exists s, obj_get ID r = JStr s).
  { apply (obj_get_values (fun v => v = JUndef \/ exists s, v = JStr s)).
    - now left.
    - eapply Forall_impl; [|exact Hv]. intros kv (s & -> & _). right. now exists s. }
  destruct Hs as [Hu|[s Hs]]; rewrite ?Hu, ?Hs in Hid; [discriminate|].
  exists s. split; [exact Hs|]. intros ->. discriminate.
Qed.

Lemma parsed_records_hold_an_id_when_one_header_names_it_witness :
  filter nonblank (split_lines example_file) = js "id,firstName" :: [js "1,Ann"; js "2,Bob"]
  /\ id_columns (map trim (split_on COMMA (js "id,firstName"))) <= 1
  /\ In [(js "id", JStr (js "2")); (js "firstName", JStr (js "Bob"))]
        (parseCsv example_file)
  /\ exists s, obj_get ID [(js "id", JStr (js "2")); (js "firstName", JStr (js "Bob"))]
               = JStr s /\ s <> [].
Proof.
  assert (H1 : filter nonblank (split_lines example_file)
               = js "id,firstName" :: [js "1,Ann"; js "2,Bob"]) by reflexivity.
  assert (H2 : id_columns (map trim (split_on COMMA (js "id,firstName"))) <= 1)
    by (vm_compute; lia).
  assert (H3 : In [(js "id", JStr (js "2")); (js "firstName", JStr (js "Bob"))]
                  (parseCsv example_file)) by (vm_compute; auto).
  split; [exact H1|]. split; [exact H2|]. split; [exact H3|].
  exact (parsed_records_hold_an_id_when_one_header_names_it _ _ _ _ H1 H2 H3).
Defined.

Lemma parse_line_length (headers : list jsstring) (line : jsstring) :
  length (parse_line headers line) <= 1.
Proof.
  unfold parse_line. destruct (build_row headers (tokenize line)) as [row [|]];
    cbn [length]; lia.
Qed.

Lemma flat_map_length_le {A B : Type} (f : A -> list B) (l : list A) :
  (forall x, length (f x) <= 1) -> length (flat_map f l) <= length l.
Proof.
  intros Hf. induction l as [|x l IH]; [reflexivity|].
  cbn [flat_map length]. rewrite length_app. specialize (Hf x). lia.
Qed.

(** [parseCsv] returns at most one record for each non-blank line after
    the first; a text of blank lines only, or of a header line only, gives
    no record. *)
Lemma parseCsv_returns_at_most_one_record_per_data_line :
  forall csvText : jsstring,
    length (parseCsv csvText)
    <= length (filter nonblank (split_lines csvText)) - 1.
Proof.
  intros csvText. unfold parseCsv.
  destruct (filter nonblank (split_lines csvText)) as [|first rest];
    [cbn; lia|].
  cbn [length]. rewrite Nat.sub_succ, Nat.sub_0_r.
  apply flat_map_length_le. intros line. apply parse_line_length.
Qed.

(** X3: on a line without double quote that has a piece for every header and
    ends up with a non-empty [id], the parser of main.js and the parser of
    the renderer read the same record, provided no header is [visitorId]. *)
Theorem both_parsers_read_a_plain_line_alike :
  forall (headers : list jsstring) (line : jsstring),
    ~ In DQUOTE line -> ~ In VISITOR_ID headers ->
    length headers <= length (split_on COMMA line) ->
    truthy (obj_get ID (Renderer.parse_row headers line)) = true ->
    Main.parse_line headers line = [Renderer.parse_row headers line].
Proof.
  intros headers line Hq Hv Hlen Hid.
  assert (Hq' : Forall (fun c => c <> DQUOTE) line).
  { apply Forall_forall. intros c Hc ->. now apply Hq. }
  assert (Hl : Forall (fun hi : jsstring * nat =>
                         fst hi <> VISITOR_ID
                         /\ snd hi < length (split_on COMMA line))
                      (indexed headers)).
  { apply Forall_forall. intros [h i] Hin. apply in_indexed_lt in Hin as [Hh Hi].
    cbn [fst snd]. split; [|lia]. intros ->. now apply Hv. }
  unfold parse_line, build_row. rewrite (tokenize_plain _ Hq').
  pose proof (build_rows_alike (split_on COMMA line) (indexed headers) ([], false) Hl)
    as Hrow.
  cbn [fst] in Hrow.
  assert (Hsnd : snd (fold_left (row_step (map trim (split_on COMMA line)))
                        (indexed headers) ([], false)) = true).
  { apply build_rows_final_id; [discriminate|]. rewrite Hrow. exact Hid. }
  destruct (fold_left (row_step (map trim (split_on COMMA line)))
              (indexed headers) ([], false)) as [row hasId].
  cbn [fst snd] in *. subst hasId. now rewrite Hrow.
Qed.

Lemma both_parsers_read_a_plain_line_alike_witness :
  ~ In DQUOTE (js "7, Ann ,Lee") /\ ~ In VISITOR_ID [js "id"; js "firstName"]
  /\ Main.parse_line [js "id"; js "firstName"] (js "7, Ann ,Lee")
     = [Renderer.parse_row [js "id"; js "firstName"] (js "7, Ann ,Lee")].
Proof.
  assert (H1 : ~ In DQUOTE (js "7, Ann ,Lee")).
  { intros H. vm_compute in H. repeat (destruct H as [H|H]; [discriminate|]). exact H. }
  assert (H2 : ~ In VISITOR_ID [js "id"; js "firstName"]).
  { intros H. vm_compute in H. repeat (destruct H as [H|H]; [discriminate|]). exact H. }
  split; [exact H1|]. split; [exact H2|].
  apply (both_parsers_read_a_plain_line_alike _ _ H1 H2).
  - vm_compute. lia.
  - reflexivity.
Defined.

(** X4: for every string, stripping the quotes as [parseCsv] does undoes the
    quoting of [stringifyCsv]. *)
Theorem unquote_undoes_format_value :
  forall v : jsstring, unquote (format_value (JStr v)) = v.
Proof.
  intros v. unfold format_value.
  destruct (includes [COMMA] v || includes [DQUOTE] v) eqn:Hn.
  - set (w := DQUOTE :: escape_quotes v ++ [DQUOTE]). unfold unquote.
    assert (Hs : startsWith [DQUOTE] w = true) by reflexivity.
    assert (He : endsWith [DQUOTE] w = true).
    { unfold endsWith, w. cbn [rev]. rewrite rev_app_distr. reflexivity. }
    rewrite Hs, He. cbn [andb]. unfold w. rewrite substring_inner.
    apply unescape_escape.
  - apply orb_false_iff in Hn as [_ H2]. apply not_includes_char in H2.
    now apply unquote_plain.
Qed.

Lemma split_lines_with_cr (l : jsstring) (lines : list jsstring) :
  Forall (Forall (fun c => c <> LF /\ c <> CR)) (l :: lines) ->
  split_lines (join LF (with_cr (l :: lines))) = l :: lines.
Proof.
  revert l. induction lines as [|l2 rest IH]; intros l Hl.
  - cbn [with_cr join]. unfold split_lines.
    rewrite split_lines_from_last.
    + now rewrite app_nil_r, rev_involutive.
    + inversion Hl as [|? ? H _]; subst.
      eapply Forall_impl; [|exact H]. now intros c [Hc _].
  - inversion Hl as [|? ? H Hrest]; subst.
    change (with_cr (l :: l2 :: rest)) with ((l ++ [CR]) :: with_cr (l2 :: rest)).
    assert (Hne : exists q qs, with_cr (l2 :: rest) = q :: qs).
    { destruct rest; cbn [with_cr]; eauto. }
    destruct Hne as (q & qs & Hq). rewrite Hq, join_cons, <- Hq.
    unfold split_lines. rewrite split_lines_from_piece.
    + rewrite app_nil_r, rev_app_distr. cbn [rev app strip_cr].
      rewrite N.eqb_refl, rev_involutive. f_equal. apply (IH l2 Hrest).
    + apply Forall_app. split.
      * eapply Forall_impl; [|exact H]. now intros c [Hc _].
      * repeat constructor. discriminate.
Qed.

(** X5: a text whose lines end with a carriage return and a line feed is
    parsed like the same lines ended with a line feed only. *)
Theorem parseCsv_reads_crlf_lines_like_lf_lines :
  forall lines : list jsstring,
    Forall (Forall (fun c => c <> LF /\ c <> CR)) lines ->
    parseCsv (join LF (with_cr lines)) = parseCsv (join LF lines).
Proof.
  intros [|l lines] Hl; [reflexivity|].
  unfold parseCsv. rewrite (split_lines_with_cr _ _ Hl).
  rewrite split_lines_join; [reflexivity|discriminate|].
  eapply Forall_impl; [|exact Hl]. intros p Hp. split.
  - eapply Forall_impl; [|exact Hp]. now intros c [Hc _].
  - destruct (rev p) as [|c t] eqn:E; [reflexivity|]. cbn [strip_cr].
    assert (Hin : In c p) by (apply in_rev; rewrite E; now left).
    rewrite Forall_forall in Hp. destruct (Hp c Hin) as [_ Hcr].
    apply N.eqb_neq in Hcr. now rewrite Hcr.
Qed.

Lemma parseCsv_reads_crlf_lines_like_lf_lines_witness :
  Forall (Forall (fun c => c <> LF /\ c <> CR)) [js "id,firstName"; js "1,Ann"; js "2,Bob"]
  /\ parseCsv (js "id,firstName" ++ [CR; LF] ++ js "1,Ann" ++ [CR; LF] ++ js "2,Bob")
     = parseCsv example_file.
Proof.
  assert (H : Forall (Forall (fun c => c <> LF /\ c <> CR))
                [js "id,firstName"; js "1,Ann"; js "2,Bob"]).
  { repeat constructor; discriminate. }
  split; [exact H|].
  exact (parseCsv_reads_crlf_lines_like_lf_lines _ H).
Defined.

End CodecFacts.

(** ** More on the handlers of main.js *)

Section FileHandlers.
Import Js Main Spec Dialog Terms.

(** X7: the save handler leaves every file but the remembered one as it was,
    and never changes which file is remembered. *)
Theorem save_touches_only_the_remembered_file :
  forall (st : MainState) (updatedVisitor : Obj) (p : jsstring),
    lastUsedFilePath st <> Some p ->
    files (snd (updateAndSaveCsvFile st updatedVisitor)) p = files st p
    /\ lastUsedFilePath (snd (updateAndSaveCsvFile st updatedVisitor))
       = lastUsedFilePath st.
Proof.
  intros st u p Hp. unfold updateAndSaveCsvFile.
  destruct (lastUsedFilePath st) as [[|c path]|] eqn:Hl; [now split| |now split].
  destruct (files st (c :: path)) as [fileContent|]; [|now split].
  destruct (upsert (parseCsv fileContent) u) as [visitors|e]; [|now split].
  assert (Hne : p <> c :: path) by (intros ->; now apply Hp).
  apply str_eqb_neq in Hne.
  destruct (writeOutcome st (c :: path) (stringifyCsv visitors));
    cbn [snd files lastUsedFilePath]; (split; [|reflexivity]);
    unfold write_file, leave_file; now rewrite Hne.
Qed.

Lemma save_touches_only_the_remembered_file_witness :
  lastUsedFilePath (example_main_state (Some example_path)) <> Some (js "other.csv")
  /\ files (snd (updateAndSaveCsvFile (example_main_state (Some example_path))
                   example_update)) (js "other.csv")
     = None.
Proof.
  assert (H : lastUsedFilePath (example_main_state (Some example_path))
              <> Some (js "other.csv")) by discriminate.
  split; [exact H|].
  exact (proj1 (save_touches_only_the_remembered_file
                  (example_main_state (Some example_path)) example_update
                  (js "other.csv") H)).
Defined.

(** X8: a save that answers a failure carries an error, and either it has
    not called [fs.writeFileSync], the files being as before and the handler
    having at most read the remembered file; or it has read the remembered
    file, found the rows to write and called [fs.writeFileSync] once, on
    that file, and the call threw: the file is left as the failed write
    left it, every other file as it was. *)
Theorem failed_save_wrote_nothing_or_failed_writing :
  forall (st : MainState) (updatedVisitor : Obj),
    success (fst (updateAndSaveCsvFile st updatedVisitor)) = false ->
    error (fst (updateAndSaveCsvFile st updatedVisitor)) <> None
    /\ ((files (snd (updateAndSaveCsvFile st updatedVisitor)) = files st
         /\ (fsLog (snd (updateAndSaveCsvFile st updatedVisitor)) = fsLog st
             \/ exists path,
                  fsLog (snd (updateAndSaveCsvFile st updatedVisitor))
                  = fsLog st ++ [FsRead path]))
        \/ exists path content visitors remains,
             lastUsedFilePath st = Some path
             /\ files st path = Some content
             /\ upsert (parseCsv content) updatedVisitor = Ok visitors
             /\ writeOutcome st path (stringifyCsv visitors) = WriteFails remains
             /\ fsLog (snd (updateAndSaveCsvFile st updatedVisitor))
                = fsLog st ++ [FsRead path; FsWrite path (stringifyCsv visitors)]
             /\ files (snd (updateAndSaveCsvFile st updatedVisitor)) path = remains
             /\ forall p, p <> path ->
                   files (snd (updateAndSaveCsvFile st updatedVisitor)) p
                   = files st p).
Proof.
  intros st u. unfold updateAndSaveCsvFile.
  destruct (lastUsedFilePath st) as [[|c path]|] eqn:Hl.
  - intros _. cbn. split; [discriminate|]. left. split; [reflexivity|now left].
  - destruct (files st (c :: path)) as [fileContent|] eqn:Hf.
    + destruct (upsert (parseCsv fileContent) u) as [visitors|e] eqn:Hu.
      * destruct (writeOutcome st (c :: path) (stringifyCsv visitors))
          as [|remains] eqn:Hw; [cbn; discriminate|].
        intros _. cbn [fst snd error files fsLog]. split; [discriminate|].
        right. exists (c :: path), fileContent, visitors, remains.
        split; [reflexivity|]. split; [exact Hf|]. split; [exact Hu|].
        split; [exact Hw|]. split; [now rewrite <- app_assoc|].
        unfold leave_file. split; [now rewrite str_eqb_refl|].
        intros p Hp. apply str_eqb_neq in Hp. now rewrite Hp.
      * intros _. cbn. split; [discriminate|]. left.
        split; [reflexivity|right; now exists (c :: path)].
    + intros _. cbn. split; [discriminate|]. left.
      split; [reflexivity|right; now exists (c :: path)].
  - intros _. cbn. split; [discriminate|]. left. split; [reflexivity|now left].
Qed.

Lemma failed_save_wrote_nothing_or_failed_writing_witness :
  success (fst (updateAndSaveCsvFile failing_disk example_update)) = false
  /\ files (snd (updateAndSaveCsvFile failing_disk example_update)) example_path
     = Some []
  /\ error (fst (updateAndSaveCsvFile failing_disk example_update)) <> None.
Proof.
  assert (H : success (fst (updateAndSaveCsvFile failing_disk example_update))
              = false) by reflexivity.
  split; [exact H|]. split; [reflexivity|].
  exact (proj1 (failed_save_wrote_nothing_or_failed_writing _ _ H)).
Defined.

Lemma findIndex_app_hit {A : Type} (test : A -> res bool) (l1 l2 : list A)
  (x : A) (k : nat) :
  (forall y, In y l1 -> test y = Ok false) -> test x = Ok true ->
  findIndex test (l1 ++ x :: l2) k = Ok (Some (k + length l1)).
Proof.
  revert k. induction l1 as [|y l1 IH]; intros k Hl Hx.
  - cbn. rewrite Hx. f_equal. f_equal. lia.
  - cbn [app findIndex]. rewrite (Hl y (or_introl eq_refl)).
    rewrite IH; [|intros z Hz; apply Hl; now right|assumption].
    cbn [length]. f_equal. f_equal. lia.
Qed.

Lemma replace_at_app {A : Type} (l1 l2 : list A) (x y : A) :
  replace_at (length l1) x (l1 ++ y :: l2) = l1 ++ x :: l2.
Proof.
  induction l1 as [|z l1 IH]; [reflexivity|].
  cbn [length app replace_at]. now rewrite IH.
Qed.

Lemma in_firstn_nth {A : Type} (l : list A) (i : nat) (y : A) :
  In y (firstn i l) -> exists j, j < i /\ nth_error l j = Some y.
Proof.
  revert l. induction i as [|i IH]; intros l H; [destruct H|].
  destruct l as [|z l]; [destruct H|].
  cbn [firstn] in H. destruct H as [->|H].
  - exists 0. split; [lia|reflexivity].
  - destruct (IH l H) as (j & Hj & Hn). exists (S j). split; [lia|exact Hn].
Qed.

Lemma same_id_self (u : Obj) (s : jsstring) :
  obj_get ID u = JStr s -> s <> [] -> same_id u u = Ok true.
Proof.
  intros Hs Hne. unfold same_id. rewrite Hs.
  destruct s as [|c s]; [congruence|]. cbn [truthy].
  now rewrite str_eqb_refl.
Qed.

(** X9: for a record with a non-empty string id, the upsert done twice gives
    what the upsert done once gives: the second one finds the record where
    the first one has put it. *)
Theorem upsert_twice_is_upsert_once :
  forall (visitors visitors' : list Obj) (updatedVisitor : Obj) (s : jsstring),
    obj_get ID updatedVisitor = JStr s -> s <> [] ->
    upsert visitors updatedVisitor = Ok visitors' ->
    upsert visitors' updatedVisitor = Ok visitors'.
Proof.
  intros visitors visitors' u s Hs Hne Hu.
  pose proof (same_id_self u s Hs Hne) as Hself.
  unfold upsert in Hu.
  destruct (findIndex (same_id u) visitors 0) as [[i|]|e] eqn:Hf; [| |discriminate].
  - injection Hu as <-.
    apply findIndex_some in Hf as (j & y & Hi & Hn & Hy & Hbefore).
    cbn in Hi. subst j.
    destruct (replace_at_split i u y visitors Hn) as [Hl Hr].
    assert (Hlen : length (firstn i visitors) = i).
    { apply firstn_length_le. apply Nat.lt_le_incl.
      apply nth_error_Some. congruence. }
    unfold upsert. rewrite Hr.
    rewrite (findIndex_app_hit (same_id u) _ _ u 0); [|
      intros z Hz; apply in_firstn_nth in Hz as (j & Hj & Hz); eauto | exact Hself].
    cbn [Nat.add].
    pose proof (replace_at_app (firstn i visitors) (skipn (S i) visitors) u u) as Hra.
    rewrite Hlen in *. now rewrite Hra.
  - injection Hu as <-.
    pose proof (findIndex_none _ _ _ Hf) as Hall.
    unfold upsert.
    rewrite (findIndex_app_hit (same_id u) visitors [] u 0 Hall Hself).
    cbn [Nat.add]. now rewrite replace_at_app.
Qed.

Lemma upsert_twice_is_upsert_once_witness :
  obj_get ID example_update = JStr (js "2") /\ js "2" <> []
  /\ upsert (parseCsv example_file) example_update
     = Ok [[(js "id", JStr (js "1")); (js "firstName", JStr (js "Ann"))];
           example_update]
  /\ upsert [[(js "id", JStr (js "1")); (js "firstName", JStr (js "Ann"))];
             example_update] example_update
     = Ok [[(js "id", JStr (js "1")); (js "firstName", JStr (js "Ann"))];
           example_update].
Proof.
  assert (H1 : obj_get ID example_update = JStr (js "2")) by reflexivity.
  assert (H2 : js "2" <> []) by discriminate.
  assert (H3 : upsert (parseCsv example_file) example_update
               = Ok [[(js "id", JStr (js "1")); (js "firstName", JStr (js "Ann"))];
                     example_update]) by reflexivity.
  split; [exact H1|]. split; [exact H2|]. split; [exact H3|].
  exact (upsert_twice_is_upsert_once _ _ _ _ H1 H2 H3).
Defined.

(** X10: once the open handler has answered the content of the chosen file,
    the save handler works on that file: when the upsert does not throw and
    the write goes through, it answers a success and the chosen file holds
    the text [stringifyCsv] made of the rows. *)
Theorem save_after_open_goes_to_the_opened_file :
  forall (st : MainState) (d : OpenDialogReturn) (path content : jsstring)
         (others : list jsstring) (updatedVisitor : Obj) (visitors : list Obj),
    canceled d = false -> filePaths d = path :: others -> path <> [] ->
    files st path = Some content ->
    upsert (parseCsv content) updatedVisitor = Ok visitors ->
    writeOutcome st path (stringifyCsv visitors) = Written ->
    fst (readCsvFile st (Ok d)) = Some content
    /\ success (fst (updateAndSaveCsvFile (snd (readCsvFile st (Ok d)))
                       updatedVisitor)) = true
    /\ files (snd (updateAndSaveCsvFile (snd (readCsvFile st (Ok d)))
                     updatedVisitor)) path
       = Some (stringifyCsv visitors).
Proof.
  intros st d path content others u visitors Hc Hp Hne Hf Hu Hw.
  unfold readCsvFile. rewrite Hc, Hp. cbn [length Nat.eqb orb hd].
  rewrite Hf. cbn [fst snd]. split; [reflexivity|].
  unfold updateAndSaveCsvFile. cbn [lastUsedFilePath files writeOutcome].
  destruct path as [|c path]; [congruence|].
  rewrite Hf, Hu, Hw. cbn [fst snd success files]. split; [reflexivity|].
  unfold write_file. now rewrite str_eqb_refl.
Qed.

Lemma save_after_open_goes_to_the_opened_file_witness :
  files (example_main_state None) example_path = Some example_file
  /\ fst (readCsvFile (example_main_state None)
            (Ok (mkOpenDialogReturn false [example_path])))
     = Some example_file
  /\ files (snd (updateAndSaveCsvFile
                   (snd (readCsvFile (example_main_state None)
                           (Ok (mkOpenDialogReturn false [example_path]))))
                   example_update)) example_path
     = Some (js "id,firstName" ++ [LF] ++ js "1,Ann" ++ [LF] ++ js "2,Rob").
Proof.
  assert (H1 : files (example_main_state None) example_path = Some example_file)
    by reflexivity.
  assert (H2 : example_path <> []) by discriminate.
  assert (H3 : upsert (parseCsv example_file) example_update
               = Ok [[(js "id", JStr (js "1")); (js "firstName", JStr (js "Ann"))];
                     example_update]) by reflexivity.
  pose proof (save_after_open_goes_to_the_opened_file (example_main_state None)
                (mkOpenDialogReturn false [example_path]) example_path example_file
                [] example_update _ eq_refl eq_refl H2 H1 H3 eq_refl) as H.
  split; [exact H1|]. split; [exact (proj1 H)|exact (proj2 (proj2 H))].
Defined.

(** X11: a chosen file that cannot be read is remembered all the same: the
    open handler answers [null], and the next save is aimed at that file
    and fails on reading it, writing nothing. *)
Theorem unreadable_file_is_remembered :
  forall (st : MainState) (d : OpenDialogReturn) (path : jsstring)
         (others : list jsstring) (updatedVisitor : Obj),
    canceled d = false -> filePaths d = path :: others -> path <> [] ->
    files st path = None ->
    fst (readCsvFile st (Ok d)) = None
    /\ lastUsedFilePath (snd (readCsvFile st (Ok d))) = Some path
    /\ fst (updateAndSaveCsvFile (snd (readCsvFile st (Ok d))) updatedVisitor)
       = mkReply false (Some (MessageOf FileError))
    /\ files (snd (updateAndSaveCsvFile (snd (readCsvFile st (Ok d))) updatedVisitor))
       = files st.
Proof.
  intros st d path others u Hc Hp Hne Hf.
  unfold readCsvFile. rewrite Hc, Hp. cbn [length Nat.eqb orb hd].
  rewrite Hf. cbn [fst snd lastUsedFilePath].
  split; [reflexivity|]. split; [reflexivity|].
  unfold updateAndSaveCsvFile. cbn [lastUsedFilePath files].
  destruct path as [|c path]; [congruence|].
  rewrite Hf. cbn [fst snd files]. now split.
Qed.

Lemma unreadable_file_is_remembered_witness :
  files (example_main_state None) (js "missing.csv") = None
  /\ lastUsedFilePath
       (snd (readCsvFile (example_main_state None)
               (Ok (mkOpenDialogReturn false [js "missing.csv"]))))
     = Some (js "missing.csv").
Proof.
  assert (H1 : files (example_main_state None) (js "missing.csv") = None)
    by reflexivity.
  assert (H2 : js "missing.csv" <> []) by discriminate.
  split; [exact H1|].
  exact (proj1 (proj2 (unreadable_file_is_remembered (example_main_state None)
                         (mkOpenDialogReturn false [js "missing.csv"])
                         (js "missing.csv") [] example_update
                         eq_refl eq_refl H2 H1))).
Defined.

End FileHandlers.

(** ** Ban, unban and general notes *)

Section StatusAndNotes.
Import Js Renderer Records Actions ImportSpec Terms.

Variable fault : StoreStmt -> bool.

Local Abbreviation updateVisitorStatus := (updateVisitorStatus fault).
Local Abbreviation updateGeneralNotes := (updateGeneralNotes fault).
Local Abbreviation handleBanConfirm := (handleBanConfirm fault).
Local Abbreviation handleUnbanConfirm := (handleUnbanConfirm fault).

Lemma read_text_whole (s : jsstring) : nul_free s -> read_text s = s.
Proof.
  induction 1 as [|c t Hc _ IH]; [reflexivity|].
  cbn [read_text]. apply N.eqb_neq in Hc. now rewrite Hc, IH.
Qed.

Lemma read_value_whole (v : SqlVal) : value_nul_free v -> read_value v = v.
Proof.
  destruct v as [|z|t]; [reflexivity|reflexivity|].
  intros H. cbn [read_value]. now rewrite read_text_whole.
Qed.

(** A row without U+0000 is read back as it is, and so is a table of such
    rows. *)
Lemma read_row_whole (r : Row) : row_nul_free r -> read_row r = r.
Proof.
  intros H. unfold row_nul_free in H.
  repeat match goal with
         | H : Forall _ (_ :: _) |- _ => inversion_clear H
         end.
  destruct r. unfold read_row. cbn in *.
  now rewrite !read_value_whole by assumption.
Qed.

Lemma read_back_whole (t : list Row) :
  Forall row_nul_free t -> map read_row t = t.
Proof.
  induction 1 as [|r t Hr _ IH]; [reflexivity|].
  cbn [map]. now rewrite read_row_whole, IH.
Qed.

Lemma truthy_binds (v : JsVal) : truthy v = true -> bind_value v = Ok (sql_of v).
Proof. destruct v; cbn; congruence. Qed.

Lemma status_notes_bind (nts : JsVal) :
  bind_value (if truthy nts then nts else JStr [])
  = Ok (sql_of (if truthy nts then nts else JStr [])).
Proof.
  destruct (truthy nts) eqn:E; [now apply truthy_binds|reflexivity].
Qed.

(** The two outcomes of [updateVisitorStatus] for a truthy id. *)
Lemma updateVisitorStatus_cases (visitorId : JsVal) (banned : bool) (nts : JsVal)
  (s : State) :
  truthy visitorId = true ->
  updateVisitorStatus visitorId banned nts s
  = if fault (UpdateStatus (if banned then 1 else 0)
                (if truthy nts then nts else JStr []) visitorId)
    then ([ShowMessageBox (Literal (js "Failed to update visitor status.")) KError], s)
    else ([RenderFoundProfile
             (find_visitor visitorId
                (map read_row (map (status_row visitorId banned nts) (table s))));
           STATUS_UPDATED],
          synced (map (status_row visitorId banned nts) (table s)) s).
Proof.
  intros Hv. unfold Actions.updateVisitorStatus. rewrite Hv. cbn [negb].
  rewrite !bind_run. unfold run_update_status.
  destruct (fault _); [reflexivity|].
  cbn [bind_all]. rewrite status_notes_bind, (truthy_binds _ Hv).
  reflexivity.
Qed.

(** The outcomes of [updateGeneralNotes] for a truthy id and notes that are
    a string. *)
Lemma updateGeneralNotes_cases (visitorId : JsVal) (n : jsstring) (s : State) :
  truthy visitorId = true ->
  updateGeneralNotes visitorId (JStr n) s
  = if fault (UpdateGeneralNotes (JStr n) visitorId)
    then ([ShowMessageBox (Literal (js "Failed to save notes.")) KError], s)
    else ([RenderFoundProfile
             (find_visitor visitorId
                (map read_row (map (notes_row visitorId (JStr n)) (table s))));
           NOTES_SAVED],
          synced (map (notes_row visitorId (JStr n)) (table s)) s).
Proof.
  intros Hv. unfold Actions.updateGeneralNotes. rewrite Hv. cbn [negb].
  rewrite !bind_run. unfold run_update_generalNotes.
  destruct (fault _); [reflexivity|].
  cbn [bind_all bind_value]. rewrite (truthy_binds _ Hv).
  reflexivity.
Qed.

Lemma status_row_kept (visitorId : JsVal) (banned : bool) (nts : JsVal) (r : Row) :
  kept_by_status (status_row visitorId banned nts r) = kept_by_status r.
Proof. unfold status_row. now destruct (sql_eqb _ _). Qed.

Lemma notes_row_kept (visitorId nts : JsVal) (r : Row) :
  kept_by_notes (notes_row visitorId nts r) = kept_by_notes r.
Proof. unfold notes_row. now destruct (sql_eqb _ _). Qed.

Lemma status_row_nul_free (visitorId : JsVal) (banned : bool) (n : jsstring)
  (r : Row) :
  nul_free n -> row_nul_free r ->
  row_nul_free (status_row visitorId banned (JStr n) r).
Proof.
  intros Hn Hr. unfold status_row.
  destruct (sql_eqb (id r) (key_of visitorId)); [|exact Hr].
  unfold row_nul_free in *.
  repeat match goal with
         | H : Forall _ (_ :: _) |- _ => inversion_clear H
         end.
  cbn [id firstName lastName flatNumber phoneNumber dateOfBirth scannedIdPicUrl
       isBanned notes generalNotes].
  repeat constructor; try assumption.
  destruct n; cbn; [constructor|exact Hn].
Qed.

Lemma notes_row_nul_free (visitorId : JsVal) (n : jsstring) (r : Row) :
  nul_free n -> row_nul_free r ->
  row_nul_free (notes_row visitorId (JStr n) r).
Proof.
  intros Hn Hr. unfold notes_row.
  destruct (sql_eqb (id r) (key_of visitorId)); [|exact Hr].
  unfold row_nul_free in *.
  repeat match goal with
         | H : Forall _ (_ :: _) |- _ => inversion_clear H
         end.
  cbn [id firstName lastName flatNumber phoneNumber dateOfBirth scannedIdPicUrl
       isBanned notes generalNotes].
  repeat constructor; assumption.
Qed.

Lemma status_row_id (visitorId : JsVal) (banned : bool) (nts : JsVal) (r : Row) :
  id (status_row visitorId banned nts r) = id r.
Proof. unfold status_row. now destruct (sql_eqb _ _). Qed.

Lemma notes_row_id (visitorId nts : JsVal) (r : Row) :
  id (notes_row visitorId nts r) = id r.
Proof. unfold notes_row. now destruct (sql_eqb _ _). Qed.

Lemma find_map_same {A : Type} (p : A -> bool) (f : A -> A) (l : list A) :
  (forall x, p (f x) = p x) -> find p (map f l) = option_map f (find p l).
Proof.
  intros Hp. induction l as [|x l IH]; [reflexivity|].
  cbn [map find]. rewrite Hp. now destruct (p x).
Qed.

Lemma find_visitor_map (visitorId : JsVal) (f : Row -> Row) (l : list Row) :
  (forall r, id (f r) = id r) ->
  find_visitor visitorId (map f l) = option_map f (find_visitor visitorId l).
Proof.
  intros Hf. apply find_map_same. intros r. now rewrite Hf.
Qed.

(** A row found by its text id is one the statements reach. *)
Lemma find_visitor_key (k : jsstring) (l : list Row) (r : Row) :
  find_visitor (JStr k) l = Some r -> sql_eqb (id r) (key_of (JStr k)) = true.
Proof.
  intros H. apply find_some in H as [_ H].
  destruct (id r); cbn in *; congruence.
Qed.

Lemma find_visitor_none (k : jsstring) (l : list Row) :
  has_id (SText k) l = false -> find_visitor (JStr k) l = None.
Proof.
  intros H. destruct (find_visitor (JStr k) l) as [r|] eqn:E; [|reflexivity].
  pose proof (find_visitor_key _ _ _ E) as Hk.
  apply find_some in E as [Hin _].
  assert (Hex : existsb (fun x => sql_eqb (id x) (SText k)) l = true)
    by (apply existsb_exists; eauto).
  unfold has_id in H. congruence.
Qed.

Lemma status_update_keeps_selection (visitorId : JsVal)
  (banned : bool) (nts : JsVal) (s : State) :
  selectedVisitorId (snd (updateVisitorStatus visitorId banned nts s))
  = selectedVisitorId s.
Proof.
  destruct (truthy visitorId) eqn:Hv.
  - rewrite (updateVisitorStatus_cases _ _ _ _ Hv). now destruct (fault _).
  - unfold Actions.updateVisitorStatus. now rewrite Hv.
Qed.

(** X13: whatever its arguments and its outcome, [updateVisitorStatus] leaves
    the id, the names, the contact columns and the general notes of every
    row as they were, deletes and adds no row, and keeps the selection. *)
Theorem status_update_keeps_identity_and_general_notes :
  forall (visitorId : JsVal) (banned : bool) (nts : JsVal) (s : State),
    map kept_by_status (table (snd (updateVisitorStatus visitorId banned nts s)))
    = map kept_by_status (table s)
    /\ selectedVisitorId (snd (updateVisitorStatus visitorId banned nts s))
       = selectedVisitorId s.
Proof.
  intros visitorId banned nts s.
  destruct (truthy visitorId) eqn:Hv.
  - rewrite (updateVisitorStatus_cases _ _ _ _ Hv).
    destruct (fault _); cbn [snd synced table selectedVisitorId]; [now split|].
    split; [|reflexivity]. rewrite map_map. apply map_ext.
    intros r. apply status_row_kept.
  - unfold Actions.updateVisitorStatus. rewrite Hv. now split.
Qed.

(** X14: in a table without U+0000 in its texts, when a status update with
    notes that have none either shows its success message, for a text id
    that a row carries, the profile rendered is that of the visitor with the
    new status and notes and nothing else new; the list and the saved
    database hold the same table again. *)
Theorem status_update_is_read_back :
  forall (k : jsstring) (banned : bool) (n : jsstring) (s : State) (r : Row)
         (shown : option Row),
    k <> [] ->
    Forall row_nul_free (table s) -> nul_free n ->
    find_visitor (JStr k) (table s) = Some r ->
    fst (updateVisitorStatus (JStr k) banned (JStr n) s)
    = [RenderFoundProfile shown; STATUS_UPDATED] ->
    exists r',
      shown = Some r'
      /\ isVisitorBanned (Some r') = banned
      /\ notes r' = SText n
      /\ kept_by_status r' = kept_by_status r
      /\ visitorsList (snd (updateVisitorStatus (JStr k) banned (JStr n) s))
         = table (snd (updateVisitorStatus (JStr k) banned (JStr n) s))
      /\ localStorage (snd (updateVisitorStatus (JStr k) banned (JStr n) s))
         = Some (table (snd (updateVisitorStatus (JStr k) banned (JStr n) s))).
Proof.
  intros k banned n s r shown Hk Hclean Hnn Hr.
  assert (Hv : truthy (JStr k) = true) by (destruct k; [congruence|reflexivity]).
  assert (Hn : (if truthy (JStr n) then JStr n else JStr []) = JStr n)
    by (destruct n; reflexivity).
  assert (Hback : map read_row (map (status_row (JStr k) banned (JStr n)) (table s))
                  = map (status_row (JStr k) banned (JStr n)) (table s)).
  { apply read_back_whole, Forall_map.
    eapply Forall_impl; [|exact Hclean]. intros x. now apply status_row_nul_free. }
  rewrite (updateVisitorStatus_cases _ _ _ _ Hv), Hn.
  destruct (fault (UpdateStatus (if banned then 1 else 0) (JStr n) (JStr k)));
    [discriminate|].
  cbn [fst snd synced table visitorsList localStorage]. rewrite Hback.
  rewrite find_visitor_map by (intros; apply status_row_id). rewrite Hr.
  cbn [option_map]. intros [= <-].
  exists (status_row (JStr k) banned (JStr n) r).
  split; [reflexivity|].
  pose proof (find_visitor_key _ _ _ Hr) as Hkey.
  unfold status_row at 1 2. rewrite Hkey, Hn.
  split; [now destruct banned|]. split; [reflexivity|].
  split; [apply status_row_kept|]. now split.
Qed.

Lemma status_row_twice (visitorId : JsVal) (b1 b2 : bool) (n1 n2 : JsVal) (r : Row) :
  status_row visitorId b2 n2 (status_row visitorId b1 n1 r)
  = status_row visitorId b2 n2 r.
Proof.
  unfold status_row. destruct (sql_eqb (id r) (key_of visitorId)) eqn:E.
  - cbn [id]. now rewrite E.
  - now rewrite E.
Qed.

Lemma status_row_miss (visitorId : JsVal) (banned : bool) (nts : JsVal)
  (t : list Row) :
  has_id (key_of visitorId) t = false ->
  map (status_row visitorId banned nts) t = t.
Proof.
  intros H. rewrite <- (map_id t) at 2. apply map_ext_in. intros r Hr.
  unfold status_row.
  destruct (sql_eqb (id r) (key_of visitorId)) eqn:E; [|reflexivity].
  unfold has_id in H.
  assert (Hex : existsb (fun x => sql_eqb (id x) (key_of visitorId)) t = true)
    by (apply existsb_exists; eauto).
  congruence.
Qed.

(** X15: in a table without U+0000 in its texts, a status update for a text
    id that no row carries changes nothing: when it shows its success
    message, it shows it over an empty profile, and the table and the list
    are those of before. *)
Theorem status_update_of_an_unknown_id_changes_nothing :
  forall (k : jsstring) (banned : bool) (n : jsstring) (s : State)
         (shown : option Row),
    k <> [] ->
    Forall row_nul_free (table s) ->
    has_id (SText k) (table s) = false ->
    fst (updateVisitorStatus (JStr k) banned (JStr n) s)
    = [RenderFoundProfile shown; STATUS_UPDATED] ->
    shown = None
    /\ table (snd (updateVisitorStatus (JStr k) banned (JStr n) s)) = table s
    /\ visitorsList (snd (updateVisitorStatus (JStr k) banned (JStr n) s))
       = table s.
Proof.
  intros k banned n s shown Hk Hclean Hid.
  assert (Hv : truthy (JStr k) = true) by (destruct k; [congruence|reflexivity]).
  assert (Hn : (if truthy (JStr n) then JStr n else JStr []) = JStr n)
    by (destruct n; reflexivity).
  rewrite (updateVisitorStatus_cases _ _ _ _ Hv), Hn.
  destruct (fault (UpdateStatus (if banned then 1 else 0) (JStr n) (JStr k)));
    [discriminate|].
  cbn [fst snd synced table visitorsList].
  rewrite (status_row_miss (JStr k) banned (JStr n) (table s) Hid).
  rewrite (read_back_whole _ Hclean).
  rewrite (find_visitor_none _ _ Hid). intros [= <-]. now repeat split.
Qed.

(** X16: of two status updates of the same visitor the last one wins: when
    its statement goes through, the outcome is the one it would have had
    without the update before, whether that one went through or not. *)
Theorem last_status_update_wins :
  forall (visitorId : JsVal) (b1 b2 : bool) (n1 n2 : JsVal) (s : State),
    fault (UpdateStatus (if b2 then 1 else 0)
             (if truthy n2 then n2 else JStr []) visitorId) = false ->
    updateVisitorStatus visitorId b2 n2
      (snd (updateVisitorStatus visitorId b1 n1 s))
    = updateVisitorStatus visitorId b2 n2 s.
Proof.
  intros visitorId b1 b2 n1 n2 s Hf.
  destruct (truthy visitorId) eqn:Hv.
  - rewrite (updateVisitorStatus_cases visitorId b1 n1 s Hv).
    destruct (fault (UpdateStatus (if b1 then 1 else 0) _ visitorId));
      [reflexivity|].
    cbn [snd]. rewrite !(updateVisitorStatus_cases visitorId b2 n2 _ Hv), Hf.
    cbn [synced table]. rewrite (map_map (status_row visitorId b1 n1)).
    rewrite (map_ext _ _ (status_row_twice visitorId b1 b2 n1 n2)).
    reflexivity.
  - unfold Actions.updateVisitorStatus. rewrite Hv. reflexivity.
Qed.

(** X17: in a table without U+0000 in its texts, when an unban with the
    password of line 9 that follows a ban shows its success messages, the
    profile rendered is that of the visitor as not banned, with empty notes
    and every other column as before the ban, and the table is the one an
    unban alone would have left. *)
Theorem unban_after_ban_clears_status_and_notes :
  forall (k n : jsstring) (s : State) (r : Row) (shown : option Row),
    selectedVisitorId s = SText k -> k <> [] ->
    Forall row_nul_free (table s) ->
    find_visitor (JStr k) (table s) = Some r ->
    fst (handleUnbanConfirm UNBAN_PASSWORD (snd (handleBanConfirm n s)))
    = [RenderFoundProfile shown; STATUS_UPDATED;
       ShowMessageBox (Literal (js "Visitor has been unbanned.")) KSuccess] ->
    exists r',
      shown = Some r'
      /\ isVisitorBanned (Some r') = false
      /\ notes r' = SText []
      /\ kept_by_status r' = kept_by_status r
      /\ table (snd (handleUnbanConfirm UNBAN_PASSWORD (snd (handleBanConfirm n s))))
         = table (snd (handleUnbanConfirm UNBAN_PASSWORD s)).
Proof.
  intros k n s r shown Hsel Hk Hclean Hr.
  assert (Hv : truthy (JStr k) = true) by (destruct k; [congruence|reflexivity]).
  assert (Hban : handleBanConfirm n s
                 = updateVisitorStatus (JStr k) true (JStr n) s).
  { unfold Actions.handleBanConfirm. rewrite Hsel. cbn [js_of]. now rewrite Hv. }
  assert (Hun : forall s0, selectedVisitorId s0 = SText k ->
                  handleUnbanConfirm UNBAN_PASSWORD s0
                  = if fault (UpdateStatus 0 (JStr []) (JStr k))
                    then ([ShowMessageBox
                             (Literal (js "Failed to update visitor status.")) KError;
                           ShowMessageBox
                             (Literal (js "Visitor has been unbanned.")) KSuccess],
                          s0)
                    else ([RenderFoundProfile
                             (find_visitor (JStr k)
                                (map read_row
                                   (map (status_row (JStr k) false (JStr []))
                                      (table s0))));
                           STATUS_UPDATED;
                           ShowMessageBox
                             (Literal (js "Visitor has been unbanned.")) KSuccess],
                          synced (map (status_row (JStr k) false (JStr [])) (table s0))
                            s0)).
  { intros s0 H0. unfold Actions.handleUnbanConfirm. rewrite H0. cbn [js_of].
    rewrite Hv. cbn [str_eqb UNBAN_PASSWORD negb].
    rewrite (updateVisitorStatus_cases _ _ _ _ Hv). cbn [truthy].
    now destruct (fault (UpdateStatus 0 (JStr []) (JStr k))). }
  pose proof (status_update_keeps_selection (JStr k) true (JStr n) s)
    as Hsel1.
  rewrite Hban. rewrite (Hun _ (eq_trans Hsel1 Hsel)), (Hun s Hsel).
  destruct (fault (UpdateStatus 0 (JStr []) (JStr k))); [discriminate|].
  cbn [fst snd synced table].
  assert (Ht : map (status_row (JStr k) false (JStr []))
                 (table (snd (updateVisitorStatus (JStr k) true (JStr n) s)))
               = map (status_row (JStr k) false (JStr [])) (table s)).
  { rewrite (updateVisitorStatus_cases _ _ _ _ Hv).
    destruct (fault (UpdateStatus 1 _ _)); [reflexivity|]. cbn [snd synced table].
    rewrite map_map. apply map_ext. intros x. apply status_row_twice. }
  rewrite Ht.
  assert (Hback : map read_row (map (status_row (JStr k) false (JStr [])) (table s))
                  = map (status_row (JStr k) false (JStr [])) (table s)).
  { apply read_back_whole, Forall_map.
    eapply Forall_impl; [|exact Hclean]. intros x.
    apply status_row_nul_free. constructor. }
  rewrite Hback.
  rewrite find_visitor_map by (intros; apply status_row_id).
  rewrite Hr. cbn [option_map]. intros [= <-].
  exists (status_row (JStr k) false (JStr []) r).
  split; [reflexivity|].
  pose proof (find_visitor_key _ _ _ Hr) as Hkey.
  unfold status_row at 1 2. rewrite Hkey.
  split; [reflexivity|]. split; [reflexivity|].
  split; [apply status_row_kept|reflexivity].
Qed.

(** With any other password than the one of line 9 the unban is
    refused: the message says so and the state is the one before. *)
Lemma unban_with_a_wrong_password_changes_nothing :
  forall (enteredPassword : jsstring) (s : State),
    enteredPassword <> UNBAN_PASSWORD ->
    handleUnbanConfirm enteredPassword s
    = ([ShowMessageBox (Literal (js "Incorrect password.")) KError], s).
Proof.
  intros p s Hp. unfold Actions.handleUnbanConfirm.
  apply str_eqb_neq in Hp. now rewrite Hp.
Qed.

(** X18: whatever its arguments and its outcome, [updateGeneralNotes] leaves
    every column but the general notes as it was, deletes and adds no row,
    and keeps the selection. *)
Theorem notes_update_keeps_the_other_columns :
  forall (visitorId notes : JsVal) (s : State),
    map kept_by_notes (table (snd (updateGeneralNotes visitorId notes s)))
    = map kept_by_notes (table s)
    /\ selectedVisitorId (snd (updateGeneralNotes visitorId notes s))
       = selectedVisitorId s.
Proof.
  intros visitorId nts s. unfold Actions.updateGeneralNotes.
  destruct (truthy visitorId) eqn:Hv; cbn [negb]; [|now split].
  rewrite !bind_run. unfold run_update_generalNotes.
  destruct (fault _); [now split|].
  cbn [bind_all]. rewrite (truthy_binds _ Hv).
  destruct (bind_value nts) as [x|e] eqn:Hb; [|now split].
  cbn. split; [|reflexivity]. rewrite map_map. apply map_ext. intros r.
  now destruct (sql_eqb _ _).
Qed.

(** X19: in a table without U+0000 in its texts, when the update of the
    general notes, with notes that have none either, shows its success
    message for a text id that a row carries, the profile rendered is that
    of the visitor with the notes just saved and every other column as
    before; the list and the saved database hold the same table again. *)
Theorem general_notes_are_read_back :
  forall (k n : jsstring) (s : State) (r : Row) (shown : option Row),
    k <> [] ->
    Forall row_nul_free (table s) -> nul_free n ->
    find_visitor (JStr k) (table s) = Some r ->
    fst (updateGeneralNotes (JStr k) (JStr n) s)
    = [RenderFoundProfile shown; NOTES_SAVED] ->
    exists r',
      shown = Some r'
      /\ generalNotes r' = SText n
      /\ kept_by_notes r' = kept_by_notes r
      /\ visitorsList (snd (updateGeneralNotes (JStr k) (JStr n) s))
         = table (snd (updateGeneralNotes (JStr k) (JStr n) s))
      /\ localStorage (snd (updateGeneralNotes (JStr k) (JStr n) s))
         = Some (table (snd (updateGeneralNotes (JStr k) (JStr n) s))).
Proof.
  intros k n s r shown Hk Hclean Hnn Hr.
  assert (Hv : truthy (JStr k) = true) by (destruct k; [congruence|reflexivity]).
  assert (Hback : map read_row (map (notes_row (JStr k) (JStr n)) (table s))
                  = map (notes_row (JStr k) (JStr n)) (table s)).
  { apply read_back_whole, Forall_map.
    eapply Forall_impl; [|exact Hclean]. intros x. now apply notes_row_nul_free. }
  rewrite (updateGeneralNotes_cases _ _ _ Hv).
  destruct (fault (UpdateGeneralNotes (JStr n) (JStr k))); [discriminate|].
  cbn [fst snd synced table visitorsList localStorage]. rewrite Hback.
  rewrite find_visitor_map by (intros; apply notes_row_id). rewrite Hr.
  cbn [option_map]. intros [= <-]. exists (notes_row (JStr k) (JStr n) r).
  split; [reflexivity|].
  pose proof (find_visitor_key _ _ _ Hr) as Hkey.
  unfold notes_row at 1. rewrite Hkey.
  split; [reflexivity|]. split; [apply notes_row_kept|]. now split.
Qed.

End StatusAndNotes.

Section StatusExamples.
Import Js Renderer Records Actions ImportSpec Terms.

Lemma example_store_nul_free : Forall row_nul_free (table example_store).
Proof. repeat constructor; discriminate. Qed.

Lemma status_update_is_read_back_witness :
  find_visitor (JStr (js "v1")) (table example_store) = Some (jane_doe (SText []))
  /\ nul_free (js "late")
  /\ exists r',
       fst (updateVisitorStatus no_store_fault (JStr (js "v1")) true
              (JStr (js "late")) example_store)
       = [RenderFoundProfile (Some r'); STATUS_UPDATED]
       /\ isVisitorBanned (Some r') = true
       /\ notes r' = SText (js "late")
       /\ kept_by_status r' = kept_by_status (jane_doe (SText [])).
Proof.
  assert (H1 : js "v1" <> []) by discriminate.
  assert (H2 : nul_free (js "late")) by (repeat constructor; discriminate).
  assert (H3 : find_visitor (JStr (js "v1")) (table example_store)
               = Some (jane_doe (SText []))) by reflexivity.
  split; [exact H3|]. split; [exact H2|].
  destruct (status_update_is_read_back no_store_fault (js "v1") true (js "late")
              example_store (jane_doe (SText [])) _ H1
              example_store_nul_free H2 H3 eq_refl)
    as (r' & Hs & Hb & Hn & Hkept & _).
  exists r'. split; [now rewrite <- Hs|]. split; [exact Hb|].
  split; [exact Hn|exact Hkept].
Defined.

Lemma status_update_of_an_unknown_id_changes_nothing_witness :
  has_id (SText (js "v9")) (table example_store) = false
  /\ fst (updateVisitorStatus no_store_fault (JStr (js "v9")) true
            (JStr (js "late")) example_store)
     = [RenderFoundProfile None; STATUS_UPDATED]
  /\ table (snd (updateVisitorStatus no_store_fault (JStr (js "v9")) true
                   (JStr (js "late")) example_store))
     = table example_store.
Proof.
  assert (H1 : js "v9" <> []) by discriminate.
  assert (H3 : has_id (SText (js "v9")) (table example_store) = false)
    by reflexivity.
  split; [exact H3|]. split; [reflexivity|].
  exact (proj1 (proj2 (status_update_of_an_unknown_id_changes_nothing no_store_fault
                         (js "v9") true (js "late") example_store None H1
                         example_store_nul_free H3 eq_refl))).
Defined.

Lemma last_status_update_wins_witness :
  updateVisitorStatus no_store_fault (JStr (js "v1")) false (JStr [])
    (snd (updateVisitorStatus no_store_fault (JStr (js "v1")) true
            (JStr (js "late")) example_store))
  = updateVisitorStatus no_store_fault (JStr (js "v1")) false (JStr [])
      example_store.
Proof.
  exact (last_status_update_wins no_store_fault (JStr (js "v1")) true false
           (JStr (js "late")) (JStr []) example_store eq_refl).
Defined.

Lemma unban_after_ban_clears_status_and_notes_witness :
  selectedVisitorId example_store = SText (js "v1")
  /\ exists r',
       fst (handleUnbanConfirm no_store_fault UNBAN_PASSWORD
              (snd (handleBanConfirm no_store_fault (js "late") example_store)))
       = [RenderFoundProfile (Some r'); STATUS_UPDATED;
          ShowMessageBox (Literal (js "Visitor has been unbanned.")) KSuccess]
       /\ isVisitorBanned (Some r') = false
       /\ notes r' = SText []
       /\ kept_by_status r' = kept_by_status (jane_doe (SText [])).
Proof.
  assert (H1 : selectedVisitorId example_store = SText (js "v1")) by reflexivity.
  assert (H2 : js "v1" <> []) by discriminate.
  assert (H3 : find_visitor (JStr (js "v1")) (table example_store)
               = Some (jane_doe (SText []))) by reflexivity.
  split; [exact H1|].
  destruct (unban_after_ban_clears_status_and_notes no_store_fault (js "v1")
              (js "late") example_store (jane_doe (SText [])) _ H1 H2
              example_store_nul_free H3 eq_refl)
    as (r' & Hs & Hb & Hn & Hkept & _).
  exists r'. split; [now rewrite <- Hs|]. split; [exact Hb|].
  split; [exact Hn|exact Hkept].
Defined.

Lemma general_notes_are_read_back_witness :
  find_visitor (JStr (js "v1")) (table example_store) = Some (jane_doe (SText []))
  /\ nul_free (js "calls on Mondays")
  /\ exists r',
       fst (updateGeneralNotes no_store_fault (JStr (js "v1")) (JStr (js "calls on Mondays"))
              example_store)
       = [RenderFoundProfile (Some r'); NOTES_SAVED]
       /\ generalNotes r' = SText (js "calls on Mondays").
Proof.
  assert (H1 : js "v1" <> []) by discriminate.
  assert (H2 : nul_free (js "calls on Mondays")) by (repeat constructor; discriminate).
  assert (H3 : find_visitor (JStr (js "v1")) (table example_store)
               = Some (jane_doe (SText []))) by reflexivity.
  split; [exact H3|]. split; [exact H2|].
  destruct (general_notes_are_read_back no_store_fault (js "v1")
              (js "calls on Mondays") example_store (jane_doe (SText [])) _
              H1 example_store_nul_free H2 H3 eq_refl) as (r' & Hs & Hg & _).
  exists r'. split; [now rewrite <- Hs|exact Hg].
Defined.

End StatusExamples.

(** ** More on the batch import *)

Section ImportFacts.
Import Js Renderer Records Actions ImportSpec Terms.

Variable fault : Stmt -> bool.
Variable random16 : nat -> N.

Local Abbreviation import_visitor := (import_visitor fault random16).
Local Abbreviation import_loop := (import_loop fault random16).
Local Abbreviation handleImport := (handleImport fault random16).
Local Abbreviation resolve_id := (resolve_id random16).

(** A property of the table that every upsert of the loop keeps holds after
    [handleImport], whether the import went through or was rolled back. *)
Lemma handleImport_table_ind (P : list Row -> Prop) (csvData : jsstring)
  (s : State) :
  (forall visitor s0 visitorId sid t,
      In visitor (parseCsv csvData) -> accepted visitor = true ->
      resolve_id visitor s0 = (Ok visitorId, sid) ->
      P t -> P (upsert_row (key_of visitorId) visitor t)) ->
  txn s = None -> P (table s) ->
  P (table (snd (handleImport csvData s))).
Proof.
  intros Hstep Htxn Hs.
  destruct csvData as [|c0 csvData]; [exact Hs|].
  set (csv := c0 :: csvData) in *.
  assert (Hne : csv <> []) by discriminate.
  pose proof (handleImport_cases fault random16 csv s Hne Htxn) as Hc.
  destruct (import_loop (parseCsv csv) 0 (snd (run_begin s))) as [[n|e] s1] eqn:Hloop;
    rewrite Hc; cbn [snd table]; [|exact Hs].
  revert Hloop.
  apply (import_loop_table_ind fault random16 P
           (fun visitor => In visitor (parseCsv csv))).
  - exact Hstep.
  - apply Forall_forall. auto.
  - unfold run_begin. rewrite Htxn. exact Hs.
Qed.

Lemma import_loop_count (visitors : list Obj) (n n' : nat) (s s' : State) :
  import_loop visitors n s = (Ok n', s') ->
  n' = n + length (filter accepted visitors).
Proof.
  revert n s. induction visitors as [|v vs IH]; intros n s H.
  - cbn in H. injection H as <- _. cbn. lia.
  - cbn [Renderer.import_loop] in H. rewrite bind_run in H.
    destruct (import_visitor v s) as [[b|e] s1] eqn:Hv; [|discriminate].
    apply import_visitor_inv in Hv as [_ Hv].
    apply IH in H. cbn [filter].
    destruct b.
    + destruct Hv as [Ha _]. rewrite Ha. cbn [length]. lia.
    + destruct Hv as [Ha _]. rewrite Ha. lia.
Qed.

(** X21: the number the success message reports is the number of rows of the
    file that have both a first and a last name. *)
Theorem import_reports_the_rows_let_through :
  forall (csvData : jsstring) (s : State) (importedCount : nat),
    csvData <> [] ->
    messageBox (snd (handleImport csvData s)) = Some (MsgImported importedCount) ->
    importedCount = length (filter accepted (parseCsv csvData)).
Proof.
  intros csvData s n Hne Hm.
  destruct (txn s) as [saved|] eqn:Htxn.
  - unfold Renderer.handleImport in Hm.
    destruct csvData as [|c0 csvData]; [congruence|]. cbn [truthy negb] in Hm.
    unfold try_catch in Hm. rewrite bind_run in Hm.
    unfold run_begin in Hm at 1. rewrite Htxn in Hm.
    rewrite bind_run in Hm. unfold run_rollback in Hm. rewrite Htxn in Hm.
    cbn in Hm. discriminate.
  - pose proof (handleImport_cases fault random16 csvData s Hne Htxn) as Hc.
    destruct (import_loop (parseCsv csvData) 0 (snd (run_begin s)))
      as [[m|e] s1] eqn:Hloop; rewrite Hc in Hm; cbn in Hm; [|discriminate].
    injection Hm as <-. now apply import_loop_count in Hloop.
Qed.

Lemma reapply_others (visitors : list Obj) (y : Row) :
  (forall w, In w visitors -> accepted w = true ->
             sql_eqb (id y) (key_of (field "id" w)) = false) ->
  fold_left reapply visitors y = y.
Proof.
  induction visitors as [|w ws IH]; intros H; [reflexivity|].
  cbn [fold_left].
  assert (Hw : reapply y w = y).
  { unfold reapply. destruct (accepted w) eqn:Ha; [|reflexivity].
    now rewrite (H w (or_introl eq_refl) Ha). }
  rewrite Hw. apply IH. intros w' Hin. apply H. now right.
Qed.

Lemma reapply_hit (x : Row) (visitor : Obj) :
  accepted visitor = true ->
  sql_eqb (id x) (key_of (field "id" visitor)) = true ->
  reapply x visitor = imported_row (id x) (generalNotes x) visitor.
Proof. intros Ha Hk. unfold reapply. now rewrite Ha, Hk. Qed.

(** X22: when a file names an id in several rows, the last of them that is
    let through decides the columns of that visitor after a successful
    import; the general notes are the ones the visitor had. *)
Theorem last_row_of_an_id_wins :
  forall (csvData : jsstring) (s : State) (importedCount : nat)
         (before after : list Obj) (visitor : Obj) (r : Row),
    txn s = None -> csvData <> [] ->
    rows_bring_ids (parseCsv csvData) ->
    messageBox (snd (handleImport csvData s)) = Some (MsgImported importedCount) ->
    parseCsv csvData = before ++ visitor :: after ->
    accepted visitor = true ->
    (forall w, In w after -> accepted w = true ->
               key_of (field "id" w) <> key_of (field "id" visitor)) ->
    In r (table (snd (handleImport csvData s))) ->
    id r = key_of (field "id" visitor) ->
    r = imported_row (id r) (generalNotes r) visitor.
Proof.
  intros csvData s n before after v r Htxn Hne Hids Hm Hsplit Hacc Hafter Hr Hid.
  pose proof (handleImport_cases fault random16 csvData s Hne Htxn) as Hc.
  destruct (import_loop (parseCsv csvData) 0 (snd (run_begin s)))
    as [[m|e] s1] eqn:Hloop; rewrite Hc in Hm, Hr; cbn in Hm; [|discriminate].
  cbn [snd table] in Hr.
  pose proof (import_loop_steps fault random16 _ _ _ _ _ Hids Hloop) as Ht.
  pose proof (parsed_keys_are_text csvData Hids) as Htext.
  rewrite Ht in Hr.
  pose proof (reapply_fixes_rows _ _ Htext r Hr) as Hfix.
  rewrite Hsplit, fold_left_app in Hfix. cbn [fold_left] in Hfix.
  destruct (reapply_all_id before r) as [Hbid Hbgn].
  assert (Hin : In v (parseCsv csvData)).
  { rewrite Hsplit. apply in_or_app. right. now left. }
  destruct (Htext v Hin Hacc) as [k Hk].
  assert (Hmid : reapply (fold_left reapply before r) v
                 = imported_row (id r) (generalNotes r) v).
  { rewrite reapply_hit; [now rewrite Hbid, Hbgn|exact Hacc|].
    rewrite Hbid, Hid, Hk. cbn [sql_eqb]. apply str_eqb_refl. }
  rewrite Hmid in Hfix.
  rewrite reapply_others in Hfix; [now symmetry|].
  intros w Hw Ha. cbn [id imported_row].
  destruct (sql_eqb (id r) (key_of (field "id" w))) eqn:E; [|reflexivity].
  exfalso. apply (Hafter w Hw Ha).
  assert (Hinw : In w (parseCsv csvData)).
  { rewrite Hsplit. apply in_or_app. right. now right. }
  destruct (Htext w Hinw Ha) as [k' Hk']. rewrite Hk' in *.
  apply sql_eqb_text in E. congruence.
Qed.

Lemma accepted_names (csvData : jsstring) (visitor : Obj) :
  In visitor (parseCsv csvData) -> accepted visitor = true ->
  (exists f, field "firstName" visitor = JStr f /\ f <> [])
  /\ (exists l, field "lastName" visitor = JStr l /\ l <> []).
Proof.
  intros Hin Ha. unfold accepted in Ha. apply andb_true_iff in Ha as [Hf Hl].
  split.
  - destruct (parseCsv_cells csvData (js "firstName") visitor Hin) as [Hu|[f Hs]];
      unfold field in *; [rewrite Hu in Hf; discriminate|].
    exists f. split; [exact Hs|]. rewrite Hs in Hf. now destruct f.
  - destruct (parseCsv_cells csvData (js "lastName") visitor Hin) as [Hu|[l Hs]];
      unfold field in *; [rewrite Hu in Hl; discriminate|].
    exists l. split; [exact Hs|]. rewrite Hs in Hl. now destruct l.
Qed.

Lemma imported_row_well_named (csvData : jsstring) (visitor : Obj)
  (key gnotes : SqlVal) :
  In visitor (parseCsv csvData) -> accepted visitor = true ->
  well_named (imported_row key gnotes visitor).
Proof.
  intros Hin Ha.
  destruct (accepted_names csvData visitor Hin Ha) as [(f & Hf & Hfn) (l & Hl & Hln)].
  unfold well_named, imported_row. cbn [firstName lastName isBanned].
  rewrite Hf, Hl. cbn [sql_of text_affinity].
  split; [now exists f|]. split; [now exists l|].
  unfold resolve_isBanned. destruct (_ || _); cbn; auto.
Qed.

(** X23: every row an import has written or rewritten has a non-empty first
    name and last name and 0 or 1 under [isBanned]; the other rows are the
    ones of the table before. *)
Theorem imported_rows_are_well_named :
  forall (csvData : jsstring) (s : State) (r : Row),
    txn s = None ->
    In r (table (snd (handleImport csvData s))) ->
    In r (table s) \/ well_named r.
Proof.
  intros csvData s r Htxn. revert r.
  apply (handleImport_table_ind
           (fun t => forall r, In r t -> In r (table s) \/ well_named r));
    [|exact Htxn|auto].
  intros visitor s0 vid sid t Hin Ha _ Ht r Hr.
  apply in_upsert_row in Hr as [[Hr _]|[(old & _ & _ & ->)|[_ ->]]]; auto;
    right; now apply imported_row_well_named with csvData.
Qed.

End ImportFacts.

Section ImportFactsExamples.
Import Js Renderer Records Actions ImportSpec Terms.

Lemma import_reports_the_rows_let_through_witness :
  csv_with_ids <> []
  /\ messageBox (snd (handleImport no_fault counting csv_with_ids empty_state))
     = Some (MsgImported 2)
  /\ 2 = length (filter accepted (parseCsv csv_with_ids)).
Proof.
  assert (H1 : csv_with_ids <> []) by discriminate.
  assert (H2 : messageBox (snd (handleImport no_fault counting csv_with_ids empty_state))
               = Some (MsgImported 2)) by reflexivity.
  split; [exact H1|]. split; [exact H2|].
  exact (import_reports_the_rows_let_through no_fault counting csv_with_ids
           empty_state 2 H1 H2).
Defined.

Lemma imported_rows_are_well_named_witness :
  txn empty_state = None
  /\ forall r,
       In r (table (snd (handleImport no_fault counting csv_with_ids empty_state))) ->
       In r (table empty_state) \/ well_named r.
Proof.
  split; [reflexivity|]. intros r.
  exact (imported_rows_are_well_named no_fault counting csv_with_ids empty_state r
           eq_refl).
Defined.

Lemma last_row_of_an_id_wins_witness :
  txn empty_state = None
  /\ rows_bring_ids (parseCsv csv_same_id_twice)
  /\ forall r,
       In r (table (snd (handleImport no_fault counting csv_same_id_twice empty_state))) ->
       id r = SText (js "v1") -> lastName r = SText (js "Roe").
Proof.
  assert (Hids : rows_bring_ids (parseCsv csv_same_id_twice)).
  { intros v Hin. vm_compute in Hin.
    destruct Hin as [<-|[<-|[]]]; vm_compute; congruence. }
  assert (Hne : csv_same_id_twice <> []) by discriminate.
  split; [reflexivity|]. split; [exact Hids|].
  intros r Hr Hid.
  assert (Hafter : forall w : Obj, In w [] -> accepted w = true ->
                     key_of (field "id" w)
                     <> key_of (field "id" (nth 1 (parseCsv csv_same_id_twice) [])))
    by (intros w []).
  rewrite (last_row_of_an_id_wins no_fault counting csv_same_id_twice empty_state 2
             (firstn 1 (parseCsv csv_same_id_twice)) []
             (nth 1 (parseCsv csv_same_id_twice) []) r
             eq_refl Hne Hids eq_refl eq_refl eq_refl Hafter Hr Hid).
  reflexivity.
Defined.

End ImportFactsExamples.

(** ** More on the search *)

Section SearchFacts.
Import Js Renderer Records Actions ImportSpec Terms.

(** Settles the comparisons of a goal about a character whose range is
    known. *)
Ltac decide_cmp :=
  repeat match goal with
    | |- context [N.leb ?a ?b] =>
        first [ replace (N.leb a b) with false by (symmetry; apply N.leb_gt; lia)
              | replace (N.leb a b) with true by (symmetry; apply N.leb_le; lia) ]
    | |- context [N.eqb ?a ?b] =>
        first [ replace (N.eqb a b) with false by (symmetry; apply N.eqb_neq; lia)
              | replace (N.eqb a b) with true by (symmetry; apply N.eqb_eq; lia) ]
    end.

Lemma lower_char_cases (c : char) :
  (lower_char c = c /\ ~ (65 <= c <= 90)%N /\ ~ (192 <= c <= 222 /\ c <> 215)%N)
  \/ (lower_char c = (c + 32)%N
      /\ ((65 <= c <= 90)%N \/ (192 <= c <= 222 /\ c <> 215)%N)).
Proof.
  unfold lower_char.
  destruct ((65 <=? c) && (c <=? 90))%N eqn:E1.
  - right. split; [reflexivity|]. left.
    apply andb_true_iff in E1 as [H1 H2]. apply N.leb_le in H1, H2. lia.
  - destruct ((192 <=? c) && (c <=? 222) && negb (c =? 215))%N eqn:E2.
    + right. split; [reflexivity|]. right.
      apply andb_true_iff in E2 as [E2 H3]. apply andb_true_iff in E2 as [H1 H2].
      apply N.leb_le in H1, H2. apply negb_true_iff in H3. apply N.eqb_neq in H3.
      lia.
    + left. split; [reflexivity|]. split.
      * intros [H1 H2]. apply N.leb_le in H1, H2. rewrite H1, H2 in E1.
        discriminate.
      * intros [[H1 H2] H3]. apply N.leb_le in H1, H2. apply N.eqb_neq in H3.
        rewrite H1, H2, H3 in E2. discriminate.
Qed.

Lemma lower_char_idem (c : char) : lower_char (lower_char c) = lower_char c.
Proof.
  destruct (lower_char_cases c) as [(H & _ & _)|(H & Hr)]; rewrite H; [exact H|].
  unfold lower_char. destruct Hr as [Hr|Hr]; decide_cmp; reflexivity.
Qed.

Lemma lower_char_ws (c : char) : is_ws c = true -> lower_char c = c.
Proof.
  intros Hw. destruct (lower_char_cases c) as [(H & _ & _)|(_ & Hr)]; [exact H|].
  exfalso. revert Hw. unfold is_ws.
  destruct Hr as [Hr|Hr]; decide_cmp; discriminate.
Qed.

Lemma toLowerCase_idem (s : jsstring) : toLowerCase (toLowerCase s) = toLowerCase s.
Proof.
  unfold toLowerCase. rewrite map_map. apply map_ext. apply lower_char_idem.
Qed.

Lemma toLowerCase_ws (s : jsstring) :
  Forall (fun c => is_ws c = true) s -> toLowerCase s = s.
Proof.
  induction 1 as [|c s Hc Hs IH]; [reflexivity|].
  cbn [toLowerCase map]. fold (toLowerCase s). now rewrite IH, lower_char_ws.
Qed.

Lemma trimStart_ws_app (l s : jsstring) :
  Forall (fun c => is_ws c = true) l -> trimStart (l ++ s) = trimStart s.
Proof.
  induction 1 as [|c l Hc Hl IH]; [reflexivity|].
  cbn [app trimStart]. now rewrite Hc.
Qed.

Lemma trimStart_ws (l : jsstring) :
  Forall (fun c => is_ws c = true) l -> trimStart l = [].
Proof.
  intros H. rewrite <- (app_nil_r l). now rewrite trimStart_ws_app.
Qed.

Lemma trimEnd_app_ws (s r : jsstring) :
  Forall (fun c => is_ws c = true) r -> trimEnd (s ++ r) = trimEnd s.
Proof.
  intros Hr. unfold trimEnd. rewrite rev_app_distr, trimStart_ws_app; [reflexivity|].
  now apply Forall_rev.
Qed.

(** White space around a string does not count for [trim]. *)
Lemma trim_padded (l v r : jsstring) :
  Forall (fun c => is_ws c = true) l -> Forall (fun c => is_ws c = true) r ->
  trim (l ++ v ++ r) = trim v.
Proof.
  intros Hl Hr. unfold trim. rewrite (trimStart_ws_app l _ Hl).
  destruct (trimStart_split v) as (w & Hv & Hw).
  pose proof (trimStart_head v) as Hh.
  destruct (trimStart v) as [|c t] eqn:E.
  - rewrite app_nil_r in Hv. subst w.
    rewrite (trimStart_ws_app v r Hw), (trimStart_ws r Hr). reflexivity.
  - rewrite Hv at 1. rewrite <- app_assoc, (trimStart_ws_app w _ Hw).
    cbn [app trimStart]. rewrite Hh.
    change (c :: t ++ r) with ((c :: t) ++ r). now apply trimEnd_app_ws.
Qed.

(** [handleSearch] looks at the value typed through the search term of line
    229 only. *)
Lemma handleSearch_term (v1 v2 : jsstring) :
  trim (toLowerCase v1) = trim (toLowerCase v2) -> handleSearch v1 = handleSearch v2.
Proof. intros H. unfold handleSearch. now rewrite H. Qed.

(** A value of white space only clears the selection and shows neither a
    profile nor a list, like the empty value. *)
Lemma blank_search_clears_the_selection :
  forall (value : jsstring) (s : State),
    Forall (fun c => is_ws c = true) value ->
    handleSearch value s = (Ok tt, set_search SNull ViewNone s).
Proof.
  intros value s Hw. unfold handleSearch.
  rewrite (toLowerCase_ws _ Hw). unfold trim.
  now rewrite (trimStart_ws _ Hw).
Qed.

(** X27: for a value typed in Basic Latin and Latin-1 characters and a list
    whose names are of that range, the search does not tell capital from
    small letters in the value, and does not see white space before and
    after it. *)
Theorem search_ignores_case_and_outer_blanks :
  forall (before value after : jsstring) (s : State),
    latin1 value -> Forall latin1_names (visitorsList s) ->
    Forall (fun c => is_ws c = true) before ->
    Forall (fun c => is_ws c = true) after ->
    handleSearch (before ++ value ++ after) s = handleSearch (toLowerCase value) s.
Proof.
  intros l value r s _ _ Hl Hr.
  rewrite (handleSearch_term (l ++ value ++ r) (toLowerCase value)); [reflexivity|].
  unfold toLowerCase at 1. rewrite !map_app. fold (toLowerCase l).
  fold (toLowerCase value). fold (toLowerCase r).
  rewrite (toLowerCase_ws _ Hl), (toLowerCase_ws _ Hr), toLowerCase_idem.
  now apply trim_padded.
Qed.

Lemma example_store_latin1 : Forall latin1_names (visitorsList example_store).
Proof. repeat constructor. Qed.

Lemma search_ignores_case_and_outer_blanks_witness :
  latin1 (js "Jane DOE")
  /\ handleSearch (js " Jane DOE ") example_store
     = handleSearch (js "jane doe") example_store.
Proof.
  assert (H : Forall (fun c => is_ws c = true) (js " ")) by (repeat constructor).
  assert (Hv : latin1 (js "Jane DOE")) by (repeat constructor).
  split; [exact Hv|].
  exact (search_ignores_case_and_outer_blanks (js " ") (js "Jane DOE") (js " ")
           example_store Hv example_store_latin1 H H).
Defined.

Lemma filter_res_ok {A : Type} (test : A -> res bool) (l r : list A) :
  filter_res test l = Ok r ->
  r = filter (fun x => match test x with Ok true => true | _ => false end) l.
Proof.
  revert r. induction l as [|x l IH]; intros r H.
  - cbn in H. now injection H as <-.
  - cbn [filter_res] in H. destruct (test x) as [b|e] eqn:Hx; [|discriminate].
    destruct (filter_res test l) as [r0|e]; [|discriminate].
    injection H as <-. cbn [filter]. rewrite Hx, (IH r0 eq_refl).
    now destruct b.
Qed.

Lemma find_res_some {A : Type} (test : A -> res bool) (l : list A) (x : A) :
  find_res test l = Ok (Some x) -> In x l /\ test x = Ok true.
Proof.
  induction l as [|y l IH]; intros H; [discriminate|].
  cbn [find_res] in H. destruct (test y) as [[|]|e] eqn:Hy; [| |discriminate].
  - injection H as <-. split; [now left|exact Hy].
  - destruct (IH H) as [Hin Ht]. split; [now right|exact Ht].
Qed.

Lemma find_res_none {A : Type} (test : A -> res bool) (l : list A) :
  find_res test l = Ok None -> forall x, In x l -> test x = Ok false.
Proof.
  induction l as [|y l IH]; intros H x Hx; [destruct Hx|].
  cbn [find_res] in H. destruct (test y) as [[|]|e] eqn:Hy; try discriminate.
  destruct Hx as [<-|Hx]; [exact Hy|now apply IH].
Qed.

(** X28: for a value typed in Basic Latin and Latin-1 characters and a list
    whose names are of that range, a search that ends shows visitors of the
    list only, and changes neither the table, the list nor the saved
    database.  A profile shown is
    the one of a visitor whose names, in small letters and with a space
    between them, are the search term, and that visitor is selected; a list
    shown holds, in the order of the list, the visitors that match every
    term, none of them with such names, and the selection stays. *)
Theorem search_shows_visitors_of_the_list :
  forall (value : jsstring) (s s' : State),
    latin1 value -> Forall latin1_names (visitorsList s) ->
    handleSearch value s = (Ok tt, s') ->
    table s' = table s /\ visitorsList s' = visitorsList s
    /\ localStorage s' = localStorage s
    /\ match view s' with
       | ViewNone =>
           trim (toLowerCase value) = [] /\ selectedVisitorId s' = SNull
       | ViewProfile v =>
           In v (visitorsList s) /\ selectedVisitorId s' = id v
           /\ matches_all (terms_of (trim (toLowerCase value))) v = true
           /\ exists f l,
                firstName v = SText f /\ lastName v = SText l
                /\ toLowerCase f ++ SPACE :: toLowerCase l = trim (toLowerCase value)
       | ViewResults found =>
           found = filter (matches_all (terms_of (trim (toLowerCase value))))
                     (visitorsList s)
           /\ selectedVisitorId s' = selectedVisitorId s
           /\ forall v, In v found ->
                is_exact (trim (toLowerCase value)) v = Ok false
       end.
Proof.
  intros value s s' _ _ H. unfold handleSearch in H.
  destruct (length (trim (toLowerCase value)) =? 0)%nat eqn:El.
  - injection H as <-. cbn [set_search table visitorsList localStorage view
                             selectedVisitorId].
    split; [reflexivity|]. split; [reflexivity|]. split; [reflexivity|].
    split; [|reflexivity].
    apply Nat.eqb_eq in El. now destruct (trim (toLowerCase value)).
  - fold (terms_of (trim (toLowerCase value))) in H.
    destruct (filter_res _ (visitorsList s)) as [found|e] eqn:Hf; [|discriminate].
    apply filter_res_ok in Hf. fold (matches_all (terms_of (trim (toLowerCase value)))) in Hf.
    destruct (find_res _ found) as [[exact|]|e] eqn:He; [| |discriminate].
    + apply find_res_some in He as [Hin Hex].
      rewrite Hf in Hin. apply filter_In in Hin as [Hin Hm].
      injection H as <-. cbn [set_search table visitorsList localStorage view
                               selectedVisitorId].
      split; [reflexivity|]. split; [reflexivity|]. split; [reflexivity|].
      split; [exact Hin|]. split; [reflexivity|]. split; [exact Hm|].
      unfold is_exact in Hex.
      destruct (firstName exact) as [| |f]; try discriminate.
      destruct (lastName exact) as [| |l]; try discriminate.
      exists f, l. split; [reflexivity|]. split; [reflexivity|].
      injection Hex as Hex. now apply str_eqb_eq.
    + injection H as <-. cbn [set_search table visitorsList localStorage view
                               selectedVisitorId].
      split; [reflexivity|]. split; [reflexivity|]. split; [reflexivity|].
      split; [exact Hf|]. split; [reflexivity|].
      now apply find_res_none.
Qed.

Lemma search_shows_visitors_of_the_list_witness :
  handleSearch (js "ja") example_store
  = (Ok tt, set_search (SText (js "v1"))
              (ViewResults [jane_doe (SText []); janet_smith (SText [])])
              example_store)
  /\ [jane_doe (SText []); janet_smith (SText [])]
     = filter (matches_all (terms_of (trim (toLowerCase (js "ja")))))
         (visitorsList example_store).
Proof.
  assert (H : handleSearch (js "ja") example_store
              = (Ok tt, set_search (SText (js "v1"))
                          (ViewResults [jane_doe (SText []); janet_smith (SText [])])
                          example_store)) by reflexivity.
  assert (Hv : latin1 (js "ja")) by (repeat constructor).
  split; [exact H|].
  exact (proj1 (proj2 (proj2 (proj2
           (search_shows_visitors_of_the_list (js "ja") example_store _ Hv
              example_store_latin1 H))))).
Defined.

Lemma every_total (terms : list jsstring) (v : Row) :
  text_names v -> exists b, every (matches_term v) terms = Ok b.
Proof.
  intros (f & l & Hf & Hl). induction terms as [|t ts IH]; [now exists true|].
  cbn [every]. unfold matches_term at 1. rewrite Hf, Hl.
  assert (Hn : forall x, exists b, name_includes (SText x) t = Ok b).
  { intros [|c x]; cbn; eauto. }
  destruct (Hn f) as [[|] ->]; [exact IH|].
  destruct (Hn l) as [[|] ->]; [exact IH|now exists false].
Qed.

Lemma filter_res_total {A : Type} (test : A -> res bool) (l : list A) :
  (forall x, In x l -> exists b, test x = Ok b) ->
  exists r, filter_res test l = Ok r.
Proof.
  induction l as [|x l IH]; intros H; [now exists []|].
  cbn [filter_res]. destruct (H x (or_introl eq_refl)) as [b ->].
  destruct IH as [r ->]; [intros y Hy; apply H; now right|]. eauto.
Qed.

Lemma find_res_total {A : Type} (test : A -> res bool) (l : list A) :
  (forall x, In x l -> exists b, test x = Ok b) ->
  exists r, find_res test l = Ok r.
Proof.
  induction l as [|x l IH]; intros H; [now exists None|].
  cbn [find_res]. destruct (H x (or_introl eq_refl)) as [[|] ->]; [eauto|].
  apply IH. intros y Hy. apply H. now right.
Qed.

(** The search ends on a list whose visitors have strings for names. *)
Lemma handleSearch_total (value : jsstring) (s : State) :
  Forall text_names (visitorsList s) ->
  exists s', handleSearch value s = (Ok tt, s').
Proof.
  intros Hn. rewrite Forall_forall in Hn. unfold handleSearch.
  destruct (length (trim (toLowerCase value)) =? 0)%nat; [eauto|].
  destruct (filter_res_total
              (fun visitor =>
                 every (matches_term visitor)
                   (filter (fun term => (0 <? length term)%nat)
                      (split_ws (trim (toLowerCase value)))))
              (visitorsList s)) as [found Hf].
  { intros v Hv. apply every_total. auto. }
  rewrite Hf. pose proof (filter_res_ok _ _ _ Hf) as Hfound.
  destruct (find_res_total (is_exact (trim (toLowerCase value))) found) as [r Hr].
  { intros v Hv. rewrite Hfound in Hv. apply filter_In in Hv as [Hv _].
    destruct (Hn v Hv) as (f & l & Hf' & Hl'). unfold is_exact.
    rewrite Hf', Hl'. eauto. }
  rewrite Hr. destruct r; eauto.
Qed.

Lemma well_named_text (r : Row) : well_named r -> text_names r.
Proof. intros [(f & Hf & _) [(l & Hl & _) _]]. now exists f, l. Qed.

(** Names that are texts are read back as texts. *)
Lemma read_row_text_names (r : Row) : text_names r -> text_names (read_row r).
Proof.
  intros (f & l & Hf & Hl). exists (read_text f), (read_text l).
  unfold read_row. cbn [firstName lastName]. now rewrite Hf, Hl.
Qed.

(** X29: after an import into a store whose visitors have strings for names,
    no search throws: the import writes rows with both names only. *)
Theorem search_never_throws_after_an_import :
  forall (fault : Stmt -> bool) (random16 : nat -> N)
         (csvData value : jsstring) (s : State),
    txn s = None ->
    Forall text_names (table s) -> Forall text_names (visitorsList s) ->
    exists s',
      handleSearch value (snd (handleImport fault random16 csvData s)) = (Ok tt, s').
Proof.
  intros fault random16 csvData value s Htxn Ht Hl.
  apply handleSearch_total.
  assert (Htable : Forall text_names
                     (table (snd (handleImport fault random16 csvData s)))).
  { apply (handleImport_table_ind fault random16 (Forall text_names));
      [|exact Htxn|exact Ht].
    intros visitor s0 vid sid t Hin Ha _ HP.
    apply Forall_forall. intros r Hr. rewrite Forall_forall in HP.
    apply in_upsert_row in Hr as [[Hr _]|[(old & _ & _ & ->)|[_ ->]]]; auto;
      apply well_named_text; now apply imported_row_well_named with csvData. }
  destruct csvData as [|c0 csvData]; [exact Hl|].
  set (csv := c0 :: csvData) in *.
  assert (Hne : csv <> []) by discriminate.
  pose proof (handleImport_cases fault random16 csv s Hne Htxn) as Hc.
  destruct (import_loop fault random16 (parseCsv csv) 0 (snd (run_begin s)))
    as [[n|e] s1] eqn:Hloop; rewrite Hc in *; cbn [snd visitorsList table] in *;
    [|assumption].
  apply Forall_map. eapply Forall_impl; [|exact Htable].
  intros r. apply read_row_text_names.
Qed.

Lemma search_never_throws_after_an_import_witness :
  txn example_store = None
  /\ Forall text_names (table example_store)
  /\ exists s',
       handleSearch (js "smith")
         (snd (handleImport no_fault counting csv_with_ids example_store))
       = (Ok tt, s').
Proof.
  assert (H : Forall text_names (table example_store)).
  { constructor; [now exists (js "Jane"), (js "Doe")|].
    constructor; [now exists (js "Janet"), (js "Smith")|constructor]. }
  split; [reflexivity|]. split; [exact H|].
  exact (search_never_throws_after_an_import no_fault counting csv_with_ids
           (js "smith") example_store eq_refl H H).
Defined.

Lemma handleImport_columns (fault : Stmt -> bool) (random16 : nat -> N)
  (csvData : jsstring) (s : State) :
  txn s = None ->
  exists inserted : list Row,
    map id (table (snd (handleImport fault random16 csvData s)))
    = map id (table s) ++ map id inserted
    /\ map generalNotes (table (snd (handleImport fault random16 csvData s)))
       = map generalNotes (table s) ++ map (fun _ => SText []) inserted.
Proof.
  intros Htxn.
  apply (handleImport_table_ind fault random16
           (fun t => exists inserted : list Row,
              map id t = map id (table s) ++ map id inserted
              /\ map generalNotes t
                 = map generalNotes (table s) ++ map (fun _ => SText []) inserted));
    [|exact Htxn|].
  - intros visitor s0 vid sid t _ _ _ (ins & H1 & H2).
    destruct (upsert_row_columns (key_of vid) visitor t) as (ins' & H1' & H2').
    exists (ins ++ ins'). rewrite H1', H2', H1, H2, !map_app, !app_assoc. auto.
  - exists []. cbn. now rewrite !app_nil_r.
Qed.

(** X20: general notes saved in the application survive a later import of a
    file: the row of that visitor stays where it is, with its id and the
    notes saved. *)
Theorem saved_general_notes_survive_an_import :
  forall (storeFault : StoreStmt -> bool) (fault : Stmt -> bool)
         (random16 : nat -> N) (k n csvData : jsstring) (s : State)
         (i : nat) (r : Row),
    txn s = None -> k <> [] ->
    storeFault (UpdateGeneralNotes (JStr n) (JStr k)) = false ->
    nth_error (table s) i = Some r -> id r = SText k ->
    exists r2,
      nth_error
        (table (snd (handleImport fault random16 csvData
                       (snd (updateGeneralNotes storeFault (JStr k) (JStr n) s)))))
        i = Some r2
      /\ id r2 = SText k /\ generalNotes r2 = SText n.
Proof.
  intros storeFault fault random16 k n csvData s i r Htxn Hk Hf Hr Hid.
  assert (Hv : truthy (JStr k) = true) by (destruct k; [congruence|reflexivity]).
  rewrite (updateGeneralNotes_cases storeFault _ _ _ Hv), Hf. cbn [snd].
  set (s1 := synced (map (notes_row (JStr k) (JStr n)) (table s)) s).
  assert (Htxn1 : txn s1 = None) by exact Htxn.
  destruct (handleImport_columns fault random16 csvData s1 Htxn1)
    as (ins & Hids & Hgn).
  set (t2 := table (snd (handleImport fault random16 csvData s1))) in *.
  assert (Hr1 : nth_error (table s1) i = Some (notes_row (JStr k) (JStr n) r)).
  { unfold s1. cbn [synced table]. now rewrite nth_error_map, Hr. }
  assert (Hrow : notes_row (JStr k) (JStr n) r
                 = mkRow (id r) (firstName r) (lastName r) (flatNumber r)
                     (phoneNumber r) (dateOfBirth r) (scannedIdPicUrl r)
                     (isBanned r) (notes r) (SText n)).
  { unfold notes_row. rewrite Hid. cbn [key_of sql_of text_affinity sql_eqb].
    now rewrite str_eqb_refl. }
  assert (Hlt : i < length (table s1)) by (apply nth_error_Some; congruence).
  assert (Hi : nth_error (map id t2) i = Some (SText k)).
  { rewrite Hids, nth_error_app1 by (now rewrite length_map).
    rewrite nth_error_map, Hr1, Hrow. cbn. now rewrite Hid. }
  assert (Hg : nth_error (map generalNotes t2) i = Some (SText n)).
  { rewrite Hgn, nth_error_app1 by (now rewrite length_map).
    now rewrite nth_error_map, Hr1, Hrow. }
  rewrite nth_error_map in Hi, Hg.
  destruct (nth_error t2 i) as [r2|]; [|discriminate].
  exists r2. cbn in Hi, Hg. split; [reflexivity|]. split; congruence.
Qed.

Lemma saved_general_notes_survive_an_import_witness :
  nth_error (table example_store) 0 = Some (jane_doe (SText []))
  /\ exists r2,
       nth_error
         (table (snd (handleImport no_fault counting csv_with_ids
                        (snd (updateGeneralNotes no_store_fault (JStr (js "v1"))
                                (JStr (js "calls on Mondays")) example_store)))))
         0 = Some r2
       /\ id r2 = SText (js "v1")
       /\ generalNotes r2 = SText (js "calls on Mondays").
Proof.
  assert (H1 : js "v1" <> []) by discriminate.
  split; [reflexivity|].
  exact (saved_general_notes_survive_an_import no_store_fault no_fault counting
           (js "v1") (js "calls on Mondays") csv_with_ids example_store 0
           (jane_doe (SText [])) eq_refl H1 eq_refl eq_refl eq_refl).
Defined.

End SearchFacts.

(** ** The objects of the renderer and the export *)

Section ObjectLookup.
Import Js Renderer Records Terms.

Lemma find_app_miss {A : Type} (p : A -> bool) (l1 l2 : list A) :
  (forall x, In x l1 -> p x = false) -> find p (l1 ++ l2) = find p l2.
Proof.
  induction l1 as [|x l1 IH]; intros H; [reflexivity|].
  cbn [app find]. rewrite (H x (or_introl eq_refl)). apply IH.
  intros y Hy. apply H. now right.
Qed.

Lemma find_key_miss (k : jsstring) (o : Obj) :
  ~ In k (map fst o) ->
  forall kv, In kv o -> str_eqb (fst kv) k = false.
Proof.
  intros Hk kv Hin. apply str_eqb_neq. intros <-. apply Hk. now apply in_map.
Qed.

(** A property just set reads as the value set. *)
Lemma obj_get_set_same (k : jsstring) (v : JsVal) (o : Obj) :
  k <> PROTO -> obj_get k (obj_set k v o) = v.
Proof.
  intros Hp. unfold obj_set. apply str_eqb_neq in Hp. rewrite Hp.
  destruct (has_key k o) eqn:Hk.
  - unfold obj_get, obj_update. clear Hp. induction o as [|kv o IH]; [discriminate|].
    cbn [map find]. unfold has_key in Hk. cbn [existsb] in Hk.
    destruct (str_eqb (fst kv) k) eqn:E.
    + cbn [fst]. now rewrite E.
    + rewrite E. apply IH. exact Hk.
  - apply has_key_not_In in Hk. unfold obj_get.
    destruct (array_index k) as [n|] eqn:Ha.
    + destruct (obj_insert_index_spec n k v o Ha) as (o1 & o2 & Ho & -> & _).
      rewrite find_app_miss.
      * cbn [find fst]. now rewrite str_eqb_refl.
      * intros kv Hin. apply (find_key_miss k o Hk). rewrite Ho.
        apply in_or_app. now left.
    + rewrite find_app_miss by (apply find_key_miss; exact Hk).
      cbn [find fst]. now rewrite str_eqb_refl.
Qed.

Lemma row_object_skips (row : list JsVal) (l : list (jsstring * nat))
  (obj : Obj) (c : jsstring) :
  ~ In c (map fst l) ->
  obj_get c (fold_left (fun obj ci => obj_set (fst ci) (nth (snd ci) row JUndef) obj)
               l obj)
  = obj_get c obj.
Proof.
  revert obj. induction l as [|[c0 i0] l IH]; intros obj Hc; [reflexivity|].
  cbn [fold_left fst snd]. cbn [map fst] in Hc.
  rewrite IH by (intros H; apply Hc; now right).
  apply obj_get_set_other. intros ->. apply Hc. now left.
Qed.

Lemma row_object_reads (row : list JsVal) (l : list (jsstring * nat))
  (obj : Obj) (c : jsstring) (i : nat) :
  NoDup (map fst l) -> ~ In PROTO (map fst l) -> In (c, i) l ->
  obj_get c (fold_left (fun obj ci => obj_set (fst ci) (nth (snd ci) row JUndef) obj)
               l obj)
  = nth i row JUndef.
Proof.
  revert obj. induction l as [|[c0 i0] l IH]; intros obj Hnd Hp Hin; [destruct Hin|].
  cbn [map fst] in Hnd, Hp. inversion Hnd as [|? ? Hc0 Hnd']; subst.
  cbn [fold_left fst snd]. destruct Hin as [Heq|Hin].
  - injection Heq as -> ->. rewrite row_object_skips by exact Hc0.
    apply obj_get_set_same. intros ->. apply Hp. now left.
  - apply IH; [exact Hnd'| |exact Hin]. intros H. apply Hp. now right.
Qed.

Lemma map_fst_combine_seq {A : Type} (l : list A) (k : nat) :
  map fst (combine l (seq k (length l))) = l.
Proof.
  revert k. induction l as [|x l IH]; intros k; [reflexivity|].
  cbn [length seq combine map fst]. now rewrite IH.
Qed.

Lemma in_combine_seq {A : Type} (l : list A) (k i : nat) (x : A) :
  nth_error l i = Some x -> In (x, k + i) (combine l (seq k (length l))).
Proof.
  revert k i. induction l as [|y l IH]; intros k i H; [now destruct i|].
  cbn [length seq combine]. destruct i as [|i].
  - injection H as ->. left. f_equal. lia.
  - right. replace (k + S i) with (S k + i) by lia. now apply IH.
Qed.

(** X12: for a result whose column names are distinct (and none of them
    [__proto__]), [sqlQueryToObjects] gives one object for each row, in the
    order of the rows, and the object reads, under each column name, the
    value the row holds at the place of that column. *)
Theorem query_objects_hold_the_row_values :
  forall (first : QueryResult) (others : list QueryResult) (j i : nat)
         (row : list JsVal) (c : jsstring),
    NoDup (columns first) -> ~ In PROTO (columns first) ->
    nth_error (values first) j = Some row ->
    nth_error (columns first) i = Some c ->
    length (sqlQueryToObjects (Some (first :: others))) = length (values first)
    /\ exists obj,
         nth_error (sqlQueryToObjects (Some (first :: others))) j = Some obj
         /\ obj_get c obj = nth i row JUndef.
Proof.
  intros first others j i row c Hnd Hp Hrow Hc.
  cbn [sqlQueryToObjects]. split; [apply length_map|].
  exists (row_object (columns first) row).
  split; [now rewrite nth_error_map, Hrow|].
  unfold row_object, indexed. apply row_object_reads.
  - now rewrite map_fst_combine_seq.
  - now rewrite map_fst_combine_seq.
  - apply (in_combine_seq (columns first) 0 i c Hc).
Qed.

Lemma query_objects_hold_the_row_values_witness :
  NoDup [js "id"; js "firstName"] /\ ~ In PROTO [js "id"; js "firstName"]
  /\ exists obj,
       nth_error
         (sqlQueryToObjects
            (Some [mkQueryResult [js "id"; js "firstName"]
                     [[JStr (js "v1"); JStr (js "Jane")];
                      [JStr (js "v3"); JStr (js "Janet")]]]))
         1 = Some obj
       /\ obj_get (js "firstName") obj = JStr (js "Janet").
Proof.
  assert (H1 : NoDup [js "id"; js "firstName"]).
  { repeat constructor; cbn; intuition discriminate. }
  assert (H2 : ~ In PROTO [js "id"; js "firstName"]).
  { cbn. intuition discriminate. }
  split; [exact H1|]. split; [exact H2|].
  exact (proj2 (query_objects_hold_the_row_values
                  (mkQueryResult [js "id"; js "firstName"]
                     [[JStr (js "v1"); JStr (js "Jane")];
                      [JStr (js "v3"); JStr (js "Janet")]])
                  [] 1 1 [JStr (js "v3"); JStr (js "Janet")] (js "firstName")
                  H1 H2 eq_refl eq_refl)).
Defined.

End ObjectLookup.

(** ** The export of one visitor *)

Section ExportFacts.
Import Js Renderer Records Actions Terms.

Lemma same_id_total (u v : Obj) (a : jsstring) :
  obj_get Main.ID u = JStr a ->
  (obj_get Main.ID v = JUndef \/ exists b, obj_get Main.ID v = JStr b) ->
  exists r, Main.same_id u v = Ok r.
Proof.
  intros Hu Hv. unfold Main.same_id. rewrite Hu.
  destruct Hv as [->|[b ->]]; [cbn; eauto|].
  destruct (truthy (JStr b)); [|eauto]. destruct (truthy (JStr a)); eauto.
Qed.

Lemma findIndex_total {A : Type} (test : A -> res bool) (l : list A) (k : nat) :
  (forall x, In x l -> exists r, test x = Ok r) ->
  exists r, Main.findIndex test l k = Ok r.
Proof.
  revert k. induction l as [|x l IH]; intros k H; [cbn; eauto|].
  cbn [Main.findIndex]. destruct (H x (or_introl eq_refl)) as [[|] ->]; [eauto|].
  apply IH. intros y Hy. apply H. now right.
Qed.

Lemma parsed_id_is_text (csvText : jsstring) (v : Obj) :
  In v (Main.parseCsv csvText) ->
  obj_get Main.ID v = JUndef \/ exists b, obj_get Main.ID v = JStr b.
Proof.
  intros Hv. destruct (parseCsv_records csvText) as (keys & _ & _ & Hrec).
  rewrite Forall_forall in Hrec. destruct (Hrec v Hv) as [_ Hvals].
  apply (obj_get_values (fun x => x = JUndef \/ exists b, x = JStr b)).
  - now left.
  - eapply Forall_impl; [|exact Hvals]. intros kv (s & -> & _). right. now exists s.
Qed.

(** The upsert of a record whose id is a string into the rows of a file
    does not throw, and the record is among the rows it gives. *)
Lemma upsert_into_parsed (csvText : jsstring) (u : Obj) (a : jsstring) :
  obj_get Main.ID u = JStr a ->
  exists visitors,
    Main.upsert (Main.parseCsv csvText) u = Ok visitors /\ In u visitors.
Proof.
  intros Hu. unfold Main.upsert.
  destruct (findIndex_total (Main.same_id u) (Main.parseCsv csvText) 0) as [r Hr].
  { intros v Hv. apply (same_id_total u v a Hu). now apply parsed_id_is_text with csvText. }
  rewrite Hr. destruct r as [i|].
  - eexists. split; [reflexivity|].
    apply findIndex_some in Hr as (j & y & Hi & Hn & _). cbn in Hi. subst j.
    eapply nth_error_In. apply replace_at_same. apply nth_error_Some. congruence.
  - eexists. split; [reflexivity|]. apply in_or_app. right. now left.
Qed.

Lemma find_visitor_text (k : jsstring) (l : list Row) (v : Row) :
  find_visitor (JStr k) l = Some v -> id v = SText k.
Proof.
  intros H. apply find_some in H as [_ H].
  destruct (id v) as [| |a]; cbn in H; try discriminate.
  apply str_eqb_eq in H. now subst.
Qed.

(** While no file has been opened, the export of a selected visitor
    shows the failure the main process answers and changes nothing
    there. *)
Lemma export_without_an_opened_file_reports_it :
  forall (generalNotesInput : jsstring) (s : State) (m : Main.MainState)
         (k : jsstring) (v : Row),
    selectedVisitorId s = SText k -> k <> [] ->
    find_visitor (JStr k) (visitorsList s) = Some v ->
    Spec.no_path_remembered m ->
    handleExport generalNotesInput s m
    = ([ShowMessageBox
          (ExportFailed (Some (Main.Message Main.NO_FILE_SELECTED))) KError], m).
Proof.
  intros input s m k v Hsel Hk Hfind Hno.
  unfold handleExport. rewrite Hsel. cbn [js_of].
  assert (Hv : truthy (JStr k) = true) by (destruct k; [congruence|reflexivity]).
  rewrite Hv, Hfind. cbn [negb].
  unfold Main.updateAndSaveCsvFile. destruct Hno as [-> | ->]; reflexivity.
Qed.

(** When no visitor of the list carries the selected id, or none is
    selected, the export does not reach the main process: an error message
    is shown and the files stay as they are. *)
Lemma export_of_nobody_leaves_the_file_alone :
  forall (generalNotesInput : jsstring) (s : State) (m : Main.MainState),
    find_visitor (js_of (selectedVisitorId s)) (visitorsList s) = None ->
    snd (handleExport generalNotesInput s m) = m
    /\ exists text,
         fst (handleExport generalNotesInput s m)
         = [ShowMessageBox (Literal text) KError].
Proof.
  intros input s m Hfind. unfold handleExport.
  destruct (truthy (js_of (selectedVisitorId s))); cbn [negb].
  - rewrite Hfind. cbn. eauto.
  - cbn. eauto.
Qed.

End ExportFacts.

(** ** The export format of the renderer, read by main.js *)

Section ExportFormat.
Import Js Main Spec Records Terms.

Lemma quoted_text (value : JsVal) :
  quoted value = DQUOTE :: escape_quotes (to_text value) ++ [DQUOTE].
Proof. destruct value; reflexivity. Qed.

Lemma quoted_field_ok (value : JsVal) :
  backslash_before_quote (quoted value) = false -> field_ok (quoted value).
Proof.
  intros Hb. split; [exact Hb|]. rewrite quoted_text.
  destruct (escape_protected (to_text value)) as [Hc Ht].
  split; [exact Hc|exact Ht].
Qed.

Lemma quoted_read (value : JsVal) :
  unquote (trim (quoted value)) = to_text value.
Proof.
  rewrite quoted_text.
  set (w := DQUOTE :: escape_quotes (to_text value) ++ [DQUOTE]).
  assert (Hw : tight w).
  { split; [reflexivity|]. unfold w. cbn [rev]. rewrite rev_app_distr. reflexivity. }
  rewrite (tight_trim _ Hw). unfold unquote.
  assert (Hs : startsWith [DQUOTE] w = true) by reflexivity.
  assert (He : endsWith [DQUOTE] w = true).
  { unfold endsWith, w. cbn [rev]. rewrite rev_app_distr. reflexivity. }
  rewrite Hs, He. cbn [andb]. unfold w. rewrite substring_inner.
  apply unescape_escape.
Qed.

Lemma escape_quotes_Forall (P : char -> Prop) (s : jsstring) :
  P DQUOTE -> Forall P s -> Forall P (escape_quotes s).
Proof.
  intros Hd Hs. unfold escape_quotes. apply Forall_flat_map.
  eapply Forall_impl; [|exact Hs]. intros c Hc.
  destruct (N.eqb_spec c DQUOTE) as [->|]; repeat constructor; auto.
Qed.

Lemma quoted_Forall (P : char -> Prop) (value : JsVal) :
  P DQUOTE -> Forall P (to_text value) -> Forall P (quoted value).
Proof.
  intros Hd Hv. rewrite quoted_text. constructor; [exact Hd|].
  apply Forall_app. split; [now apply escape_quotes_Forall|now constructor].
Qed.

Lemma quoted_ends_ok (value : JsVal) : ends_ok (quoted value).
Proof.
  rewrite quoted_text. unfold ends_ok. cbn [rev]. rewrite rev_app_distr.
  cbn [rev app]. discriminate.
Qed.

Lemma cell_map_trim (values : list jsstring) (index : nat) :
  cell (map trim values) index = cell values index.
Proof.
  unfold cell. rewrite nth_error_map.
  destruct (nth_error values index) as [t|]; [|reflexivity]. cbn [option_map].
  destruct t as [|c t]; [reflexivity|]. cbn [truthy].
  destruct (trim (c :: t)) as [|d u] eqn:E; [reflexivity|].
  cbn [truthy]. rewrite <- E. apply trim_idem.
Qed.

Lemma fold_left_ext_all {A B : Type} (f g : A -> B -> A) (l : list B) (a : A) :
  (forall x y, f x y = g x y) -> fold_left f l a = fold_left g l a.
Proof.
  intros H. revert a. induction l as [|y l IH]; intros a; [reflexivity|].
  cbn [fold_left]. now rewrite H, IH.
Qed.

(** The row built from the values of a line is the row built from the same
    values trimmed. *)
Lemma build_row_trimmed (headers values : list jsstring) :
  build_row headers values = build_row headers (map trim values).
Proof.
  unfold build_row. apply fold_left_ext_all. intros [row hasId] [h i].
  unfold row_step. now rewrite cell_map_trim.
Qed.

Lemma flat_map_singleton_map {A B C : Type} (f : B -> list C) (g : A -> B)
  (h : A -> C) (l : list A) :
  Forall (fun x => f (g x) = [h x]) l -> flat_map f (map g l) = map h l.
Proof.
  induction 1 as [|x l Hx Hl IH]; [reflexivity|].
  cbn [map flat_map]. now rewrite Hx, IH.
Qed.

Lemma export_headers_order : key_order EXPORT_HEADERS.
Proof.
  split; [|split].
  - repeat constructor; cbn; intuition discriminate.
  - cbn. intuition discriminate.
  - repeat constructor.
Qed.

Lemma export_headers_parsed : Forall parsed_key EXPORT_HEADERS.
Proof. repeat constructor; discriminate. Qed.

Lemma export_headers_read :
  map trim (split_on COMMA (join COMMA EXPORT_HEADERS)) = EXPORT_HEADERS.
Proof. reflexivity. Qed.

(** The line [generateCsv] writes for a visitor. *)
Lemma exported_line (visitor : Obj) :
  exportable visitor ->
  let line := join COMMA (map (fun header => quoted (obj_get header visitor))
                            EXPORT_HEADERS) in
  Forall (fun c => c <> LF) line
  /\ strip_cr (rev line) = rev line
  /\ nonblank line = true
  /\ parse_line EXPORT_HEADERS line = [exported_record visitor].
Proof.
  intros [Hcols Hid] line.
  assert (Hlf : Forall (fun c => c <> LF) line).
  { apply join_Forall; [discriminate|]. apply Forall_map, Forall_forall.
    intros h Hh. apply quoted_Forall; [discriminate|]. now apply Hcols. }
  assert (Hcr : strip_cr (rev line) = rev line).
  { apply ends_ok_strip_cr, join_ends_ok, Forall_map, Forall_forall.
    intros h _. apply quoted_ends_ok. }
  assert (Hnb : nonblank line = true).
  { apply nonblank_char with DQUOTE; [|reflexivity].
    apply in_join with (quoted (obj_get (js "id") visitor)).
    - now left.
    - rewrite quoted_text. now left. }
  split; [exact Hlf|]. split; [exact Hcr|]. split; [exact Hnb|].
  unfold parse_line, line. rewrite tokenize_join.
  - rewrite map_map, build_row_trimmed, map_map.
    rewrite (map_ext _ (fun header => trim (to_text (obj_get header visitor))))
      by (intros h; now rewrite quoted_read).
    set (r := exported_record visitor).
    assert (Hk : map fst r = EXPORT_HEADERS) by reflexivity.
    assert (Ht : texts r
                 = map (fun header => trim (to_text (obj_get header visitor)))
                     EXPORT_HEADERS) by reflexivity.
    rewrite <- Hk at 1. rewrite <- Ht.
    rewrite build_row_written; [reflexivity| | | |].
    + rewrite Hk. exact export_headers_order.
    + rewrite Hk. exact export_headers_parsed.
    + unfold r, exported_record. apply Forall_map, Forall_forall.
      intros h Hh. cbn [snd]. eexists. split; [reflexivity|].
      split; [apply trim_tight|]. apply trim_Forall. now apply Hcols.
    + unfold has_own_id.
      change (obj_get ID r) with (JStr (trim (to_text (obj_get ID visitor)))).
      cbn [truthy]. now destruct (trim (to_text (obj_get ID visitor))).
  - discriminate.
  - apply Forall_map, Forall_forall. intros h Hh.
    apply quoted_field_ok. now apply Hcols.
Qed.

(** X6: what [generateCsv] writes for visitors without line feed in a column,
    without a backslash right before a double quote in a column as written,
    and with a non-blank id, the parser of main.js reads back as one record
    for each visitor, in the same order, with the ten columns of the export
    and each value as text, trimmed. *)
Theorem main_parser_reads_the_export_format :
  forall visitors : list Obj,
    Forall exportable visitors ->
    Main.parseCsv (generateCsv (Some visitors)) = map exported_record visitors.
Proof.
  intros [|v vs] Hall; [reflexivity|].
  set (visitors := v :: vs) in *.
  set (L := fun visitor : Obj =>
              join COMMA (map (fun header => quoted (obj_get header visitor))
                            EXPORT_HEADERS)).
  change (generateCsv (Some visitors))
    with (join LF (join COMMA EXPORT_HEADERS :: map L visitors)).
  assert (Hlines : Forall (fun p => Forall (fun c => c <> LF) p
                                    /\ strip_cr (rev p) = rev p
                                    /\ nonblank p = true)
                     (join COMMA EXPORT_HEADERS :: map L visitors)).
  { constructor.
    - destruct (header_row_line EXPORT_HEADERS export_headers_parsed) as (H1 & H2 & H3);
        [now left|auto].
    - apply Forall_map. eapply Forall_impl; [|exact Hall].
      intros x Hx. destruct (exported_line x Hx) as (H1 & H2 & H3 & _). auto. }
  unfold Main.parseCsv. rewrite split_lines_join; [|discriminate|].
  - rewrite filter_all.
    + rewrite export_headers_read. apply flat_map_singleton_map.
      eapply Forall_impl; [|exact Hall]. intros x Hx.
      now destruct (exported_line x Hx) as (_ & _ & _ & H4).
    + eapply Forall_impl; [|exact Hlines]. now intros p (_ & _ & H3).
  - eapply Forall_impl; [|exact Hlines]. now intros p (H1 & H2 & _).
Qed.

Lemma main_parser_reads_the_export_format_witness :
  Forall exportable [example_visitor]
  /\ Main.parseCsv (generateCsv (Some [example_visitor]))
     = [exported_record example_visitor].
Proof.
  assert (H : Forall exportable [example_visitor]).
  { constructor; [|constructor]. split.
    - intros h Hh. cbn in Hh.
      repeat (destruct Hh as [<-|Hh];
              [split; [repeat constructor; discriminate|reflexivity]|]).
      destruct Hh.
    - discriminate. }
  split; [exact H|].
  exact (main_parser_reads_the_export_format [example_visitor] H).
Defined.

End ExportFormat.

(** ** Windows line ends in the import of the renderer *)

Section ImportLineEnds.
Import Js Renderer Spec Terms.

(** A character added to a line goes to its last piece. *)
Lemma split_on_snoc (sep c : char) (l : jsstring) :
  c <> sep ->
  exists init lst,
    split_on sep l = init ++ [lst]
    /\ split_on sep (l ++ [c]) = init ++ [lst ++ [c]].
Proof.
  intros Hc. induction l as [|d t IH].
  - exists [], []. cbn. apply N.eqb_neq in Hc. now rewrite Hc.
  - destruct IH as (init & lst & H1 & H2). cbn [app split_on].
    destruct (N.eqb d sep).
    + exists ([] :: init), lst. now rewrite H1, H2.
    + rewrite H1, H2. destruct init as [|h r].
      * exists [], (d :: lst). split; reflexivity.
      * exists ((d :: h) :: r), lst. split; reflexivity.
Qed.

(** A white space character at the end of a line is not seen in its
    trimmed pieces. *)
Lemma trimmed_pieces_snoc (sep c : char) (l : jsstring) :
  c <> sep -> is_ws c = true ->
  map trim (split_on sep (l ++ [c])) = map trim (split_on sep l).
Proof.
  intros Hc Hw. destruct (split_on_snoc sep c l Hc) as (init & lst & -> & ->).
  rewrite !map_app. f_equal. cbn [map]. f_equal.
  apply (trim_padded [] lst [c]); repeat constructor. exact Hw.
Qed.

Lemma parse_row_cr (headers : list jsstring) (line : jsstring) :
  parse_row headers (line ++ [CR]) = parse_row headers line.
Proof.
  unfold parse_row. now rewrite trimmed_pieces_snoc by (discriminate || reflexivity).
Qed.

Lemma parse_rows_cr (headers : list jsstring) (lines : list jsstring) :
  map (parse_row headers) (with_cr lines) = map (parse_row headers) lines.
Proof.
  induction lines as [|l rest IH]; [reflexivity|].
  destruct rest as [|r rs]; [reflexivity|].
  change (with_cr (l :: r :: rs)) with ((l ++ [CR]) :: with_cr (r :: rs)).
  cbn [map]. now rewrite parse_row_cr, IH.
Qed.

Lemma join_snoc (sep : char) (xs : list jsstring) (l : jsstring) :
  join sep (xs ++ [l]) = flat_map (fun x => x ++ [sep]) xs ++ l.
Proof.
  induction xs as [|x xs IH]; [reflexivity|].
  cbn [app flat_map]. destruct xs as [|y ys].
  - cbn [app join flat_map]. rewrite app_nil_r, <- app_assoc. reflexivity.
  - change ((y :: ys) ++ [l]) with (y :: (ys ++ [l])) in *.
    rewrite join_cons, IH, <- !app_assoc. reflexivity.
Qed.

Lemma with_cr_snoc (xs : list jsstring) (l : jsstring) :
  with_cr (xs ++ [l]) = map (fun x => x ++ [CR]) xs ++ [l].
Proof.
  induction xs as [|x xs IH]; [reflexivity|].
  destruct xs as [|y ys]; [reflexivity|].
  change (with_cr ((x :: y :: ys) ++ [l]))
    with ((x ++ [CR]) :: with_cr ((y :: ys) ++ [l])).
  now rewrite IH.
Qed.

Lemma flat_map_ends (sep : char) (xs : list jsstring) :
  xs <> [] ->
  exists w, flat_map (fun x => x ++ [sep]) xs = w ++ [sep].
Proof.
  intros Hne. destruct (exists_last Hne) as (init & lst & ->).
  rewrite flat_map_app. cbn [flat_map]. rewrite app_nil_r, app_assoc. eauto.
Qed.

Lemma head_ok_tight (s : jsstring) :
  match s with [] => True | c :: _ => is_ws c = false end ->
  match rev s with [] => True | c :: _ => is_ws c = false end ->
  tight s.
Proof. intros H1 H2. split; now apply trimStart_fix. Qed.

(** A text that [trim] leaves as it is stays so when its lines are ended in
    the Windows way. *)
Lemma with_cr_tight (lines : list jsstring) :
  tight (join LF lines) -> tight (join LF (with_cr lines)).
Proof.
  intros [Hs He]. apply trimStart_fixed_head in Hs, He.
  destruct lines as [|l0 rest0]; [split; reflexivity|].
  apply head_ok_tight.
  - destruct rest0 as [|r rs]; [exact Hs|].
    change (with_cr (l0 :: r :: rs)) with ((l0 ++ [CR]) :: with_cr (r :: rs)).
    assert (Hq : exists q qs, with_cr (r :: rs) = q :: qs)
      by (destruct rs; cbn [with_cr]; eauto).
    destruct Hq as (q & qs & ->). rewrite join_cons in *.
    destruct l0 as [|c l0]; [cbn in Hs; discriminate|exact Hs].
  - assert (Hne : l0 :: rest0 <> []) by discriminate.
    destruct (exists_last Hne) as (init & lst & Heq). rewrite Heq in *.
    rewrite with_cr_snoc. rewrite join_snoc in *. rewrite rev_app_distr in *.
    destruct (rev lst) as [|d u] eqn:El; [|exact He].
    cbn [app] in *. destruct init as [|x init']; [reflexivity|].
    exfalso.
    destruct (flat_map_ends LF (x :: init')) as [w Hw]; [discriminate|].
    rewrite Hw, rev_app_distr in He. cbn in He. discriminate.
Qed.

Lemma with_cr_pieces (lines : list jsstring) :
  Forall (Forall (fun c => c <> LF /\ c <> CR)) lines ->
  Forall (Forall (fun c => c <> LF)) (with_cr lines).
Proof.
  induction 1 as [|l rest Hl Hrest IH]; [constructor|].
  assert (Hl' : Forall (fun c => c <> LF) l)
    by (eapply Forall_impl; [|exact Hl]; now intros c [H _]).
  destruct rest as [|r rs]; [now repeat constructor|].
  change (with_cr (l :: r :: rs)) with ((l ++ [CR]) :: with_cr (r :: rs)).
  constructor; [|exact IH]. apply Forall_app. split; [exact Hl'|].
  repeat constructor. discriminate.
Qed.

Lemma with_cr_nonempty (lines : list jsstring) : lines <> [] -> with_cr lines <> [].
Proof. destruct lines as [|l [|r rs]]; cbn; congruence. Qed.

Lemma renderer_parseCsv_crlf (lines : list jsstring) :
  Forall (Forall (fun c => c <> LF /\ c <> CR)) lines ->
  tight (join LF lines) ->
  parseCsv (join LF (with_cr lines)) = parseCsv (join LF lines).
Proof.
  intros Hl Ht. destruct lines as [|l rest]; [reflexivity|].
  unfold parseCsv.
  rewrite (tight_trim _ Ht), (tight_trim _ (with_cr_tight _ Ht)).
  rewrite split_on_join;
    [|apply with_cr_nonempty; discriminate|now apply with_cr_pieces].
  rewrite split_on_join; [|discriminate|].
  - destruct rest as [|r rs]; [reflexivity|].
    change (with_cr (l :: r :: rs)) with ((l ++ [CR]) :: with_cr (r :: rs)).
    cbn [hd tl]. rewrite trimmed_pieces_snoc by (discriminate || reflexivity).
    apply parse_rows_cr.
  - eapply Forall_impl; [|exact Hl]. intros p Hp.
    eapply Forall_impl; [|exact Hp]. now intros c [H _].
Qed.

Lemma with_cr_truthy (lines : list jsstring) :
  truthy (JStr (join LF (with_cr lines))) = truthy (JStr (join LF lines)).
Proof.
  destruct lines as [|l [|r rs]]; [reflexivity|reflexivity|].
  change (with_cr (l :: r :: rs)) with ((l ++ [CR]) :: with_cr (r :: rs)).
  assert (Hq : exists q qs, with_cr (r :: rs) = q :: qs)
    by (destruct rs; cbn [with_cr]; eauto).
  destruct Hq as (q & qs & ->). rewrite !join_cons.
  destruct l; reflexivity.
Qed.

(** X26: a file whose lines end with a carriage return and a line feed is
    imported like the same lines ended with a line feed only, as long as
    the text neither starts nor ends with white space: the renderer cuts
    the text at the line feeds only, and the trimming of each value takes
    the carriage returns away. *)
Theorem import_reads_crlf_lines_like_lf_lines :
  forall (fault : Stmt -> bool) (random16 : nat -> N)
         (lines : list jsstring) (s : State),
    Forall (Forall (fun c => c <> LF /\ c <> CR)) lines ->
    tight (join LF lines) ->
    parseCsv (join LF (with_cr lines)) = parseCsv (join LF lines)
    /\ handleImport fault random16 (join LF (with_cr lines)) s
       = handleImport fault random16 (join LF lines) s.
Proof.
  intros fault random16 lines s Hl Ht.
  pose proof (renderer_parseCsv_crlf lines Hl Ht) as Hp.
  split; [exact Hp|]. unfold handleImport.
  now rewrite with_cr_truthy, Hp.
Qed.

End ImportLineEnds.

Section ImportLineEndsExamples.
Import Js Renderer Spec ImportSpec Terms.

Lemma import_reads_crlf_lines_like_lf_lines_witness :
  tight (join LF [HEADER; js "v1,Jane,Doe,12,555,1990-01-01,jane.png,0,none"])
  /\ handleImport no_fault counting
       (HEADER ++ [CR; LF] ++ js "v1,Jane,Doe,12,555,1990-01-01,jane.png,0,none")
       empty_state
     = handleImport no_fault counting
         (HEADER ++ [LF] ++ js "v1,Jane,Doe,12,555,1990-01-01,jane.png,0,none")
         empty_state.
Proof.
  assert (H1 : Forall (Forall (fun c => c <> LF /\ c <> CR))
                 [HEADER; js "v1,Jane,Doe,12,555,1990-01-01,jane.png,0,none"]).
  { repeat constructor; discriminate. }
  assert (H2 : tight (join LF [HEADER;
                               js "v1,Jane,Doe,12,555,1990-01-01,jane.png,0,none"]))
    by (split; reflexivity).
  split; [exact H2|].
  exact (proj2 (import_reads_crlf_lines_like_lf_lines no_fault counting
                  [HEADER; js "v1,Jane,Doe,12,555,1990-01-01,jane.png,0,none"]
                  empty_state H1 H2)).
Defined.

End ImportLineEndsExamples.

(** ** The primary key and the list after an import *)

Section ImportKeys.
Import Js Renderer Records Actions ImportSpec Terms.

Variable fault : Stmt -> bool.
Variable random16 : nat -> N.

Local Abbreviation import_loop := (import_loop fault random16).
Local Abbreviation handleImport := (handleImport fault random16).
Local Abbreviation resolve_id := (resolve_id random16).

Lemma has_id_false_fresh (k : jsstring) (t : list Row) :
  has_id (SText k) t = false -> ~ In (SText k) (map id t).
Proof.
  intros H Hin. apply in_map_iff in Hin as (r & Hr & Hin).
  unfold has_id in H.
  assert (Hex : existsb (fun x => sql_eqb (id x) (SText k)) t = true).
  { apply existsb_exists. exists r. split; [exact Hin|].
    rewrite Hr. cbn. apply str_eqb_refl. }
  congruence.
Qed.

(** X24: an import keeps the ids of the table distinct, whether it goes
    through or is rolled back. *)
Theorem import_keeps_ids_distinct :
  forall (csvData : jsstring) (s : State),
    txn s = None ->
    NoDup (map id (table s)) ->
    NoDup (map id (table (snd (handleImport csvData s)))).
Proof.
  intros csvData s Htxn Hnd.
  apply (handleImport_table_ind fault random16 (fun t => NoDup (map id t)));
    [|exact Htxn|exact Hnd].
  intros visitor s0 vid sid t Hin Ha Hid Ht.
  destruct (resolve_id_parsed random16 csvData visitor s0 Hin)
    as (idText & s2 & Hid' & _).
  rewrite Hid in Hid'. injection Hid' as -> _.
  change (key_of (JStr idText)) with (SText idText).
  destruct (has_id (SText idText) t) eqn:Hh.
  - now rewrite (proj1 (upsert_row_found _ visitor _ Hh)).
  - unfold upsert_row. rewrite Hh, map_app. cbn [map id imported_row].
    apply NoDup_app; [exact Ht|repeat constructor; auto|].
    intros x Hx [<-|[]]. now apply (has_id_false_fresh _ _ Hh).
Qed.


End ImportKeys.

Section ImportKeysExamples.
Import Js Renderer Records Actions ImportSpec Terms.

Lemma import_keeps_ids_distinct_witness :
  txn empty_state = None /\ NoDup (map id (table empty_state))
  /\ NoDup (map id (table (snd (handleImport no_fault counting csv_same_id_twice
                                  empty_state)))).
Proof.
  assert (H : NoDup (map id (table empty_state))) by constructor.
  split; [reflexivity|]. split; [exact H|].
  exact (import_keeps_ids_distinct no_fault counting csv_same_id_twice empty_state
           eq_refl H).
Defined.


End ImportKeysExamples.

(** ** The file after a save: what [parseCsv] reads of what [stringifyCsv]
    wrote for any rows *)

Section WrittenFields.
Import Js Main Spec Records Terms.

(** The characters of a decimal numeral. *)
Lemma digits_plain (d : Decimal.uint) :
  Forall (fun c => c <> COMMA /\ c <> DQUOTE)
    (js (DecimalString.NilEmpty.string_of_uint d)).
Proof.
  induction d; cbn [DecimalString.NilEmpty.string_of_uint]; [constructor|..];
    (constructor; [split; discriminate|exact IHd]).
Qed.

Lemma number_toString_plain (z : Z) :
  Forall (fun c => c <> COMMA /\ c <> DQUOTE) (number_toString z).
Proof.
  unfold number_toString, DecimalString.NilZero.string_of_int.
  destruct (Z.to_int z) as [d|d].
  - unfold DecimalString.NilZero.string_of_uint.
    destruct d; try apply digits_plain. repeat constructor; discriminate.
  - constructor; [split; discriminate|].
    unfold DecimalString.NilZero.string_of_uint.
    destruct d; try apply digits_plain. repeat constructor; discriminate.
Qed.

(** The texts of the inherited members hold neither comma nor double
    quote. *)
Lemma inherited_plain :
  Forall (fun member => Forall (fun c => c <> COMMA /\ c <> DQUOTE) (snd member))
    INHERITED.
Proof. repeat constructor; discriminate. Qed.

Lemma inherited_text_plain (k t : jsstring) :
  inherited_text k = Some t -> Forall (fun c => c <> COMMA /\ c <> DQUOTE) t.
Proof.
  unfold inherited_text.
  destruct (find (fun member => str_eqb (fst member) k) INHERITED) as [m|] eqn:F;
    [|discriminate].
  intros [= <-]. apply find_some in F as [Hin _].
  pose proof inherited_plain as H. rewrite Forall_forall in H. now apply H.
Qed.

Lemma obj_get_key (k : jsstring) (o : Obj) (s : jsstring) :
  obj_get k o = JStr s -> has_key k o = true.
Proof.
  unfold obj_get, has_key.
  destruct (find (fun kv => str_eqb (fst kv) k) o) as [kv|] eqn:F; [|discriminate].
  intros _. apply find_some in F as [Hin Hk]. apply existsb_exists. eauto.
Qed.

(** A column is written as its text, which then holds neither comma nor
    double quote, or between double quotes, its own double quotes doubled. *)
Lemma format_field_cases (header : jsstring) (visitor : Obj) :
  (format_field header visitor = column_text header visitor
   /\ Forall (fun c => c <> COMMA /\ c <> DQUOTE) (column_text header visitor))
  \/ format_field header visitor
     = DQUOTE :: escape_quotes (column_text header visitor) ++ [DQUOTE].
Proof.
  unfold format_field, column_text.
  destruct (has_key header visitor).
  - destruct (obj_get header visitor) as [| |z|t]; cbn [to_text].
    + left. split; [reflexivity|constructor].
    + left. split; [reflexivity|constructor].
    + left. split; [reflexivity|apply number_toString_plain].
    + unfold format_value.
      destruct (includes [COMMA] t || includes [DQUOTE] t) eqn:Hn;
        [right; reflexivity|].
      left. split; [reflexivity|].
      apply orb_false_iff in Hn as [H1 H2].
      apply not_includes_char in H1, H2.
      rewrite Forall_forall in *. intros c Hc. split; auto.
  - destruct (inherited_text header) as [t|] eqn:Hi.
    + left. split; [reflexivity|]. now apply inherited_text_plain with header.
    + left. split; [reflexivity|constructor].
Qed.

(** What the scan of lines 63-84 needs of a written column, and what it
    reads of it. *)
Lemma written_field (header : jsstring) (visitor : Obj) :
  Forall (fun c => c <> LF) (column_text header visitor) ->
  ends_ok (column_text header visitor) ->
  backslash_before_quote (format_field header visitor) = false ->
  field_ok (format_field header visitor)
  /\ Forall (fun c => c <> LF) (format_field header visitor)
  /\ ends_ok (format_field header visitor)
  /\ trim (unquote (trim (format_field header visitor)))
     = trim (column_text header visitor)
  /\ forall c, In c (column_text header visitor) ->
               In c (format_field header visitor).
Proof.
  intros Hlf Hend Hbs.
  destruct (format_field_cases header visitor) as [[E Hplain]|E]; rewrite E in *.
  - assert (Hc : Forall (fun c => c <> COMMA) (column_text header visitor))
      by (eapply Forall_impl; [|exact Hplain]; now intros c [H _]).
    assert (Hd : Forall (fun c => c <> DQUOTE) (column_text header visitor))
      by (eapply Forall_impl; [|exact Hplain]; now intros c [_ H]).
    split; [|split; [exact Hlf|split; [exact Hend|split; [|auto]]]].
    + split; [exact Hbs|]. now apply plain_protected.
    + rewrite unquote_plain by (now apply trim_Forall). apply trim_idem.
  - change (DQUOTE :: escape_quotes (column_text header visitor) ++ [DQUOTE])
      with (quoted (JStr (column_text header visitor))) in *.
    split; [now apply quoted_field_ok|].
    split; [apply quoted_Forall; [discriminate|exact Hlf]|].
    split; [apply quoted_ends_ok|].
    split; [now rewrite quoted_read|].
    intros c Hc. rewrite quoted_text. right. apply in_or_app. left.
    unfold escape_quotes. apply in_flat_map. exists c. split; [exact Hc|].
    destruct (N.eqb c DQUOTE) eqn:Ec; [|now left].
    apply N.eqb_eq in Ec. subst. now left.
Qed.

(** A text that is not blank holds a character that is no white space. *)
Lemma non_blank_char (s : jsstring) :
  trim s <> [] -> exists c, In c s /\ is_ws c = false.
Proof.
  induction s as [|c s IH]; [intros H; now destruct H|].
  intros H. destruct (is_ws c) eqn:W.
  - assert (E : trim (c :: s) = trim s).
    { pose proof (trim_padded [c] s []) as Hp. rewrite app_nil_r in Hp.
      apply Hp; repeat constructor. exact W. }
    rewrite E in H. destruct (IH H) as (d & Hd & Wd). exists d. split; [now right|exact Wd].
  - exists c. split; [now left|exact W].
Qed.

Lemma written_record_keys (headers : list jsstring) (visitor : Obj) :
  map fst (written_record headers visitor) = headers.
Proof.
  unfold written_record. rewrite map_map. cbn [fst]. apply map_id.
Qed.

Lemma written_record_texts (headers : list jsstring) (visitor : Obj) :
  texts (written_record headers visitor)
  = map (fun header => trim (column_text header visitor)) headers.
Proof. unfold texts, written_record. now rewrite map_map. Qed.

(** The record read back holds, under each column written, the text of
    that column, trimmed. *)
Lemma written_record_get (headers : list jsstring) (visitor : Obj) (k : jsstring) :
  In k headers ->
  obj_get k (written_record headers visitor) = JStr (trim (column_text k visitor)).
Proof.
  unfold obj_get, written_record. induction headers as [|h headers IH]; [intros []|].
  intros Hin. cbn [map find fst].
  destruct (str_eqb h k) eqn:E.
  - apply str_eqb_eq in E. now subst.
  - apply IH. destruct Hin as [->|Hin]; [|exact Hin].
    now rewrite str_eqb_refl in E.
Qed.

Lemma own_text (k : jsstring) (o : Obj) (s : jsstring) :
  obj_get k o = JStr s -> column_text k o = s.
Proof.
  intros H. unfold column_text. now rewrite (obj_get_key _ _ _ H), H.
Qed.

(** The line [stringifyCsv] writes for a row. *)
Lemma written_row_line (headers : list jsstring) (visitor : Obj) :
  key_order headers -> Forall parsed_key headers -> In ID headers ->
  writable headers visitor ->
  let line := join COMMA (map (fun header => format_field header visitor) headers) in
  Forall (fun c => c <> LF) line
  /\ strip_cr (rev line) = rev line
  /\ nonblank line = true
  /\ parse_line headers line = [written_record headers visitor].
Proof.
  intros Hord Hkeys Hid [(s & Hs & Hnb) Hcols] line.
  assert (Hall : forall h, In h headers ->
            field_ok (format_field h visitor)
            /\ Forall (fun c => c <> LF) (format_field h visitor)
            /\ ends_ok (format_field h visitor)
            /\ trim (unquote (trim (format_field h visitor)))
               = trim (column_text h visitor)
            /\ forall c, In c (column_text h visitor) ->
                         In c (format_field h visitor)).
  { intros h Hh. destruct (Hcols h Hh) as (H1 & H2 & H3). now apply written_field. }
  assert (Hlf : Forall (fun c => c <> LF) line).
  { apply join_Forall; [discriminate|]. apply Forall_map, Forall_forall.
    intros h Hh. now apply Hall. }
  assert (Hcr : strip_cr (rev line) = rev line).
  { apply ends_ok_strip_cr, join_ends_ok, Forall_map, Forall_forall.
    intros h Hh. now apply Hall. }
  assert (Hnon : nonblank line = true).
  { destruct (non_blank_char s Hnb) as (c & Hc & Wc).
    apply nonblank_char with c; [|exact Wc].
    apply in_join with (format_field ID visitor).
    - apply in_map_iff. now exists ID.
    - apply (Hall ID Hid). now rewrite (own_text _ _ _ Hs). }
  split; [exact Hlf|]. split; [exact Hcr|]. split; [exact Hnon|].
  unfold parse_line, line. rewrite tokenize_join.
  - rewrite map_map, build_row_trimmed, map_map.
    rewrite (map_ext_in _ (fun header => trim (column_text header visitor)))
      by (intros h Hh; now apply Hall).
    rewrite <- written_record_texts.
    rewrite <- (written_record_keys headers visitor) at 1.
    rewrite build_row_written; [reflexivity| | | |].
    + now rewrite written_record_keys.
    + now rewrite written_record_keys.
    + unfold written_record. apply Forall_map, Forall_forall.
      intros h Hh. cbn [snd]. eexists. split; [reflexivity|].
      split; [apply trim_tight|]. apply trim_Forall. now apply Hcols.
    + unfold has_own_id. rewrite (written_record_get _ _ _ Hid).
      rewrite (own_text _ _ _ Hs). cbn [truthy]. now destruct (trim s).
  - destruct headers; [destruct Hid|discriminate].
  - apply Forall_map, Forall_forall. intros h Hh. now apply Hall.
Qed.

(** The header row is read back as the names it was made of. *)
Lemma headers_read (K : list jsstring) :
  Forall parsed_key K -> K <> [] ->
  map trim (split_on COMMA (join COMMA K)) = K.
Proof.
  intros Hkeys Hne. rewrite split_on_join.
  - rewrite <- (map_id K) at 2. apply map_ext_in. intros k Hk.
    rewrite Forall_forall in Hkeys. destruct (Hkeys k Hk) as (_ & Ht & _).
    now apply tight_trim.
  - exact Hne.
  - rewrite Forall_forall in *. intros k Hk.
    destruct (Hkeys k Hk) as (Hc & _). rewrite Forall_forall in *.
    intros c Hin. now apply Hc.
Qed.

Lemma first_row_has_id (first : Obj) (rest : list Obj) :
  well_written (first :: rest) -> In ID (columns_of (first :: rest)).
Proof.
  intros (_ & _ & Hw). apply Forall_inv in Hw as [(s & Hs & _) _].
  apply has_key_In. now apply obj_get_key with s.
Qed.

(** What [parseCsv] reads of what [stringifyCsv] wrote: one record for each
    row, in the same order, with the columns of the first row and each value
    as text, trimmed. *)
Lemma parse_written (visitors : list Obj) :
  well_written visitors ->
  parseCsv (stringifyCsv visitors)
  = map (written_record (columns_of visitors)) visitors.
Proof.
  destruct visitors as [|first rest]; [reflexivity|]. intros Hww.
  pose proof (first_row_has_id first rest Hww) as Hid.
  destruct Hww as (Hord & Hkeys & Hall).
  set (visitors := first :: rest) in *.
  set (K := columns_of visitors) in *.
  set (L := fun visitor : Obj =>
              join COMMA (map (fun header => format_field header visitor) K)).
  change (stringifyCsv visitors) with (join LF (join COMMA K :: map L visitors)).
  assert (Hlines : Forall (fun p => Forall (fun c => c <> LF) p
                                    /\ strip_cr (rev p) = rev p
                                    /\ nonblank p = true)
                     (join COMMA K :: map L visitors)).
  { constructor.
    - now apply header_row_line.
    - apply Forall_map. eapply Forall_impl; [|exact Hall].
      intros x Hx.
      destruct (written_row_line K x Hord Hkeys Hid Hx) as (H1 & H2 & H3 & _). auto. }
  unfold parseCsv. rewrite split_lines_join; [|discriminate|].
  - rewrite filter_all.
    + rewrite headers_read; [|exact Hkeys|intros E; rewrite E in Hid; destruct Hid].
      apply flat_map_singleton_map.
      eapply Forall_impl; [|exact Hall]. intros x Hx.
      now destruct (written_row_line K x Hord Hkeys Hid Hx) as (_ & _ & _ & H4).
    + eapply Forall_impl; [|exact Hlines]. now intros p (_ & _ & H3).
  - eapply Forall_impl; [|exact Hlines]. now intros p (H1 & H2 & _).
Qed.

End WrittenFields.

(** ** The file after a save (main.js, [dialog:updateAndSaveCsvFile]) *)

Section FileAfterSave.
Import Js Main Spec Records Terms.

Lemma ForallOrdPairs_map {A B : Type} (R : A -> A -> Prop) (R' : B -> B -> Prop)
  (f : A -> B) (l : list A) :
  (forall a b, In a l -> In b l -> R a b -> R' (f a) (f b)) ->
  ForallOrdPairs R l -> ForallOrdPairs R' (map f l).
Proof.
  intros Hf H. induction H as [|a l Ha Hl IH]; [constructor|].
  cbn [map]. constructor.
  - apply Forall_map. rewrite Forall_forall in *. intros b Hb.
    apply Hf; [now left|now right|now apply Ha].
  - apply IH. intros x y Hx Hy. apply Hf; now right.
Qed.

(** Two rows the format carries are told apart by their ids after the
    round through the file as they were before. *)
Lemma written_ids_match (headers : list jsstring) (a b : Obj) :
  In ID headers -> writable headers a -> writable headers b ->
  ids_match (written_record headers a) (written_record headers b) = ids_match a b.
Proof.
  intros Hid [(s & Hs & Hns) _] [(t & Ht & Hnt) _].
  unfold ids_match. rewrite !(written_record_get _ _ _ Hid).
  rewrite (own_text _ _ _ Hs), (own_text _ _ _ Ht), Hs, Ht, !trim_idem.
  assert (Hs0 : s <> []) by (intros ->; now apply Hns).
  assert (Ht0 : t <> []) by (intros ->; now apply Hnt).
  destruct s as [|c s]; [congruence|]. destruct t as [|d t]; [congruence|].
  cbn [truthy andb].
  destruct (trim (c :: s)); [congruence|]. destruct (trim (d :: t)); [congruence|].
  reflexivity.
Qed.

(** A row of a parsed file is read back as it is when it is written under
    its own columns. *)
Lemma written_record_parsed (K : list jsstring) (r : Obj) :
  key_order K -> parsed_record K r -> written_record K r = r.
Proof.
  intros (Hnd & _) [<- Hvals]. unfold written_record. rewrite map_map.
  rewrite <- (map_id r) at 2. apply map_ext_in. intros [k v] Hin. cbn [fst].
  rewrite Forall_forall in Hvals. destruct (Hvals _ Hin) as (s & Hv & Ht & _).
  cbn [snd] in Hv. subst v.
  rewrite (own_text k r s) by (now apply obj_get_own).
  now rewrite (tight_trim _ Ht).
Qed.

Lemma nth_error_hd {A : Type} (l : list A) (x d : A) :
  nth_error l 0 = Some x -> hd d l = x.
Proof. destruct l; cbn; congruence. Qed.

Lemma upsert_holds_record (rows : list Obj) (u : Obj) (visitors : list Obj) :
  upsert rows u = Ok visitors -> In u visitors.
Proof.
  intros Hup.
  destruct (upsert_cases rows u visitors Hup)
    as [[(i & old & _ & _ & _ & _ & Hi & _)|[_ ->]] _].
  - now apply nth_error_In with i.
  - apply in_or_app. right. now left.
Qed.

(** C7, amended: with a remembered path and a readable file, when the
    upsert does not throw, the write goes through and the rows handed to
    [stringifyCsv] are rows the file format carries, the handler answers a
    success and the rows of the file afterwards are the rows it had before
    with the record put in the place of the first row carrying its id, every
    other row staying where it was, or, when no row carries its id, added
    after the last row.  Each row is read back under the columns of the
    first row written, its values as text, trimmed; when the first row of
    the old file is not the one replaced, those are the columns of the file
    and its rows are read back as they were; the row of the record carries
    the id of the record, trimmed.  If the ids of the old file were
    distinct, so are the ids of the new file. *)
Theorem C7_upsert_in_place_or_append_in_the_file :
  forall (st : MainState) (updatedVisitor : Obj)
         (path fileContent : jsstring) (visitors : list Obj),
    lastUsedFilePath st = Some path -> path <> [] ->
    files st path = Some fileContent ->
    upsert (parseCsv fileContent) updatedVisitor = Ok visitors ->
    writeOutcome st path (stringifyCsv visitors) = Written ->
    well_written visitors ->
    let rows := parseCsv fileContent in
    let as_read := written_record (columns_of visitors) in
    exists newContent,
      success (fst (updateAndSaveCsvFile st updatedVisitor)) = true
      /\ files (snd (updateAndSaveCsvFile st updatedVisitor)) path = Some newContent
      /\ ((exists i old,
              nth_error rows i = Some old /\ ids_match old updatedVisitor = true
              /\ (forall j v, j < i -> nth_error rows j = Some v ->
                              ids_match v updatedVisitor = false)
              /\ length (parseCsv newContent) = length rows
              /\ nth_error (parseCsv newContent) i = Some (as_read updatedVisitor)
              /\ forall j, j <> i ->
                   nth_error (parseCsv newContent) j
                   = option_map as_read (nth_error rows j))
          \/ ((forall v, In v rows -> ids_match v updatedVisitor = false)
              /\ parseCsv newContent = map as_read rows ++ [as_read updatedVisitor]))
      /\ (forall first rest,
            rows = first :: rest -> ids_match first updatedVisitor = false ->
            forall v, In v rows -> as_read v = v)
      /\ (exists s, obj_get ID updatedVisitor = JStr s
                    /\ obj_get ID (as_read updatedVisitor) = JStr (trim s))
      /\ (distinct_ids rows -> distinct_ids (parseCsv newContent)).
Proof.
  intros st u path content visitors Hpath Hne Hfile Hup Hw Hww rows as_read.
  exists (stringifyCsv visitors).
  assert (Hrun : updateAndSaveCsvFile st u
                 = (mkReply true None,
                    mkMainState (lastUsedFilePath st)
                      (write_file path (stringifyCsv visitors) (files st))
                      ((fsLog st ++ [FsRead path])
                       ++ [FsWrite path (stringifyCsv visitors)])
                      (writeOutcome st))).
  { unfold updateAndSaveCsvFile. rewrite Hpath.
    destruct path as [|c path]; [congruence|].
    rewrite Hfile, Hup, Hw. reflexivity. }
  rewrite Hrun. cbn [fst snd success files].
  split; [reflexivity|]. split; [unfold write_file; now rewrite str_eqb_refl|].
  rewrite (parse_written visitors Hww). fold as_read.
  destruct (upsert_cases rows u visitors Hup) as [Hshape Hdist].
  pose proof (upsert_holds_record _ _ _ Hup) as Hin.
  split; [|split; [|split]].
  - destruct Hshape as [(i & old & Hold & Hm & Hbefore & Hlen & Hi & Hother)
                       |[Hnone ->]].
    + left. exists i, old. split; [exact Hold|]. split; [exact Hm|].
      split; [exact Hbefore|]. split; [now rewrite length_map|].
      split; [now rewrite nth_error_map, Hi|].
      intros j Hj. now rewrite nth_error_map, (Hother j Hj).
    + right. split; [exact Hnone|]. now rewrite map_app.
  - intros first rest Hrows Hfirst v Hv.
    destruct (parseCsv_records content) as (K & Hord & _ & Hrecs).
    fold rows in Hrecs. rewrite Forall_forall in Hrecs.
    assert (Hhd : hd [] visitors = first).
    { destruct Hshape as [(i & old & Hold & Hm & _ & _ & _ & Hother)|[_ ->]].
      - apply nth_error_hd. destruct i as [|i].
        + rewrite Hrows in Hold. cbn in Hold. congruence.
        + etransitivity; [apply (Hother 0); discriminate|]. now rewrite Hrows.
      - now rewrite Hrows. }
    assert (Hcols : columns_of visitors = K).
    { unfold columns_of. rewrite Hhd.
      apply (Hrecs first). rewrite Hrows. now left. }
    unfold as_read. rewrite Hcols. apply written_record_parsed; auto.
  - destruct visitors as [|v0 vs]; [destruct Hin|].
    pose proof (first_row_has_id v0 vs Hww) as Hid.
    destruct Hww as (_ & _ & Hall). rewrite Forall_forall in Hall.
    destruct (Hall u Hin) as [(t & Ht & _) _].
    exists t. split; [exact Ht|]. unfold as_read.
    now rewrite (written_record_get _ _ _ Hid), (own_text _ _ _ Ht).
  - intros Hd. specialize (Hdist Hd). unfold distinct_ids in *.
    destruct visitors as [|v0 vs]; [constructor|].
    pose proof (first_row_has_id v0 vs Hww) as Hid.
    destruct Hww as (_ & _ & Hall). rewrite Forall_forall in Hall.
    eapply ForallOrdPairs_map; [|exact Hdist].
    intros a b Ha Hb Hab. unfold as_read.
    now rewrite written_ids_match by auto.
Qed.

Lemma example_rows_well_written :
  well_written [[(js "id", JStr (js "1")); (js "firstName", JStr (js "Ann"))];
                odd_update].
Proof.
  split; [|split].
  - split; [|split].
    + repeat constructor; cbn; intuition discriminate.
    + cbn. intuition discriminate.
    + repeat constructor.
  - repeat constructor; discriminate.
  - constructor; [|constructor; [|constructor]];
      (split; [eexists; split; [reflexivity|discriminate]|]);
      intros h Hh; vm_compute in Hh;
      repeat (destruct Hh as [<-|Hh];
              [split; [vm_compute; repeat constructor; discriminate
                      |split; [vm_compute; (discriminate || exact I)
                              |vm_compute; reflexivity]]|]);
      destruct Hh.
Qed.

Lemma C7_upsert_in_place_or_append_in_the_file_witness :
  upsert (parseCsv example_file) odd_update
  = Ok [[(js "id", JStr (js "1")); (js "firstName", JStr (js "Ann"))]; odd_update]
  /\ exists newContent,
       files (snd (updateAndSaveCsvFile (example_main_state (Some example_path))
                     odd_update)) example_path
       = Some newContent
       /\ newContent = js "id,firstName" ++ [LF] ++ js "1,Ann" ++ [LF] ++ js "2,"
       /\ nth_error (parseCsv newContent) 1
          = Some [(js "id", JStr (js "2")); (js "firstName", JStr [])]
       /\ distinct_ids (parseCsv newContent).
Proof.
  assert (Hp : example_path <> []) by discriminate.
  assert (Hup : upsert (parseCsv example_file) odd_update
                = Ok [[(js "id", JStr (js "1")); (js "firstName", JStr (js "Ann"))];
                      odd_update]) by reflexivity.
  assert (Hd : distinct_ids (parseCsv example_file)) by (repeat constructor).
  split; [exact Hup|].
  destruct (C7_upsert_in_place_or_append_in_the_file
              (example_main_state (Some example_path)) odd_update
              example_path example_file _ eq_refl Hp eq_refl Hup eq_refl
              example_rows_well_written)
    as (newContent & _ & Hfile & Hshape & _ & _ & Hdist).
  exists newContent. split; [exact Hfile|].
  assert (E : newContent = js "id,firstName" ++ [LF] ++ js "1,Ann" ++ [LF] ++ js "2,").
  { vm_compute in Hfile. injection Hfile as <-. reflexivity. }
  split; [exact E|]. split; [|exact (Hdist Hd)].
  rewrite E. reflexivity.
Defined.

(** C7, as the claim words it, fails: the record below carries the id of
    the second row of the file and notes of two lines.  It is written in the
    place of that row, without quotes, and the second line of its notes is
    read back as a third row, whose id is the one of the first row: the file
    that had one row for each id now has two rows for the id [1], and the
    notes of the record are cut at the line feed. *)
Lemma C7_line_feed_in_a_value_adds_a_row_with_a_known_id :
  map (obj_get ID) (parseCsv notes_file) = [JStr (js "1"); JStr (js "2")]
  /\ distinct_ids (parseCsv notes_file)
  /\ success (fst (updateAndSaveCsvFile notes_state two_line_notes)) = true
  /\ exists newContent,
       files (snd (updateAndSaveCsvFile notes_state two_line_notes)) example_path
       = Some newContent
       /\ parseCsv newContent
          = [[(js "id", JStr (js "1")); (js "generalNotes", JStr (js "a"))];
             [(js "id", JStr (js "2")); (js "generalNotes", JStr (js "x"))];
             [(js "id", JStr (js "1")); (js "generalNotes", JStr [])]]
       /\ ~ distinct_ids (parseCsv newContent).
Proof.
  split; [reflexivity|]. split; [repeat constructor|]. split; [reflexivity|].
  eexists. split; [reflexivity|]. split; [reflexivity|].
  intros H. inversion H as [|a l Ha _]; subst.
  inversion Ha as [|b l' _ Hb]; subst.
  inversion Hb as [|c l'' Hc _]; subst.
  vm_compute in Hc. discriminate.
Qed.

End FileAfterSave.

(** ** The export of one visitor (script.js, [handleExport]) *)

Section ExportToFile.
Import Js Renderer Records Actions Terms.

(** X30: with a visitor of the list selected by a text id and a file opened,
    when the write goes through and the rows handed to [stringifyCsv] are
    rows the file format carries, the export shows the success message and
    the file then holds a row for the visitor: [parseCsv] reads it under the
    id selected and, if the columns written include [generalNotes], with the
    notes typed in the page, trimmed.  (The upsert itself does not throw for
    such a visitor, see [upsert_into_parsed].) *)
Theorem export_of_the_selected_visitor_is_written :
  forall (generalNotesInput : jsstring) (s : State) (m : Main.MainState)
         (k path content : jsstring) (v : Row) (visitors : list Obj),
    selectedVisitorId s = SText k -> k <> [] ->
    find_visitor (JStr k) (visitorsList s) = Some v ->
    Main.lastUsedFilePath m = Some path -> path <> [] ->
    Main.files m path = Some content ->
    Main.upsert (Main.parseCsv content) (export_record v generalNotesInput)
    = Ok visitors ->
    Main.writeOutcome m path (Main.stringifyCsv visitors) = Main.Written ->
    well_written visitors ->
    fst (handleExport generalNotesInput s m)
    = [ShowMessageBox
         (Literal (js "Visitor data updated in CSV successfully!")) KSuccess]
    /\ exists newContent row,
         Main.files (snd (handleExport generalNotesInput s m)) path = Some newContent
         /\ Main.parseCsv newContent
            = map (written_record (columns_of visitors)) visitors
         /\ In row (Main.parseCsv newContent)
         /\ obj_get Main.ID row = JStr (trim k)
         /\ (In (js "generalNotes") (columns_of visitors) ->
             obj_get (js "generalNotes") row = JStr (trim generalNotesInput)).
Proof.
  intros input s m k path content v visitors Hsel Hk Hfind Hpath Hne Hfile
    Hup Hw Hww.
  pose proof (find_visitor_text _ _ _ Hfind) as Hid.
  assert (Hv : truthy (JStr k) = true) by (destruct k; [congruence|reflexivity]).
  assert (Hrun : handleExport input s m
                 = ([ShowMessageBox
                       (Literal (js "Visitor data updated in CSV successfully!"))
                       KSuccess],
                    Main.mkMainState (Main.lastUsedFilePath m)
                      (Main.write_file path (Main.stringifyCsv visitors)
                         (Main.files m))
                      ((Main.fsLog m ++ [Main.FsRead path])
                       ++ [Main.FsWrite path (Main.stringifyCsv visitors)])
                      (Main.writeOutcome m))).
  { unfold handleExport. rewrite Hsel. cbn [js_of]. rewrite Hv, Hfind. cbn [negb].
    unfold Main.updateAndSaveCsvFile. rewrite Hpath.
    destruct path as [|c path]; [congruence|].
    rewrite Hfile, Hup, Hw. reflexivity. }
  rewrite Hrun. cbn [fst snd Main.files]. split; [reflexivity|].
  pose proof (upsert_holds_record _ _ _ Hup) as Hin.
  assert (Hcol : In Main.ID (columns_of visitors)).
  { destruct visitors as [|v0 vs]; [destruct Hin|]. now apply first_row_has_id. }
  exists (Main.stringifyCsv visitors),
         (written_record (columns_of visitors) (export_record v input)).
  split; [unfold Main.write_file; now rewrite str_eqb_refl|].
  rewrite (parse_written visitors Hww). split; [reflexivity|].
  split; [now apply in_map|]. split.
  - rewrite (written_record_get _ _ _ Hcol). do 2 f_equal.
    apply own_text. unfold export_record. now rewrite Hid.
  - intros Hg. now rewrite (written_record_get _ _ _ Hg).
Qed.

End ExportToFile.

Section ExportToFileExamples.
Import Js Renderer Records Actions Terms.

Lemma exported_rows_well_written :
  well_written
    [export_record (ImportSpec.jane_doe (SText [])) (js "calls on Mondays");
     nth 1 (Main.parseCsv export_file) []].
Proof.
  split; [exact export_headers_order|]. split; [exact export_headers_parsed|].
  constructor; [|constructor; [|constructor]];
    (split; [eexists; split; [vm_compute; reflexivity|discriminate]|]);
    intros h Hh; vm_compute in Hh;
    repeat (destruct Hh as [<-|Hh];
            [split; [vm_compute; repeat constructor; discriminate
                    |split; [vm_compute; (discriminate || exact I)
                            |vm_compute; reflexivity]]|]);
    destruct Hh.
Qed.

Lemma export_of_the_selected_visitor_is_written_witness :
  find_visitor (JStr (js "v1")) (visitorsList example_store)
  = Some (ImportSpec.jane_doe (SText []))
  /\ map (obj_get (js "generalNotes")) (Main.parseCsv export_file)
     = [JStr (js "old notes"); JStr []]
  /\ exists newContent row,
       Main.files (snd (handleExport (js "calls on Mondays") example_store
                          export_state)) Spec.example_path
       = Some newContent
       /\ In row (Main.parseCsv newContent)
       /\ obj_get Main.ID row = JStr (js "v1")
       /\ obj_get (js "generalNotes") row = JStr (js "calls on Mondays").
Proof.
  assert (H1 : js "v1" <> []) by discriminate.
  assert (H2 : Spec.example_path <> []) by discriminate.
  split; [reflexivity|]. split; [reflexivity|].
  destruct (export_of_the_selected_visitor_is_written (js "calls on Mondays")
              example_store export_state
              (js "v1") Spec.example_path export_file
              (ImportSpec.jane_doe (SText []))
              [export_record (ImportSpec.jane_doe (SText [])) (js "calls on Mondays");
               nth 1 (Main.parseCsv export_file) []]
              eq_refl H1 eq_refl eq_refl H2 eq_refl eq_refl eq_refl
              exported_rows_well_written)
    as (_ & newContent & row & Hfile & _ & Hin & Hid & Hnotes).
  exists newContent, row. split; [exact Hfile|]. split; [exact Hin|].
  split; [exact Hid|]. apply Hnotes.
  do 9 right. now left.
Defined.

End ExportToFileExamples.
